(** * Texture UV animation export: a shallow embedding

    The repository holds two variants of one Maya script:
    [Extraction_AnimData.py] (module [AnimData] below) and
    [Extraction_AnimData_Final.py] (module [AnimDataFinal]).  Both walk
    from the selected geometry to its materials and file textures, scrub
    the timeline over the playback range, sample UV-transform attributes
    of each texture and write one CSV file per texture.

    The host application is reached through [cmds] only.  Its answers are
    collected in the record [Scene]; the part of the host the script
    changes, the current time, is threaded as state, and every effectful
    call (time change, warning, file write, in-view message) is appended
    to a trace. *)

From Stdlib Require Import ZArith QArith String Ascii List Bool Lia Permutation.
From stdpp Require Import base option list gmap strings sorting.

Local Open Scope Z_scope.
Local Open Scope string_scope.
Local Open Scope list_scope.

(** ** Strings *)

(** [str.lower()], on the ASCII range. *)
Definition lower_ascii (c : ascii) : ascii :=
  let n := N_of_ascii c in
  if ((65 <=? n) && (n <=? 90))%N then ascii_of_N (n + 32) else c.

Fixpoint lower (s : string) : string :=
  match s with
  | EmptyString => EmptyString
  | String c s' => String (lower_ascii c) (lower s')
  end.

(** [k in s] for strings: [k] occurs in [s] as a substring. *)
Fixpoint contains (k s : string) : bool :=
  String.prefix k s ||
  match s with
  | EmptyString => false
  | String _ s' => contains k s'
  end.

(** ** Python values *)

(** What [cmds.getAttr] answers for the plugs this script reads: a
    boolean, an integer or a floating-point number (a rational here). *)
Inductive attr : Type :=
  | ABool (b : bool)
  | AInt (z : Z)
  | AFloat (q : Q).

(** The cells of a row: [None], a number or a string. *)
Inductive pyval : Type :=
  | PNone
  | PNum (a : attr)
  | PStr (s : string).

Definition attr_Q (a : attr) : Q :=
  match a with
  | ABool b => if b then 1%Q else 0%Q
  | AInt z => inject_Z z
  | AFloat q => q
  end.

(** Truth value of a number in an [if]. *)
Definition truthy (a : attr) : bool := negb (Qeq_bool (attr_Q a) 0%Q).

(** [==] on cells: numbers compare by value, whatever their type. *)
Definition py_eqb (x y : pyval) : bool :=
  match x, y with
  | PNone, PNone => true
  | PNum a, PNum b => Qeq_bool (attr_Q a) (attr_Q b)
  | PStr s, PStr t => String.eqb s t
  | _, _ => false
  end.

(** [==] on lists: same length and equal elements. *)
Fixpoint py_list_eqb (l1 l2 : list pyval) : bool :=
  match l1, l2 with
  | [], [] => true
  | x :: l1', y :: l2' => py_eqb x y && py_list_eqb l1' l2'
  | _, _ => false
  end.

(** [state != last_state], where [last_state] is [None] or a list. *)
Definition state_ne (state : list pyval) (last_state : option (list pyval)) : bool :=
  match last_state with
  | None => true
  | Some l => negb (py_list_eqb state l)
  end.

(** [int(x)] on a float: truncation towards zero. *)
Definition py_int (q : Q) : Z := Z.quot (Qnum q) (Z.pos (Qden q)).

(** [range(a, b)]. *)
Definition py_range (a b : Z) : list Z :=
  map (fun i => a + Z.of_nat i) (seq 0 (Z.to_nat (b - a))).

(** [sorted(s)] for a set of strings. *)
Definition str_le (a b : string) : Prop := String.leb a b = true.

#[global] Instance str_le_dec : RelDecision str_le.
Proof. intros a b. unfold str_le. apply _. Defined.

Definition sorted (s : gset string) : list string :=
  merge_sort str_le (elements s).

(** ** The host *)

(** Answers of the host to the queries of the script.  Only attribute
    values depend on the current time. *)
Record Scene : Type := {
  (** [cmds.ls(sl=True)] *)
  sc_selection : list string;
  (** [cmds.listRelatives(geo, shapes=True, fullPath=True) or []] *)
  sc_shapes : string -> list string;
  (** [cmds.listConnections(plug, type="shadingEngine") or []] *)
  sc_shading_engines : string -> list string;
  (** [cmds.listConnections(plug, s=True, d=False) or []] *)
  sc_sources : string -> list string;
  (** [cmds.listHistory(material, pruneDagObjects=True) or []] *)
  sc_history : string -> list string;
  (** [cmds.nodeType(node)] *)
  sc_node_type : string -> string;
  (** [cmds.objExists(name)] *)
  sc_obj_exists : string -> bool;
  (** [cmds.ls(pattern, type=t) or []] *)
  sc_ls : string -> string -> list string;
  (** [cmds.getAttr(plug)] when the current time is [t] *)
  sc_attr : Z -> string -> attr;
  (** [cmds.playbackOptions(q=True, min=True)], and [max=True] *)
  sc_playback_min : Q;
  sc_playback_max : Q;
  (** [cmds.checkBox(name, q=True, v=True)] *)
  sc_checkBox : string -> bool;
  (** [cmds.radioButtonGrp(name, q=True, select=True)] *)
  sc_radioButtonGrp : string -> Z
}.

(** The module-level globals. *)
Record Globals : Type := {
  EXPORT_PATH : string;
  TEXTURE_CHECKBOXES : gmap string string
}.

(** The functions of [os.path] the script calls. *)
Record OsPath : Type := {
  dirname : string -> string;
  basename : string -> string;
  splitext : string -> string * string;
  join : string -> string -> string
}.

(** The [meta] dictionary; its three keys are fixed. *)
Record Meta : Type := {
  meta_geo : bool;
  meta_mat : bool;
  meta_file : bool
}.

(** Effectful calls, in the order they are made. *)
Inductive Event : Type :=
  | CurrentTime (f : Z)
  | Warning (msg : string)
  | WriteCsv (path : string) (rows : list (list pyval))
  | InViewMessage (amg : string).

(** ** The effect monad: current time as state, a trace, exceptions *)

Inductive exn : Type :=
  | KeyError (key : string).

Inductive Res (A : Type) : Type :=
  | Ok (a : A)
  | Raise (e : exn).
Arguments Ok {A} a.
Arguments Raise {A} e.

Record Out (A : Type) : Type := mkOut {
  out_time : Z;
  out_trace : list Event;
  out_res : Res A
}.
Arguments mkOut {A} _ _ _.
Arguments out_time {A} _.
Arguments out_trace {A} _.
Arguments out_res {A} _.

Definition M (A : Type) : Type := Z -> Out A.

Definition ret {A} (a : A) : M A := fun t => mkOut t [] (Ok a).

Definition bind {A B} (m : M A) (k : A -> M B) : M B := fun t =>
  let o := m t in
  match out_res o with
  | Ok a =>
      let o' := k a (out_time o) in
      mkOut (out_time o') (out_trace o ++ out_trace o') (out_res o')
  | Raise e => mkOut (out_time o) (out_trace o) (Raise e)
  end.

Definition raise {A} (e : exn) : M A := fun t => mkOut t [] (Raise e).

Definition emit (e : Event) : M unit := fun t => mkOut t [e] (Ok tt).

(** [cmds.currentTime(f, edit=True)] *)
Definition currentTime (f : Z) : M unit := fun _ => mkOut f [CurrentTime f] (Ok tt).

Declare Scope m_scope.
Delimit Scope m_scope with M.
Notation "'do' x <- m 'in' k" := (bind m (fun x => k))
  (at level 10, x pattern, m at level 100, k at level 200) : m_scope.
Notation "'run' m 'in' k" := (bind m (fun _ => k))
  (at level 10, m at level 100, k at level 200) : m_scope.
Local Open Scope m_scope.

(** [for x in l: s = body(s, x)] *)
Fixpoint foldM {A S} (body : S -> A -> M S) (l : list A) (s : S) : M S :=
  match l with
  | [] => ret s
  | x :: l' => do s' <- body s x in foldM body l' s'
  end.

(** [for x in l: body(x)] *)
Fixpoint for_each {A} (l : list A) (body : A -> M unit) : M unit :=
  match l with
  | [] => ret tt
  | x :: l' => run body x in for_each l' body
  end.

(** The files a trace leaves behind: the last write to a path wins. *)
Fixpoint file_contents (tr : list Event) (path : string) : option (list (list pyval)) :=
  match tr with
  | [] => None
  | e :: tr' =>
      match file_contents tr' path with
      | Some c => Some c
      | None =>
          match e with
          | WriteCsv p c => if String.eqb p path then Some c else None
          | _ => None
          end
      end
  end.

Definition writes (tr : list Event) : list (string * list (list pyval)) :=
  omap (fun e => match e with WriteCsv p c => Some (p, c) | _ => None end) tr.

Definition time_calls (tr : list Event) : list Z :=
  omap (fun e => match e with CurrentTime f => Some f | _ => None end) tr.

(** ** Scene queries, shared by the two variants *)

Section Queries.
Variable sc : Scene.
(** [list(s)] for a set [s]: the iteration order of the interpreter. *)
Variable list_of_set : gset string -> list string.

(** [cmds.getAttr(plug)]: the value at the host's current time. *)
Definition getAttr (plug : string) : M attr :=
  fun t => mkOut t [] (Ok (sc_attr sc t plug)).

Definition get_materials_from_geo (geo : string) : list string :=
  let shapes := sc_shapes sc geo in
  let materials :=
    fold_left (fun (materials : gset string) s =>
      let sgs := sc_shading_engines sc (s +:+ ".instObjGroups[0]") in
      fold_left (fun (materials : gset string) sg =>
        let mats := sc_sources sc (sg +:+ ".surfaceShader") in
        materials ∪ list_to_set mats) sgs materials) shapes ∅ in
  list_of_set materials.

Definition get_file_textures_from_material (material : string) : list string :=
  let history := sc_history sc material in
  let files :=
    fold_left (fun (files : gset string) h =>
      if String.eqb (sc_node_type sc h) "file" then files ∪ {[h]} else files)
      history ∅ in
  sorted files.

Definition get_place2d (file_node : string) : option string :=
  head (sc_sources sc (file_node +:+ ".uvCoord")).

Definition get_active_image (file_node : string) : M pyval :=
  if sc_obj_exists sc (file_node +:+ ".useFrameExtension") then
    do u <- getAttr (file_node +:+ ".useFrameExtension") in
    if truthy u then
      do v <- getAttr (file_node +:+ ".frameExtension") in ret (PNum v)
    else ret PNone
  else ret PNone.

(** Helpers of the second variant: sampling through correction nodes. *)

Definition KEYWORDS : list string := ["iris"; "pupil"; "eye"].

Definition _keyword_from_names (file_node place_node : string) : list string :=
  flat_map (fun s =>
    if String.eqb s "" then []
    else filter (fun k => Is_true (contains k (lower s))) KEYWORDS)
    [file_node; place_node].

(** The nested search of [get_offset_uv]: the first keyword, in the
    order of [keys], that some node matches, and for it the first
    matching node in the order of [nodes]. *)
Fixpoint first_match (keys nodes : list string) : option string :=
  match keys with
  | [] => None
  | k :: keys' =>
      match List.find (fun n => contains k (lower n)) nodes with
      | Some n => Some n
      | None => first_match keys' nodes
      end
  end.

Definition get_offset_uv (file_node place_node : string) : M (attr * attr) :=
  let keys := _keyword_from_names file_node place_node in
  let nodes := sc_ls sc "Translation_Corr_*" "multiplyDivide" in
  match first_match keys nodes with
  | Some n =>
      do x <- getAttr (n +:+ ".outputX") in
      do y <- getAttr (n +:+ ".outputY") in ret (x, y)
  | None =>
      match nodes with
      | n0 :: _ =>
          do x <- getAttr (n0 +:+ ".outputX") in
          do y <- getAttr (n0 +:+ ".outputY") in ret (x, y)
      | [] =>
          do x <- getAttr (place_node +:+ ".offsetU") in
          do y <- getAttr (place_node +:+ ".offsetV") in ret (x, y)
      end
  end.

(** One inner loop of [get_scale_uv]: every matching node overwrites
    the value found so far. *)
Definition scan_nodes (k : string) (nodes : list string) (cur : option attr)
  : M (option attr) :=
  foldM (fun cur n =>
    if contains k (lower n) then
      do v <- getAttr (n +:+ ".outputX") in ret (Some v)
    else ret cur) nodes cur.

Definition get_scale_uv (file_node place_node : string) : M (attr * attr) :=
  let keys := _keyword_from_names file_node place_node in
  let nodes_u := sc_ls sc "ScaleU_corr_*" "multiplyDivide" in
  let nodes_v := sc_ls sc "ScaleV_corr_*" "multiplyDivide" in
  do uv <- foldM (fun (uv : option attr * option attr) k =>
             do su <- scan_nodes k nodes_u uv.1 in
             do sv <- scan_nodes k nodes_v uv.2 in ret (su, sv))
           keys (None, None) in
  do su <- match uv.1 with
           | None => getAttr (place_node +:+ ".repeatU")
           | Some v => ret v
           end in
  do sv <- match uv.2 with
           | None => getAttr (place_node +:+ ".repeatV")
           | Some v => ret v
           end in
  ret (su, sv).

(** The option table of [run_export], and the options it collects. *)
Definition OPTION_TABLE : list (string * string) :=
  [("ActiveImage", "cb_img"); ("OffsetU", "cb_ou"); ("OffsetV", "cb_ov");
   ("ScaleU", "cb_su"); ("ScaleV", "cb_sv"); ("RotateUV", "cb_r")].

Definition collect_options : list string :=
  flat_map (fun kc => if sc_checkBox sc kc.2 then [kc.1] else []) OPTION_TABLE.

Definition collect_meta : Meta :=
  {| meta_geo := sc_checkBox sc "cb_geo";
     meta_mat := sc_checkBox sc "cb_mat";
     meta_file := sc_checkBox sc "cb_file" |}.

(** The header of the data table. *)
Definition header (options : list string) (meta : Meta) : list pyval :=
  [PStr "Frame"]
  ++ (if meta_geo meta then [PStr "Geometry"] else [])
  ++ (if meta_mat meta then [PStr "Material"] else [])
  ++ (if meta_file meta then [PStr "FileTexture"] else [])
  ++ map PStr options.

(** The cells a row starts with: the frame, then the metadata. *)
Definition row_prefix (meta : Meta) (f : Z) (geo mat file_node : string)
  : list pyval :=
  [PNum (AInt f)]
  ++ (if meta_geo meta then [PStr geo] else [])
  ++ (if meta_mat meta then [PStr mat] else [])
  ++ (if meta_file meta then [PStr file_node] else []).

Definition read_attr (plug : string) : M pyval :=
  do a <- getAttr plug in ret (PNum a).
End Queries.

(** ** First variant: [Extraction_AnimData.py] *)

Module AnimData.
Section Script.
Variable os : OsPath.
Variable list_of_set : gset string -> list string.
Variable sc : Scene.
Variable g : Globals.

(** [if name in options: v = read; state.append(v); data.append(v)] *)
Definition sample_option (name : string) (options : list string)
    (read : M pyval) (sd : list pyval * list pyval)
  : M (list pyval * list pyval) :=
  if bool_decide (name ∈ options) then
    do v <- read in ret (sd.1 ++ [v], sd.2 ++ [v])
  else ret sd.

(** The sampling part of the frame loop: the lists [state] and [data]. *)
Definition sample (options : list string) (file_node place : string)
  : M (list pyval * list pyval) :=
  do sd <- sample_option "ActiveImage" options (get_active_image sc file_node) ([], []) in
  do sd <- sample_option "OffsetU" options (read_attr sc (place +:+ ".offsetU")) sd in
  do sd <- sample_option "OffsetV" options (read_attr sc (place +:+ ".offsetV")) sd in
  do sd <- sample_option "ScaleU" options (read_attr sc (place +:+ ".repeatU")) sd in
  do sd <- sample_option "ScaleV" options (read_attr sc (place +:+ ".repeatV")) sd in
  sample_option "RotateUV" options (read_attr sc (place +:+ ".rotateUV")) sd.

(** The body of [for f in range(start, end + 1)]; the loop state is
    [(rows, last_state)]. *)
Definition frame_body (options : list string) (meta : Meta) (collect_all : bool)
    (geo mat file_node place : string)
    (acc : list (list pyval) * option (list pyval)) (f : Z)
  : M (list (list pyval) * option (list pyval)) :=
  run currentTime f in
  do sd <- sample options file_node place in
  if collect_all || state_ne sd.1 acc.2 then
    ret (acc.1 ++ [row_prefix meta f geo mat file_node ++ sd.2], Some sd.1)
  else ret acc.

Definition frame_loop (options : list string) (meta : Meta) (collect_all : bool)
    (geo mat file_node place : string) (start end_ : Z)
  : M (list (list pyval)) :=
  do acc <- foldM (frame_body options meta collect_all geo mat file_node place)
              (py_range start (end_ + 1)) ([], None) in
  ret acc.1.

Definition csv_path (file_node : string) : string :=
  let base_dir := dirname os (EXPORT_PATH g) in
  let base_name := (splitext os (basename os (EXPORT_PATH g))).1 in
  join os base_dir (base_name +:+ "_" +:+ file_node +:+ ".csv").

(** The body of the loop over file nodes. *)
Definition export_texture (options : list string) (meta : Meta) (collect_all : bool)
    (geo : string) (start end_ : Z) (mat file_node : string) : M unit :=
  match TEXTURE_CHECKBOXES g !! file_node with
  | None => ret tt
  | Some cb =>
      if negb (sc_checkBox sc cb) then ret tt
      else
        match get_place2d sc file_node with
        | None => ret tt
        | Some place =>
            if String.eqb place "" then ret tt
            else
              do rows <- frame_loop options meta collect_all geo mat file_node place
                           start end_ in
              match rows with
              | [] => ret tt
              | _ :: _ => emit (WriteCsv (csv_path file_node) (header options meta :: rows))
              end
        end
  end.

Definition export_textures (options : list string) (meta : Meta) (collect_all : bool)
  : M unit :=
  if String.eqb (EXPORT_PATH g) "" then emit (Warning "Choose an export path.")
  else
    match sc_selection sc with
    | [] => emit (Warning "Select geometry.")
    | geo :: _ =>
        let materials := get_materials_from_geo sc list_of_set geo in
        let start := py_int (sc_playback_min sc) in
        let end_ := py_int (sc_playback_max sc) in
        run for_each materials (fun mat =>
              for_each (get_file_textures_from_material sc mat)
                (export_texture options meta collect_all geo start end_ mat)) in
        emit (InViewMessage "<hl>Texture export complete</hl>")
    end.

Definition run_export : M unit :=
  let options := collect_options sc in
  match options with
  | [] => emit (Warning "Select values to export.")
  | _ :: _ =>
      let meta := collect_meta sc in
      let mode := sc_radioButtonGrp sc "rb_mode" in
      let collect_all := Z.eqb mode 1 in
      export_textures options meta collect_all
  end.
End Script.
End AnimData.

(** ** Second variant: [Extraction_AnimData_Final.py] *)

Module AnimDataFinal.
Section Script.
Variable os : OsPath.
Variable list_of_set : gset string -> list string.
Variable sc : Scene.
Variable g : Globals.

(** The dictionary [current] of one frame. *)
Definition sample (options : list string) (file_node place : string)
  : M (gmap string pyval) :=
  let has name := bool_decide (name ∈ options) in
  do current <- ret (∅ : gmap string pyval) in
  do current <-
    (if has "ActiveImage" then
       do v <- get_active_image sc file_node in ret (<["ActiveImage" := v]> current)
     else ret current) in
  do current <-
    (if has "OffsetU" || has "OffsetV" then
       do ouv <- get_offset_uv sc file_node place in
       let current :=
         if has "OffsetU" then <["OffsetU" := PNum ouv.1]> current else current in
       let current :=
         if has "OffsetV" then <["OffsetV" := PNum ouv.2]> current else current in
       ret current
     else ret current) in
  do current <-
    (if has "ScaleU" || has "ScaleV" then
       do suv <- get_scale_uv sc file_node place in
       let current :=
         if has "ScaleU" then <["ScaleU" := PNum suv.1]> current else current in
       let current :=
         if has "ScaleV" then <["ScaleV" := PNum suv.2]> current else current in
       ret current
     else ret current) in
  if has "RotateUV" then
    do v <- read_attr sc (place +:+ ".rotateUV") in ret (<["RotateUV" := v]> current)
  else ret current.

(** [[current[o] for o in options]]: a missing key raises [KeyError]. *)
Fixpoint lookup_all (current : gmap string pyval) (options : list string)
  : M (list pyval) :=
  match options with
  | [] => ret []
  | o :: options' =>
      match current !! o with
      | None => raise (KeyError o)
      | Some v => do vs <- lookup_all current options' in ret (v :: vs)
      end
  end.

(** The state of the frame loop. *)
Record Acc : Type := mkAcc {
  rows : list (list pyval);
  curve_frames : list Z;
  curve_values : gmap string (list pyval);
  last_state : option (list pyval)
}.

(** [{opt: [] for opt in options}] *)
Definition empty_curves (options : list string) : gmap string (list pyval) :=
  fold_left (fun cv opt => <[opt := []]> cv) options ∅.

(** [for opt in options: curve_values[opt].append(current[opt])]; the
    values [current[opt]] are those of [state], in the same order. *)
Definition append_curves (options : list string) (state : list pyval)
    (cv : gmap string (list pyval)) : gmap string (list pyval) :=
  fold_left (fun cv ov => alter (fun l => l ++ [ov.2]) ov.1 cv) (zip options state) cv.

Definition frame_body (options : list string) (meta : Meta) (collect_all : bool)
    (geo mat file_node place : string) (acc : Acc) (f : Z) : M Acc :=
  run currentTime f in
  do current <- sample options file_node place in
  do state <- lookup_all current options in
  if collect_all || state_ne state (last_state acc) then
    ret {| rows := rows acc ++ [row_prefix meta f geo mat file_node ++ state];
           curve_frames := curve_frames acc ++ [f];
           curve_values := append_curves options state (curve_values acc);
           last_state := Some state |}
  else ret acc.

Definition frame_loop (options : list string) (meta : Meta) (collect_all : bool)
    (geo mat file_node place : string) (start end_ : Z) : M Acc :=
  foldM (frame_body options meta collect_all geo mat file_node place)
    (py_range start (end_ + 1))
    {| rows := []; curve_frames := []; curve_values := empty_curves options;
       last_state := None |}.

Definition csv_path (file_node : string) : string :=
  let base_dir := dirname os (EXPORT_PATH g) in
  let base_name := (splitext os (basename os (EXPORT_PATH g))).1 in
  join os base_dir (base_name +:+ "_" +:+ file_node +:+ ".csv").

(** The rows of the curve table. *)
Definition curve_table (options : list string) (acc : Acc) : list (list pyval) :=
  (PStr "" :: map (fun f => PNum (AInt f)) (curve_frames acc))
  :: map (fun opt => PStr opt :: default [] (curve_values acc !! opt)) options.

Definition export_texture (options : list string) (meta : Meta)
    (export_mode : string) (collect_all : bool)
    (geo : string) (start end_ : Z) (mat file_node : string) : M unit :=
  match TEXTURE_CHECKBOXES g !! file_node with
  | None => ret tt
  | Some cb =>
      if negb (sc_checkBox sc cb) then ret tt
      else
        match get_place2d sc file_node with
        | None => ret tt
        | Some place =>
            if String.eqb place "" then ret tt
            else
              do acc <- frame_loop options meta collect_all geo mat file_node place
                          start end_ in
              if String.eqb export_mode "datatable" then
                emit (WriteCsv (csv_path file_node) (header options meta :: rows acc))
              else
                emit (WriteCsv (csv_path file_node) (curve_table options acc))
        end
  end.

Definition export_textures (options : list string) (meta : Meta)
    (export_mode : string) (collect_all : bool) : M unit :=
  if String.eqb (EXPORT_PATH g) "" then emit (Warning "Choose an export path.")
  else
    match sc_selection sc with
    | [] => emit (Warning "Select geometry.")
    | geo :: _ =>
        let materials := get_materials_from_geo sc list_of_set geo in
        let start := py_int (sc_playback_min sc) in
        let end_ := py_int (sc_playback_max sc) in
        run for_each materials (fun mat =>
              for_each (get_file_textures_from_material sc mat)
                (export_texture options meta export_mode collect_all geo start end_ mat)) in
        emit (InViewMessage "<hl>Texture export complete</hl>")
    end.

Definition run_export : M unit :=
  let options := collect_options sc in
  let meta := collect_meta sc in
  let export_mode :=
    if Z.eqb (sc_radioButtonGrp sc "rb_export") 1 then "datatable" else "curve" in
  let collect_all := Z.eqb (sc_radioButtonGrp sc "rb_frames") 1 in
  export_textures options meta export_mode collect_all.
End Script.
End AnimDataFinal.

(** ** What the sampling functions compute, as functions of the time *)

Section Meaning.
Variable sc : Scene.

(** [m] reads the host at its current time and changes nothing. *)
Definition reads {A} (m : M A) (f : Z -> A) : Prop :=
  forall t, m t = mkOut t [] (Ok (f t)).

Definition active_image_at (t : Z) (file_node : string) : pyval :=
  if sc_obj_exists sc (file_node +:+ ".useFrameExtension")
     && truthy (sc_attr sc t (file_node +:+ ".useFrameExtension"))
  then PNum (sc_attr sc t (file_node +:+ ".frameExtension"))
  else PNone.

(** The nodes among [nodes] that a keyword of [keys] matches, in the
    order the loops of [get_scale_uv] meet them: keywords outside,
    nodes inside. *)
Definition keyword_hits (keys nodes : list string) : list string :=
  flat_map (fun k => filter (fun n => Is_true (contains k (lower n))) nodes) keys.

Definition offset_uv_at (t : Z) (file_node place_node : string) : attr * attr :=
  let keys := _keyword_from_names file_node place_node in
  let nodes := sc_ls sc "Translation_Corr_*" "multiplyDivide" in
  let outputs n := (sc_attr sc t (n +:+ ".outputX"), sc_attr sc t (n +:+ ".outputY")) in
  match first_match keys nodes with
  | Some n => outputs n
  | None =>
      match nodes with
      | n0 :: _ => outputs n0
      | [] => (sc_attr sc t (place_node +:+ ".offsetU"),
               sc_attr sc t (place_node +:+ ".offsetV"))
      end
  end.

Definition scale_at (t : Z) (keys nodes : list string) (fallback : string) : attr :=
  match last (keyword_hits keys nodes) with
  | Some n => sc_attr sc t (n +:+ ".outputX")
  | None => sc_attr sc t fallback
  end.

Definition scale_uv_at (t : Z) (file_node place_node : string) : attr * attr :=
  let keys := _keyword_from_names file_node place_node in
  (scale_at t keys (sc_ls sc "ScaleU_corr_*" "multiplyDivide") (place_node +:+ ".repeatU"),
   scale_at t keys (sc_ls sc "ScaleV_corr_*" "multiplyDivide") (place_node +:+ ".repeatV")).

Definition ALL_OPTIONS : list string := map fst OPTION_TABLE.

(** The value the first variant samples for an option name: a direct
    read of the file node or of the place2dTexture node. *)
Definition direct_value (t : Z) (file_node place : string) (name : string) : pyval :=
  if String.eqb name "ActiveImage" then active_image_at t file_node
  else if String.eqb name "OffsetU" then PNum (sc_attr sc t (place +:+ ".offsetU"))
  else if String.eqb name "OffsetV" then PNum (sc_attr sc t (place +:+ ".offsetV"))
  else if String.eqb name "ScaleU" then PNum (sc_attr sc t (place +:+ ".repeatU"))
  else if String.eqb name "ScaleV" then PNum (sc_attr sc t (place +:+ ".repeatV"))
  else PNum (sc_attr sc t (place +:+ ".rotateUV")).

(** The value the second variant samples for an option name. *)
Definition corrected_value (t : Z) (file_node place : string) (name : string) : pyval :=
  if String.eqb name "ActiveImage" then active_image_at t file_node
  else if String.eqb name "OffsetU" then PNum (offset_uv_at t file_node place).1
  else if String.eqb name "OffsetV" then PNum (offset_uv_at t file_node place).2
  else if String.eqb name "ScaleU" then PNum (scale_uv_at t file_node place).1
  else if String.eqb name "ScaleV" then PNum (scale_uv_at t file_node place).2
  else PNum (sc_attr sc t (place +:+ ".rotateUV")).

(** The option names of the table that occur in [options], in the
    order of the table. *)
Definition selected (options : list string) : list string :=
  filter (fun name => name ∈ options) ALL_OPTIONS.
End Meaning.

(** ** The frames a loop records *)

Section Recorded.
Variable collect_all : bool.
(** The state sampled at each frame. *)
Variable S : Z -> list pyval.

Definition record_step (acc : list (Z * list pyval) * option (list pyval)) (f : Z)
  : list (Z * list pyval) * option (list pyval) :=
  if collect_all || state_ne (S f) acc.2 then (acc.1 ++ [(f, S f)], Some (S f))
  else acc.

Definition recorded (frames : list Z) : list (Z * list pyval) :=
  (fold_left record_step frames ([], None)).1.
End Recorded.

(** The option values of a row: what follows the frame and the metadata. *)
Definition row_state (meta : Meta) (row : list pyval) : list pyval :=
  drop (length (row_prefix meta 0 "" "" "")) row.

(** The textures an export visits: material, file node and place2d node
    of every iteration that passes the three guards of the inner loop. *)
Section Targets.
Variable list_of_set : gset string -> list string.
Variable sc : Scene.
Variable g : Globals.

Definition enabled_place (file_node : string) : option string :=
  match TEXTURE_CHECKBOXES g !! file_node with
  | None => None
  | Some cb =>
      if sc_checkBox sc cb then
        match get_place2d sc file_node with
        | Some place => if String.eqb place "" then None else Some place
        | None => None
        end
      else None
  end.

Definition targets (geo : string) : list (string * string * string) :=
  flat_map (fun mat =>
    omap (fun file_node =>
            match enabled_place file_node with
            | Some place => Some (mat, file_node, place)
            | None => None
            end)
         (get_file_textures_from_material sc mat))
    (get_materials_from_geo sc list_of_set geo).
End Targets.

(** ** The tables an export builds, in closed form *)

Section Tables.
Variable os : OsPath.
Variable sc : Scene.
Variable g : Globals.

(** The frames of the playback range. *)
Definition frames : list Z :=
  py_range (py_int (sc_playback_min sc)) (py_int (sc_playback_max sc) + 1).

Definition make_row (meta : Meta) (geo mat file_node : string)
    (fs : Z * list pyval) : list pyval :=
  row_prefix meta fs.1 geo mat file_node ++ fs.2.

(** First variant: the state of a frame, the rows of a texture and the
    events of its export. *)
Definition direct_state (options : list string) (file_node place : string) (t : Z)
  : list pyval :=
  map (direct_value sc t file_node place) (selected options).

Definition direct_rows (options : list string) (meta : Meta) (collect_all : bool)
    (geo : string) (target : string * string * string) : list (list pyval) :=
  map (make_row meta geo target.1.1 target.1.2)
      (recorded collect_all (direct_state options target.1.2 target.2) frames).

Definition direct_events (options : list string) (meta : Meta) (collect_all : bool)
    (geo : string) (target : string * string * string) : list Event :=
  map CurrentTime frames
  ++ match direct_rows options meta collect_all geo target with
     | [] => []
     | rows =>
         [WriteCsv (AnimData.csv_path os g target.1.2) (header options meta :: rows)]
     end.

(** Second variant: the dictionary of a frame. *)
Definition current_at (options : list string) (file_node place : string) (t : Z)
  : gmap string pyval :=
  let has name := bool_decide (name ∈ options) in
  let c0 : gmap string pyval := ∅ in
  let c1 :=
    if has "ActiveImage" then <["ActiveImage" := active_image_at sc t file_node]> c0
    else c0 in
  let c2 :=
    if has "OffsetU" || has "OffsetV" then
      let ouv := offset_uv_at sc t file_node place in
      let c := if has "OffsetU" then <["OffsetU" := PNum ouv.1]> c1 else c1 in
      if has "OffsetV" then <["OffsetV" := PNum ouv.2]> c else c
    else c1 in
  let c3 :=
    if has "ScaleU" || has "ScaleV" then
      let suv := scale_uv_at sc t file_node place in
      let c := if has "ScaleU" then <["ScaleU" := PNum suv.1]> c2 else c2 in
      if has "ScaleV" then <["ScaleV" := PNum suv.2]> c else c
    else c2 in
  if has "RotateUV" then
    <["RotateUV" := PNum (sc_attr sc t (place +:+ ".rotateUV"))]> c3
  else c3.

(** Second variant, for option names of the table: the state of a
    frame, the loop state after the last frame and the events of a
    texture. *)
Definition corrected_state (options : list string) (file_node place : string) (t : Z)
  : list pyval :=
  map (corrected_value sc t file_node place) options.

Definition corrected_acc (options : list string) (meta : Meta) (collect_all : bool)
    (geo : string) (target : string * string * string) : AnimDataFinal.Acc :=
  let rec := recorded collect_all (corrected_state options target.1.2 target.2) frames in
  {| AnimDataFinal.rows := map (make_row meta geo target.1.1 target.1.2) rec;
     AnimDataFinal.curve_frames := map fst rec;
     AnimDataFinal.curve_values :=
       fold_left (fun cv fs => AnimDataFinal.append_curves options fs.2 cv) rec
         (AnimDataFinal.empty_curves options);
     AnimDataFinal.last_state := snd <$> last rec |}.

Definition corrected_events (options : list string) (meta : Meta)
    (export_mode : string) (collect_all : bool)
    (geo : string) (target : string * string * string) : list Event :=
  let acc := corrected_acc options meta collect_all geo target in
  map CurrentTime frames
  ++ [WriteCsv (AnimDataFinal.csv_path os g target.1.2)
        (if String.eqb export_mode "datatable"
         then header options meta :: AnimDataFinal.rows acc
         else AnimDataFinal.curve_table options acc)].

(** Two hosts answer every query but [getAttr] alike. *)
Definition same_static (sc' : Scene) : Prop :=
  sc_selection sc = sc_selection sc'
  /\ sc_shapes sc = sc_shapes sc'
  /\ sc_shading_engines sc = sc_shading_engines sc'
  /\ sc_sources sc = sc_sources sc'
  /\ sc_history sc = sc_history sc'
  /\ sc_node_type sc = sc_node_type sc'
  /\ sc_obj_exists sc = sc_obj_exists sc'
  /\ sc_ls sc = sc_ls sc'
  /\ sc_playback_min sc = sc_playback_min sc'
  /\ sc_playback_max sc = sc_playback_max sc'
  /\ sc_checkBox sc = sc_checkBox sc'
  /\ sc_radioButtonGrp sc = sc_radioButtonGrp sc'.
End Tables.

(** ** Properties the claims speak of *)

(** Deduplication of unchanged frames.  [R e] is the list of rows the
    loop has built when it has run over the frames from [start] to [e];
    [S f] is the state sampled at frame [f] and [P f] the cells a row of
    frame [f] starts with. *)
Definition changes_only (meta : Meta) (start end_ : Z)
    (S P : Z -> list pyval) (R : Z -> list (list pyval)) : Prop :=
  R (start - 1) = []
  /\ (forall f, start <= f <= end_ ->
        R f = R (f - 1)
              ++ (if state_ne (S f) (row_state meta <$> last (R (f - 1)))
                  then [P f ++ S f] else []))
  /\ (forall (i : nat) r1 r2,
        R end_ !! i = Some r1 -> R end_ !! (i + 1)%nat = Some r2 ->
        py_list_eqb (row_state meta r2) (row_state meta r1) = false)
  /\ (start <= end_ -> head (R end_) = Some (P start ++ S start)).

(** What a run of the frame loop does: it sets the current time to each
    frame of [frs] in turn and to nothing else, every row it builds
    holds the state [S f] sampled at the time [f] of its frame, and in
    all-frames mode there is one row per frame. *)
Definition scrubs (frs : list Z) (collect_all : bool) (S P : Z -> list pyval)
    (t0 : Z) (o : Out (list (list pyval))) : Prop :=
  out_time o = default t0 (last frs)
  /\ out_trace o = map CurrentTime frs
  /\ exists rows,
       out_res o = Ok rows
       /\ (forall row, row ∈ rows -> exists f, f ∈ frs /\ row = P f ++ S f)
       /\ (collect_all = true -> rows = map (fun f => P f ++ S f) frs).

(** The rows of the second variant's loop state. *)
Definition out_rows (o : Out AnimDataFinal.Acc) : Out (list (list pyval)) :=
  mkOut (out_time o) (out_trace o)
    (match out_res o with
     | Ok acc => Ok (AnimDataFinal.rows acc)
     | Raise e => Raise e
     end).

(** A data table of one texture: the header, then rows of the same
    width that hold the frame, the enabled metadata and the value of
    each option of the header, in the order of the header. *)
Definition data_table (options : list string) (meta : Meta)
    (value : Z -> string -> pyval) (geo mat file_node : string) (frs : list Z)
    (tbl : list (list pyval)) : Prop :=
  exists rows,
    tbl = header options meta :: rows
    /\ forall row, row ∈ rows ->
         length row = length (header options meta)
         /\ exists f, f ∈ frs
              /\ row = row_prefix meta f geo mat file_node ++ map (value f) options.

(** Two computations make the same calls and give the same result from
    any two current times, and leave the host at a common time unless
    neither changes the time. *)
Definition agree {A} (m m' : M A) : Prop :=
  forall t t',
    out_trace (m t) = out_trace (m' t')
    /\ out_res (m t) = out_res (m' t')
    /\ (out_time (m t) = out_time (m' t')
        \/ (out_time (m t) = t /\ out_time (m' t') = t')).

(** ** The texture panel and the path dialog *)

(** Calls that build or change the panel, in the order they are made.
    [CheckBox label name] is a checkbox created with that label, for
    which the host answered the control [name]. *)
Inductive UiEvent : Type :=
  | DeleteUI (name : string)
  | SetParent (name : string)
  | ColumnLayout (name : string)
  | Text (label : string)
  | CheckBox (label name : string)
  | TextField (name text : string).

(** Answers of the host about the panel. *)
Record Ui : Type := {
  (** [cmds.columnLayout(name, exists=True)] *)
  ui_columnLayout_exists : string -> bool;
  (** [cmds.checkBox(label=l, v=True)]: the name of the new control,
      which may depend on the calls made before *)
  ui_checkBox : list UiEvent -> string -> string;
  (** [cmds.fileDialog2(...) or []]: the chosen paths *)
  ui_fileDialog2 : list string
}.

Section Panel.
Variable ui : Ui.
Variable list_of_set : gset string -> list string.
Variable sc : Scene.

(** The set [textures] of [refresh_texture_list]. *)
Definition panel_textures (geo : string) : gset string :=
  let materials := get_materials_from_geo sc list_of_set geo in
  fold_left (fun (textures : gset string) mat =>
               textures ∪ list_to_set (get_file_textures_from_material sc mat))
    materials ∅.

(** [refresh_texture_list]: the globals after the call and the calls
    made on the panel. *)
Definition refresh_texture_list (g : Globals) : Globals * list UiEvent :=
  let g := {| EXPORT_PATH := EXPORT_PATH g; TEXTURE_CHECKBOXES := ∅ |} in
  let ev :=
    (if ui_columnLayout_exists ui "textureColumn" then [DeleteUI "textureColumn"] else [])
    ++ [SetParent "textureScroll"; ColumnLayout "textureColumn"] in
  match sc_selection sc with
  | [] => (g, ev ++ [Text "No geometry selected."])
  | geo :: _ =>
      let textures := panel_textures geo in
      if decide (textures = ∅) then (g, ev ++ [Text "No file textures found."])
      else
        fold_left (fun (st : Globals * list UiEvent) tex =>
                     let cb := ui_checkBox ui st.2 tex in
                     ({| EXPORT_PATH := EXPORT_PATH st.1;
                         TEXTURE_CHECKBOXES := <[tex := cb]> (TEXTURE_CHECKBOXES st.1) |},
                      st.2 ++ [CheckBox tex cb]))
          (sorted textures) (g, ev)
  end.

(** [browse_path] *)
Definition browse_path (g : Globals) : Globals * list UiEvent :=
  match ui_fileDialog2 ui with
  | [] => (g, [])
  | p0 :: _ =>
      ({| EXPORT_PATH := p0; TEXTURE_CHECKBOXES := TEXTURE_CHECKBOXES g |},
       [TextField "pathField" p0])
  end.
End Panel.

(** The checkboxes a list of panel calls creates. *)
Definition checkboxes (ev : list UiEvent) : list (string * string) :=
  omap (fun e => match e with CheckBox l n => Some (l, n) | _ => None end) ev.

(** A computation leaves the host at the time of its last
    [currentTime] call, or where it was when it makes none. *)
Definition time_tracks {A} (m : M A) : Prop :=
  forall t, out_time (m t) = default t (last (time_calls (out_trace (m t)))).

(** ** Concrete hosts, for running the model *)

Module Demo.
(** [posixpath]: [dirname], [basename], [splitext] and [join] of two
    components. *)
Fixpoint split_last (sep : ascii) (s : string) : option (string * string) :=
  match s with
  | EmptyString => None
  | String c s' =>
      match split_last sep s' with
      | Some (a, b) => Some (String c a, b)
      | None => if Ascii.eqb c sep then Some (EmptyString, s') else None
      end
  end.

Fixpoint all_char (ch : ascii) (s : string) : bool :=
  match s with
  | EmptyString => true
  | String c s' => Ascii.eqb c ch && all_char ch s'
  end.

(** [s.rstrip(ch)] *)
Fixpoint rstrip (ch : ascii) (s : string) : string :=
  match s with
  | EmptyString => EmptyString
  | String c s' =>
      match rstrip ch s' with
      | EmptyString => if Ascii.eqb c ch then EmptyString else String c EmptyString
      | r => String c r
      end
  end.

Fixpoint ends_with (ch : ascii) (s : string) : bool :=
  match s with
  | EmptyString => false
  | String c EmptyString => Ascii.eqb c ch
  | String _ s' => ends_with ch s'
  end.

Definition posix_dirname (p : string) : string :=
  match split_last "/" p with
  | Some (a, _) => if all_char "/" a then a +:+ "/" else rstrip "/" a
  | None => ""
  end.

Definition posix_basename (p : string) : string :=
  match split_last "/" p with
  | Some (_, b) => b
  | None => p
  end.

Definition posix_splitext (p : string) : string * string :=
  match split_last "." p with
  | Some (a, b) =>
      if contains "/" b then (p, "")
      else if all_char "." (posix_basename a) then (p, "")
      else (a, "." +:+ b)
  | None => (p, "")
  end.

Definition posix_join (a b : string) : string :=
  if String.prefix "/" b then b
  else if String.eqb a "" || ends_with "/" a then a +:+ b
  else a +:+ "/" +:+ b.

Definition posix : OsPath :=
  {| dirname := posix_dirname; basename := posix_basename;
     splitext := posix_splitext; join := posix_join |}.

Definition table {A} (tbl : list (string * A)) (dflt : A) (k : string) : A :=
  match List.find (fun kv => String.eqb kv.1 k) tbl with
  | Some kv => kv.2
  | None => dflt
  end.

(** Two iteration orders a set of strings can have. *)
Definition order_a (s : gset string) : list string := merge_sort str_le (elements s).
Definition order_b (s : gset string) : list string := rev (merge_sort str_le (elements s)).

(** An eye with one material and one animated texture; the offset
    changes at frame 3 only, the image number at every frame. *)
Definition eye_attr (t : Z) (plug : string) : attr :=
  table
    [("iris_file.useFrameExtension", ABool true);
     ("iris_file.frameExtension", AInt t);
     ("place_iris.offsetU", AFloat (if Z.ltb t 3 then 0%Q else (1 # 2)%Q));
     ("place_iris.offsetV", AFloat 0);
     ("place_iris.repeatU", AFloat 1);
     ("place_iris.repeatV", AInt 1);
     ("place_iris.rotateUV", AFloat 0);
     ("Translation_Corr_mouth.outputX", AFloat (7 # 1));
     ("Translation_Corr_mouth.outputY", AFloat (8 # 1));
     ("Translation_Corr_Iris.outputX", AFloat (inject_Z t));
     ("Translation_Corr_Iris.outputY", AFloat (3 # 1));
     ("ScaleU_corr_eye.outputX", AFloat (2 # 1));
     ("ScaleU_corr_iris.outputX", AFloat (4 # 1));
     ("ScaleV_corr_mouth.outputX", AFloat (9 # 1))]
    (AInt 0) plug.

Definition eye (corr : bool) (checks : list (string * bool)) (pmin pmax : Q)
  : Scene :=
  {| sc_selection := ["eyeGeo"];
     sc_shapes := table [("eyeGeo", ["eyeGeoShape"])] [];
     sc_shading_engines := table [("eyeGeoShape.instObjGroups[0]", ["eyeSG"])] [];
     sc_sources := table [("eyeSG.surfaceShader", ["eyeMat"]);
                          ("iris_file.uvCoord", ["place_iris"])] [];
     sc_history := table [("eyeMat", ["eyeMat"; "iris_file"; "place_iris"])] [];
     sc_node_type := table [("eyeMat", "lambert"); ("iris_file", "file");
                            ("place_iris", "place2dTexture")] "";
     sc_obj_exists := table [("iris_file.useFrameExtension", true)] false;
     sc_ls := fun pat ty =>
       if corr && String.eqb ty "multiplyDivide" then
         table [("Translation_Corr_*", ["Translation_Corr_mouth"; "Translation_Corr_Iris"]);
                ("ScaleU_corr_*", ["ScaleU_corr_eye"; "ScaleU_corr_iris"]);
                ("ScaleV_corr_*", ["ScaleV_corr_mouth"])] [] pat
       else [];
     sc_attr := eye_attr;
     sc_playback_min := pmin;
     sc_playback_max := pmax;
     sc_checkBox := table checks false;
     sc_radioButtonGrp := fun _ => 2 |}.

Definition all_checked : list (string * bool) :=
  [("cb_img", true); ("cb_ou", true); ("cb_ov", true); ("cb_su", true);
   ("cb_sv", true); ("cb_r", true); ("cb_geo", true); ("cb_mat", true);
   ("cb_file", true); ("checkBox1", true)].

Definition offsets_checked : list (string * bool) :=
  [("cb_ou", true); ("cb_ov", true); ("cb_mat", true); ("checkBox1", true)].

Definition eye_globals : Globals :=
  {| EXPORT_PATH := "/tmp/out.csv";
     TEXTURE_CHECKBOXES := {["iris_file" := "checkBox1"]} |}.

(** Two materials on one mesh that share one file texture. *)
Definition shared : Scene :=
  {| sc_selection := ["face"];
     sc_shapes := table [("face", ["faceShape"])] [];
     sc_shading_engines :=
       table [("faceShape.instObjGroups[0]", ["skinSG"; "lipSG"])] [];
     sc_sources := table [("skinSG.surfaceShader", ["skin"]);
                          ("lipSG.surfaceShader", ["lip"]);
                          ("tex.uvCoord", ["place"])] [];
     sc_history := table [("skin", ["skin"; "tex"; "place"]);
                          ("lip", ["lip"; "tex"; "place"])] [];
     sc_node_type := table [("tex", "file")] "";
     sc_obj_exists := fun _ => false;
     sc_ls := fun _ _ => [];
     sc_attr := fun _ _ => AFloat 0;
     sc_playback_min := 1;
     sc_playback_max := 1;
     sc_checkBox := table [("cb_ou", true); ("cb_mat", true); ("checkBox1", true)] false;
     sc_radioButtonGrp := fun _ => 1 |}.

Definition shared_globals : Globals :=
  {| EXPORT_PATH := "/tmp/out.csv";
     TEXTURE_CHECKBOXES := {["tex" := "checkBox1"]} |}.

(** The same host with other attribute values. *)
Definition with_attr (sc : Scene) (a : Z -> string -> attr) : Scene :=
  {| sc_selection := sc_selection sc;
     sc_shapes := sc_shapes sc;
     sc_shading_engines := sc_shading_engines sc;
     sc_sources := sc_sources sc;
     sc_history := sc_history sc;
     sc_node_type := sc_node_type sc;
     sc_obj_exists := sc_obj_exists sc;
     sc_ls := sc_ls sc;
     sc_attr := a;
     sc_playback_min := sc_playback_min sc;
     sc_playback_max := sc_playback_max sc;
     sc_checkBox := sc_checkBox sc;
     sc_radioButtonGrp := sc_radioButtonGrp sc |}.

(** The attributes of the eye up to frame 4, and other values after. *)
Definition eye_attr_late (t : Z) (plug : string) : attr :=
  if Z.leb t 4 then eye_attr t plug else AInt 99.

(** The same host with other listings of [cmds.ls]. *)
Definition with_ls (sc : Scene) (ls : string -> string -> list string) : Scene :=
  {| sc_selection := sc_selection sc;
     sc_shapes := sc_shapes sc;
     sc_shading_engines := sc_shading_engines sc;
     sc_sources := sc_sources sc;
     sc_history := sc_history sc;
     sc_node_type := sc_node_type sc;
     sc_obj_exists := sc_obj_exists sc;
     sc_ls := ls;
     sc_attr := sc_attr sc;
     sc_playback_min := sc_playback_min sc;
     sc_playback_max := sc_playback_max sc;
     sc_checkBox := sc_checkBox sc;
     sc_radioButtonGrp := sc_radioButtonGrp sc |}.

(** An eye whose nodes are spelled with capitals: two iris correction
    nodes and a pupil one for ScaleU, an eye one for ScaleV. *)
Definition caps_attr (t : Z) (plug : string) : attr :=
  table
    [("ScaleU_corr_Iris_L.outputX", AFloat (3 # 1));
     ("ScaleU_corr_Pupil.outputX", AFloat (5 # 1));
     ("ScaleU_corr_IRIS_R.outputX", AFloat (6 # 1));
     ("ScaleV_corr_Eye.outputX", AFloat (7 # 1));
     ("place2dTexture1.repeatU", AFloat 1);
     ("place2dTexture1.repeatV", AFloat (1 # 2))]
    (AInt 0) plug.

Definition caps : Scene :=
  with_ls (with_attr (eye true [] 1 1) caps_attr)
    (fun pat ty =>
       if String.eqb ty "multiplyDivide" then
         table
           [("ScaleU_corr_*", ["ScaleU_corr_Iris_L"; "ScaleU_corr_Pupil"; "ScaleU_corr_IRIS_R"]);
            ("ScaleV_corr_*", ["ScaleV_corr_Eye"])] [] pat
       else []).

(** A demo panel: no column yet, checkboxes named after their label. *)
Definition demo_ui : Ui :=
  {| ui_columnLayout_exists := fun _ => false;
     ui_checkBox := fun _ label => "cb_" +:+ label;
     ui_fileDialog2 := ["/tmp/out.csv"] |}.
End Demo.

(** * Proofs *)

(** ** The primitives, run *)

Example lower_demo : lower "Translation_Corr_Iris" = "translation_corr_iris".
Proof. reflexivity. Qed.

Example contains_demo :
  contains "iris" "translation_corr_iris" = true
  /\ contains "eye" "translation_corr_iris" = false
  /\ contains "" "abc" = true.
Proof. repeat split. Qed.

Example keyword_from_names_demo :
  _keyword_from_names "Eye_Iris_file" "place2dTexture3" = ["iris"; "eye"]
  /\ _keyword_from_names "eyeFile" "eyePlace" = ["eye"; "eye"]
  /\ _keyword_from_names "lid_file" "" = [].
Proof. repeat split. Qed.

Example py_int_demo : py_int (7 # 2) = 3 /\ py_int (-7 # 2) = -3 /\ py_int 24 = 24.
Proof. repeat split. Qed.

Example py_range_demo : py_range 2 (4 + 1) = [2; 3; 4] /\ py_range 5 (1 + 1) = [].
Proof. split; reflexivity. Qed.

Example py_eqb_demo :
  py_eqb (PNum (AInt 1)) (PNum (AFloat 1)) = true
  /\ py_eqb (PNum (ABool true)) (PNum (AInt 1)) = true
  /\ py_eqb PNone (PNum (AInt 0)) = false
  /\ state_ne [] None = true
  /\ state_ne [] (Some []) = false.
Proof. repeat split. Qed.

Example posix_demo :
  dirname Demo.posix "/tmp/out.csv" = "/tmp"
  /\ splitext Demo.posix (basename Demo.posix "/tmp/out.csv") = ("out", ".csv")
  /\ join Demo.posix "/tmp" "out_iris_file.csv" = "/tmp/out_iris_file.csv".
Proof. repeat split. Qed.

(** ** The monad *)

Lemma bind_ret_l {A B} (a : A) (k : A -> M B) t : bind (ret a) k t = k a t.
Proof. unfold bind, ret; simpl. by destruct (k a t). Qed.

Lemma bind_out {A B} (m : M A) (k : A -> M B) t t' tr a :
  m t = mkOut t' tr (Ok a) ->
  bind m k t = mkOut (out_time (k a t')) (tr ++ out_trace (k a t')) (out_res (k a t')).
Proof. intros H. unfold bind. by rewrite H. Qed.

Lemma bind_raise {A B} (m : M A) (k : A -> M B) t t' tr e :
  m t = mkOut t' tr (Raise e) -> bind m k t = mkOut t' tr (Raise e).
Proof. intros H. unfold bind. by rewrite H. Qed.

Lemma bind_assoc {A B C} (m : M A) (k : A -> M B) (k' : B -> M C) t :
  bind (bind m k) k' t = bind m (fun a => bind (k a) k') t.
Proof.
  unfold bind. destruct (m t) as [t1 tr1 [a|e]]; simpl; [|done].
  destruct (k a t1) as [t2 tr2 [b|e]]; simpl; [|done].
  by rewrite app_assoc.
Qed.

Lemma reads_ret {A} (a : A) : reads (ret a) (fun _ => a).
Proof. done. Qed.

Lemma reads_bind {A B} (m : M A) (k : A -> M B) f h :
  reads m f -> (forall a, reads (k a) (h a)) -> reads (bind m k) (fun t => h (f t) t).
Proof.
  intros Hm Hk t. rewrite (bind_out _ _ _ _ _ _ (Hm t)). by rewrite (Hk (f t) t).
Qed.

Lemma bind_reads {A B} (m : M A) (k : A -> M B) f :
  reads m f -> forall t, bind m k t = k (f t) t.
Proof.
  intros Hm t. rewrite (bind_out _ _ _ _ _ _ (Hm t)). by destruct (k (f t) t).
Qed.

Lemma reads_ext {A} (m : M A) f h :
  reads m f -> (forall t, f t = h t) -> reads m h.
Proof. intros Hm E t. by rewrite Hm, E. Qed.

Lemma reads_foldM {A St} (body : St -> A -> M St) (h : Z -> St -> A -> St) l :
  (forall s x, reads (body s x) (fun t => h t s x)) ->
  forall s, reads (foldM body l s) (fun t => fold_left (h t) l s).
Proof.
  intros Hb. induction l as [|x l IH]; intros s; [done|].
  simpl. eapply reads_ext.
  - apply reads_bind; [apply Hb | apply IH].
  - done.
Qed.

Section SamplingFacts.
Variable sc : Scene.

Lemma reads_getAttr plug : reads (getAttr sc plug) (fun t => sc_attr sc t plug).
Proof. done. Qed.

Lemma reads_read_attr plug :
  reads (read_attr sc plug) (fun t => PNum (sc_attr sc t plug)).
Proof. done. Qed.

Lemma reads_get_active_image file_node :
  reads (get_active_image sc file_node) (fun t => active_image_at sc t file_node).
Proof.
  intros t. unfold get_active_image, active_image_at.
  destruct (sc_obj_exists sc _); [|done]. simpl.
  rewrite (bind_out _ _ _ _ _ _ (reads_getAttr _ t)).
  by destruct (truthy _).
Qed.

Lemma reads_get_offset_uv file_node place_node :
  reads (get_offset_uv sc file_node place_node)
        (fun t => offset_uv_at sc t file_node place_node).
Proof.
  intros t. unfold get_offset_uv, offset_uv_at.
  destruct (first_match _ _); [done|].
  by destruct (sc_ls sc _ _).
Qed.

(** Scanning the nodes for one keyword keeps the value of the last
    matching node. *)
Lemma reads_scan_nodes k nodes cur :
  reads (scan_nodes sc k nodes cur) (fun t =>
    match last (filter (fun n => Is_true (contains k (lower n))) nodes) with
    | Some n => Some (sc_attr sc t (n +:+ ".outputX"))
    | None => cur
    end).
Proof.
  unfold scan_nodes. revert cur.
  induction nodes as [|n nodes IH]; intros cur; [done|].
  intros t. simpl foldM. rewrite filter_cons.
  destruct (contains k (lower n)) eqn:E.
  - rewrite (bind_out _ _ t t [] (Some (sc_attr sc t (n +:+ ".outputX")))); [|done].
    rewrite IH. simpl. rewrite last_cons. by destruct (last _).
  - by rewrite bind_ret_l, IH.
Qed.

Lemma last_keyword_hits_cons k keys nodes :
  last (keyword_hits (k :: keys) nodes) =
  match last (keyword_hits keys nodes) with
  | Some n => Some n
  | None => last (filter (fun n => Is_true (contains k (lower n))) nodes)
  end.
Proof. unfold keyword_hits. simpl. by rewrite last_app. Qed.

Lemma reads_scale_loop nodes_u nodes_v keys uv :
  reads (foldM (fun (uv : option attr * option attr) k =>
                  do su <- scan_nodes sc k nodes_u uv.1 in
                  do sv <- scan_nodes sc k nodes_v uv.2 in ret (su, sv)) keys uv)
        (fun t =>
           (match last (keyword_hits keys nodes_u) with
            | Some n => Some (sc_attr sc t (n +:+ ".outputX"))
            | None => uv.1
            end,
            match last (keyword_hits keys nodes_v) with
            | Some n => Some (sc_attr sc t (n +:+ ".outputX"))
            | None => uv.2
            end)).
Proof.
  revert uv. induction keys as [|k keys IH]; intros [su sv] t; [done|].
  simpl foldM.
  rewrite (bind_out _ _ t t [] _
    (reads_bind _ _ _ _ (reads_scan_nodes k nodes_u su)
       (fun su' => reads_bind _ _ _ _ (reads_scan_nodes k nodes_v sv)
          (fun sv' => reads_ret (su', sv'))) t)).
  rewrite IH. cbn [fst snd]. rewrite !last_keyword_hits_cons.
  by destruct (last (keyword_hits keys nodes_u)), (last (keyword_hits keys nodes_v)).
Qed.

Lemma reads_get_scale_uv file_node place_node :
  reads (get_scale_uv sc file_node place_node)
        (fun t => scale_uv_at sc t file_node place_node).
Proof.
  intros t. unfold get_scale_uv, scale_uv_at, scale_at.
  rewrite (bind_out _ _ _ _ _ _ (reads_scale_loop _ _ _ (None, None) t)).
  simpl.
  by destruct (last (keyword_hits _ (sc_ls sc "ScaleU_corr_*" _))),
             (last (keyword_hits _ (sc_ls sc "ScaleV_corr_*" _))).
Qed.
End SamplingFacts.

(** ** The keyword search of [get_offset_uv] *)

Lemma find_None_iff {A} (p : A -> bool) (l : list A) :
  List.find p l = None <-> forall x, x ∈ l -> p x = false.
Proof.
  induction l as [|a l IH]; simpl.
  - split; [intros _ x Hx; by apply elem_of_nil in Hx | done].
  - destruct (p a) eqn:E.
    + split; [done|]. intros H. specialize (H a (list_elem_of_here _ _)). congruence.
    + rewrite IH. split.
      * intros H x Hx. apply elem_of_cons in Hx as [->|Hx]; auto.
      * intros H x Hx. apply H. by apply list_elem_of_further.
Qed.

Lemma find_first {A} (p : A -> bool) (l1 l2 : list A) (x : A) :
  (forall y, y ∈ l1 -> p y = false) -> p x = true ->
  List.find p (l1 ++ x :: l2) = Some x.
Proof.
  induction l1 as [|a l1 IH]; intros Hno Hx; simpl.
  - by rewrite Hx.
  - rewrite (Hno a (list_elem_of_here _ _)). apply IH; [|done].
    intros y Hy. apply Hno. by apply list_elem_of_further.
Qed.

Lemma first_match_None keys nodes :
  first_match keys nodes = None <->
  forall k n, k ∈ keys -> n ∈ nodes -> contains k (lower n) = false.
Proof.
  induction keys as [|k keys IH]; simpl.
  - split; [intros _ k n Hk; by apply elem_of_nil in Hk | done].
  - destruct (List.find _ nodes) eqn:E.
    + split; [done|]. intros H. exfalso.
      assert (List.find (fun n => contains k (lower n)) nodes = None) as E'.
      { apply find_None_iff. intros n Hn. apply H; [apply list_elem_of_here | done]. }
      congruence.
    + rewrite IH. pose proof (proj1 (find_None_iff _ _) E) as E'. split.
      * intros H k' n Hk Hn. apply elem_of_cons in Hk as [->|Hk]; auto.
      * intros H k' n Hk Hn. apply H; [by apply list_elem_of_further | done].
Qed.

Lemma first_match_first ks1 k ks2 ns1 n ns2 :
  (forall k' n', k' ∈ ks1 -> n' ∈ ns1 ++ n :: ns2 -> contains k' (lower n') = false) ->
  contains k (lower n) = true ->
  (forall n', n' ∈ ns1 -> contains k (lower n') = false) ->
  first_match (ks1 ++ k :: ks2) (ns1 ++ n :: ns2) = Some n.
Proof.
  intros Hks Hn Hns. induction ks1 as [|k0 ks1 IH]; simpl.
  - by rewrite (find_first (fun n => contains k (lower n)) ns1 ns2 n Hns Hn).
  - assert (List.find (fun n0 => contains k0 (lower n0)) (ns1 ++ n :: ns2) = None) as ->.
    { apply find_None_iff. intros n' Hn'. apply Hks; [apply list_elem_of_here | done]. }
    apply IH. intros k' n' Hk Hn'. apply Hks; [by apply list_elem_of_further | done].
Qed.

(** ** Claims on the sampling functions *)

(** C2, as the code has it.  [get_offset_uv] answers the pair
    (outputX, outputY) of the first correction node, in listing order,
    whose lowercase name contains the first keyword, in derivation
    order, that any correction node matches.  When no keyword matches
    any correction node, the first listed correction node is used if
    there is one, and only when the listing is empty are [offsetU] and
    [offsetV] of the place2dTexture node answered. *)
Theorem get_offset_uv_spec (sc : Scene) (file_node place_node : string) (t : Z) :
  let keys := _keyword_from_names file_node place_node in
  let nodes := sc_ls sc "Translation_Corr_*" "multiplyDivide" in
  let outputs n :=
    mkOut t [] (Ok (sc_attr sc t (n +:+ ".outputX"), sc_attr sc t (n +:+ ".outputY"))) in
  (forall ks1 k ks2 ns1 n ns2,
      keys = ks1 ++ k :: ks2 -> nodes = ns1 ++ n :: ns2 ->
      (forall k' n', k' ∈ ks1 -> n' ∈ nodes -> contains k' (lower n') = false) ->
      contains k (lower n) = true ->
      (forall n', n' ∈ ns1 -> contains k (lower n') = false) ->
      get_offset_uv sc file_node place_node t = outputs n)
  /\ ((forall k n, k ∈ keys -> n ∈ nodes -> contains k (lower n) = false) ->
      match nodes with
      | n0 :: _ => get_offset_uv sc file_node place_node t = outputs n0
      | [] =>
          get_offset_uv sc file_node place_node t =
          mkOut t [] (Ok (sc_attr sc t (place_node +:+ ".offsetU"),
                          sc_attr sc t (place_node +:+ ".offsetV")))
      end).
Proof.
  intros keys nodes outputs. split.
  - intros ks1 k ks2 ns1 n ns2 Hk Hn Hno Hm Hns.
    rewrite (reads_get_offset_uv sc). unfold offset_uv_at.
    fold keys nodes. rewrite Hk, Hn. rewrite Hn in Hno.
    by rewrite (first_match_first ks1 k ks2 ns1 n ns2 Hno Hm Hns).
  - intros Hno. apply first_match_None in Hno.
    rewrite (reads_get_offset_uv sc). unfold offset_uv_at. fold keys nodes.
    rewrite Hno. by destruct nodes.
Qed.

(** C2, witness: the iris texture of the demo scene takes the outputs of
    the iris correction node, listed second; a lid texture, which
    derives no keyword, takes the first listed node. *)
Lemma get_offset_uv_spec_witness :
  let sc := Demo.eye true [] 1 1 in
  get_offset_uv sc "iris_file" "place_iris" 2 =
    mkOut 2 [] (Ok (AFloat (inject_Z 2), AFloat (3 # 1)))
  /\ get_offset_uv sc "lid_file" "place_lid" 2 =
    mkOut 2 [] (Ok (AFloat (7 # 1), AFloat (8 # 1))).
Proof.
  intros sc. split.
  - refine (proj1 (get_offset_uv_spec sc "iris_file" "place_iris" 2)
              [] "iris" ["iris"] ["Translation_Corr_mouth"] "Translation_Corr_Iris" []
              eq_refl eq_refl _ eq_refl _).
    + intros k' n' Hk. by apply elem_of_nil in Hk.
    + intros n' Hn. apply list_elem_of_singleton in Hn. by subst.
  - refine (proj2 (get_offset_uv_spec sc "lid_file" "place_lid" 2) _).
    intros k n Hk. by apply elem_of_nil in Hk.
Defined.

(** C2, counterexample to the claim as worded: the texture derives the
    keyword "pupil", no correction node matches it, and yet the answer is
    not the place2dTexture's offset pair but the outputs of the first
    listed correction node. *)
Lemma get_offset_uv_counterexample :
  let sc := Demo.eye true [] 1 1 in
  let keys := _keyword_from_names "pupil_file" "place_pupil" in
  let nodes := sc_ls sc "Translation_Corr_*" "multiplyDivide" in
  (forall k n, k ∈ keys -> n ∈ nodes -> contains k (lower n) = false)
  /\ out_res (get_offset_uv sc "pupil_file" "place_pupil" 1)
     = Ok (AFloat (7 # 1), AFloat (8 # 1))
  /\ out_res (get_offset_uv sc "pupil_file" "place_pupil" 1)
     <> Ok (sc_attr sc 1 "place_pupil.offsetU", sc_attr sc 1 "place_pupil.offsetV").
Proof.
  intros sc keys nodes. split; [|split].
  - apply first_match_None. reflexivity.
  - reflexivity.
  - vm_compute. discriminate.
Qed.

(** ** The nested search of [get_scale_uv] *)

Lemma last_filter_Some (p : string -> bool) (nodes : list string) (n : string) :
  last (filter (fun n => Is_true (p n)) nodes) = Some n
  <-> exists ns1 ns2, nodes = ns1 ++ n :: ns2 /\ p n = true
                      /\ forall n', n' ∈ ns2 -> p n' = false.
Proof.
  split.
  - induction nodes as [|n0 nodes IH] using rev_ind; [done|].
    rewrite filter_app, last_app. intros H.
    destruct (p n0) eqn:E.
    + rewrite filter_cons_True in H by (by apply Is_true_true_2). simpl in H. injection H as <-.
      exists nodes, []. split; [done|]. split; [done|]. by intros ? ?%elem_of_nil.
    + rewrite filter_cons_False in H by (by apply Is_true_false_2). simpl in H.
      destruct (IH H) as (ns1 & ns2 & -> & Hn & Hns2).
      exists ns1, (ns2 ++ [n0]). split; [by rewrite <- app_assoc|]. split; [done|].
      intros n' [Hn'|Hn']%elem_of_app; [by apply Hns2|].
      by apply list_elem_of_singleton in Hn' as ->.
  - intros (ns1 & ns2 & -> & Hn & Hns2).
    rewrite filter_app, filter_cons_True by (by apply Is_true_true_2).
    assert (filter (fun n => Is_true (p n)) ns2 = []) as ->.
    { induction ns2 as [|n0 ns2 IH]; [done|].
      rewrite filter_cons_False by (apply Is_true_false_2, Hns2, list_elem_of_here).
      apply IH. intros n' Hn'. apply Hns2. by apply list_elem_of_further. }
    by rewrite last_snoc.
Qed.

Lemma keyword_hits_app ks1 ks2 nodes :
  keyword_hits (ks1 ++ ks2) nodes = keyword_hits ks1 nodes ++ keyword_hits ks2 nodes.
Proof. unfold keyword_hits. apply flat_map_app. Qed.

Lemma keyword_hits_empty keys nodes :
  keyword_hits keys nodes = []
  <-> forall k n, k ∈ keys -> n ∈ nodes -> contains k (lower n) = false.
Proof.
  split.
  - intros H k n Hk Hn. destruct (contains k (lower n)) eqn:E; [|done].
    assert (n ∈ keyword_hits keys nodes) as Hin.
    { apply list_elem_of_In, in_flat_map. exists k. split; [by apply list_elem_of_In|].
      apply list_elem_of_In, list_elem_of_filter. by rewrite E. }
    rewrite H in Hin. by apply elem_of_nil in Hin.
  - intros H. destruct (keyword_hits keys nodes) as [|n l] eqn:E; [done|]. exfalso.
    assert (n ∈ keyword_hits keys nodes) as Hin.
    { rewrite E. apply list_elem_of_here. }
    apply list_elem_of_In, in_flat_map in Hin as (k & Hk & Hn).
    apply list_elem_of_In, list_elem_of_filter in Hn as [Hc Hn].
    rewrite (H k n) in Hc; [done | by apply list_elem_of_In | done].
Qed.

Lemma last_keyword_hits_Some keys nodes n :
  last (keyword_hits keys nodes) = Some n
  <-> exists ks1 k ks2 ns1 ns2,
        keys = ks1 ++ k :: ks2 /\ nodes = ns1 ++ n :: ns2
        /\ contains k (lower n) = true
        /\ (forall n', n' ∈ ns2 -> contains k (lower n') = false)
        /\ (forall k' n', k' ∈ ks2 -> n' ∈ nodes -> contains k' (lower n') = false).
Proof.
  split.
  - induction keys as [|k keys IH] using rev_ind; [done|].
    rewrite keyword_hits_app, last_app.
    change (keyword_hits [k] nodes)
      with (filter (fun n => Is_true (contains k (lower n))) nodes ++ []).
    rewrite app_nil_r.
    destruct (last (filter (fun n => Is_true (contains k (lower n))) nodes)) as [n'|] eqn:E.
    + intros [= ->].
      apply (last_filter_Some (fun n => contains k (lower n))) in E
        as (ns1 & ns2 & Hnodes & Hn & Hns2).
      exists keys, k, [], ns1, ns2. repeat split; try done.
      by intros ? ? ?%elem_of_nil.
    + intros H. destruct (IH H) as (ks1 & k0 & ks2 & ns1 & ns2 & -> & Hnodes & Hn & Hns2 & Hks2).
      exists ks1, k0, (ks2 ++ [k]), ns1, ns2.
      split; [by rewrite <- app_assoc|]. repeat split; try done.
      intros k' n' [Hk'|Hk']%elem_of_app Hn'; [by apply Hks2|].
      apply list_elem_of_singleton in Hk' as ->.
      apply last_None in E.
      destruct (contains k (lower n')) eqn:E'; [|done].
      assert (n' ∈ filter (fun n => Is_true (contains k (lower n))) nodes) as Hin.
      { apply list_elem_of_filter. by rewrite E'. }
      rewrite E in Hin. by apply elem_of_nil in Hin.
  - intros (ks1 & k & ks2 & ns1 & ns2 & -> & Hnodes & Hn & Hns2 & Hks2).
    rewrite keyword_hits_app.
    change (keyword_hits (k :: ks2) nodes)
      with (filter (fun n => Is_true (contains k (lower n))) nodes ++ keyword_hits ks2 nodes).
    rewrite (proj2 (keyword_hits_empty ks2 nodes) Hks2), app_nil_r, last_app.
    assert (last (filter (fun n => Is_true (contains k (lower n))) nodes) = Some n) as ->; [|done].
    apply (last_filter_Some (fun n => contains k (lower n))). by exists ns1, ns2.
Qed.

(** C3. [get_scale_uv] resolves the two components independently.  The
    derived keywords are tried in the order they are derived and, for
    each keyword, the nodes in the order of the listing; every match
    replaces the value found before.  So a component is [outputX] of
    the last node of the listing that contains the last derived keyword
    which any node of the listing contains, and [repeatU], respectively
    [repeatV], of the place2dTexture node when no derived keyword occurs
    in a node of that listing, whether or not the listing is empty.
    When all derived keywords are one and the same, the node is the last
    node of the listing that contains it. *)
Theorem get_scale_uv_spec (sc : Scene) (file_node place_node : string) (t : Z) :
  let keys := _keyword_from_names file_node place_node in
  let pick nodes fallback :=
    match last (keyword_hits keys nodes) with
    | Some n => sc_attr sc t (n +:+ ".outputX")
    | None => sc_attr sc t (place_node +:+ fallback)
    end in
  get_scale_uv sc file_node place_node t =
    mkOut t [] (Ok (pick (sc_ls sc "ScaleU_corr_*" "multiplyDivide") ".repeatU",
                    pick (sc_ls sc "ScaleV_corr_*" "multiplyDivide") ".repeatV"))
  /\ (forall nodes,
        last (keyword_hits keys nodes) = None <->
        forall k n, k ∈ keys -> n ∈ nodes -> contains k (lower n) = false)
  /\ (forall nodes n,
        last (keyword_hits keys nodes) = Some n <->
        exists ks1 k ks2 ns1 ns2,
          keys = ks1 ++ k :: ks2 /\ nodes = ns1 ++ n :: ns2
          /\ contains k (lower n) = true
          /\ (forall n', n' ∈ ns2 -> contains k (lower n') = false)
          /\ (forall k' n', k' ∈ ks2 -> n' ∈ nodes -> contains k' (lower n') = false))
  /\ (forall nodes k,
        keys <> [] -> (forall k', k' ∈ keys -> k' = k) ->
        last (keyword_hits keys nodes)
        = last (filter (fun n => Is_true (contains k (lower n))) nodes)).
Proof.
  intros keys pick. split; [|split; [|split]].
  - apply (reads_get_scale_uv sc).
  - intros nodes. rewrite last_None. apply keyword_hits_empty.
  - intros nodes n. apply last_keyword_hits_Some.
  - intros nodes k Hne Hall. clearbody keys. clear pick.
    induction keys as [|k0 keys' IH]; [done|].
    rewrite last_keyword_hits_cons.
    rewrite (Hall k0 (list_elem_of_here _ _)).
    destruct keys' as [|k1 keys'']; [done|].
    rewrite IH; [by case_match | done |].
    intros k' Hk'. apply Hall. by apply list_elem_of_further.
Qed.

(** C3, witness: a scene whose names are spelled with capitals.  The
    file node "Iris_File" derives the keyword "iris"; of the three
    ScaleU nodes the last that contains it in lowercase is
    "ScaleU_corr_IRIS_R", and the only ScaleV node does not contain it,
    so ScaleV is [repeatV]. *)
Lemma get_scale_uv_spec_witness :
  get_scale_uv Demo.caps "Iris_File" "place2dTexture1" 1
  = mkOut 1 [] (Ok (AFloat (6 # 1), AFloat (1 # 2))).
Proof.
  destruct (get_scale_uv_spec Demo.caps "Iris_File" "place2dTexture1" 1)
    as (Hrun & Hnone & Hsome & _).
  rewrite Hrun.
  rewrite (proj2 (Hsome (sc_ls Demo.caps "ScaleU_corr_*" "multiplyDivide")
                    "ScaleU_corr_IRIS_R")).
  - rewrite (proj2 (Hnone (sc_ls Demo.caps "ScaleV_corr_*" "multiplyDivide"))).
    + reflexivity.
    + intros k n Hk Hn.
      change (k ∈ ["iris"]) in Hk. change (n ∈ ["ScaleV_corr_Eye"]) in Hn.
      apply list_elem_of_singleton in Hk as ->. apply list_elem_of_singleton in Hn as ->.
      reflexivity.
  - exists [], "iris", [], ["ScaleU_corr_Iris_L"; "ScaleU_corr_Pupil"], [].
    repeat split.
    + intros n' Hn'. by apply elem_of_nil in Hn'.
    + intros k' n' Hk'. by apply elem_of_nil in Hk'.
Defined.

(** C3, counterexample to the claim as worded: a file node whose name
    holds two keywords.  The last node of the listing whose lowercase
    name contains a derived keyword is the iris node, with [outputX]
    4; the function answers 2, the [outputX] of the eye node, since
    "eye" is derived after "iris". *)
Lemma get_scale_uv_counterexample :
  let sc := Demo.eye true [] 1 1 in
  let keys := _keyword_from_names "eye_iris_file" "place2dTexture1" in
  let nodes := sc_ls sc "ScaleU_corr_*" "multiplyDivide" in
  keys = ["iris"; "eye"]
  /\ nodes = ["ScaleU_corr_eye"; "ScaleU_corr_iris"]
  /\ last (filter (fun n => Is_true (existsb (fun k => contains k (lower n)) keys)) nodes)
     = Some "ScaleU_corr_iris"
  /\ sc_attr sc 1 "ScaleU_corr_iris.outputX" = AFloat (4 # 1)
  /\ out_res (get_scale_uv sc "eye_iris_file" "place2dTexture1" 1)
     = Ok (AFloat (2 # 1), AInt 0)
  /\ out_res (get_scale_uv sc "eye_iris_file" "place2dTexture1" 1)
     <> Ok (sc_attr sc 1 "ScaleU_corr_iris.outputX",
            sc_attr sc 1 "place2dTexture1.repeatV").
Proof.
  intros sc keys nodes. repeat split.
  vm_compute. discriminate.
Qed.

(** C3, the order of the loops: a texture that derives "iris" from its
    file node and "eye" from its place2d node takes ScaleU from the eye
    correction node, the match of the later keyword, although the iris
    node comes later in the listing. *)
Example get_scale_uv_order_demo :
  let sc := Demo.eye true [] 1 1 in
  _keyword_from_names "iris_file" "place_eye" = ["iris"; "eye"]
  /\ sc_ls sc "ScaleU_corr_*" "multiplyDivide" = ["ScaleU_corr_eye"; "ScaleU_corr_iris"]
  /\ get_scale_uv sc "iris_file" "place_eye" 1 = mkOut 1 [] (Ok (AFloat (2 # 1), AInt 0)).
Proof. repeat split. Qed.

(** C3, run on the demo scene: the iris texture takes ScaleU from the
    iris correction node, and ScaleV, which only has a mouth correction
    node, from [repeatV]. *)
Example get_scale_uv_demo :
  get_scale_uv (Demo.eye true [] 1 1) "iris_file" "place_iris" 1 =
  mkOut 1 [] (Ok (AFloat (4 # 1), AInt 1)).
Proof. reflexivity. Qed.

(** ** Ranges of frames *)

Lemma py_range_nil a b : b <= a -> py_range a b = [].
Proof. intros H. unfold py_range. by replace (Z.to_nat (b - a)) with 0%nat by lia. Qed.

Lemma py_range_snoc a b : a <= b -> py_range a (b + 1) = py_range a b ++ [b].
Proof.
  intros H. unfold py_range.
  replace (Z.to_nat (b + 1 - a)) with (Z.to_nat (b - a) + 1)%nat by lia.
  rewrite seq_app, map_app. simpl. do 2 f_equal. lia.
Qed.

Lemma py_range_cons a b : a < b -> py_range a b = a :: py_range (a + 1) b.
Proof.
  intros H. unfold py_range.
  replace (Z.to_nat (b - a)) with (S (Z.to_nat (b - (a + 1)))) by lia.
  simpl. f_equal; [lia|]. rewrite <- seq_shift, map_map.
  apply map_ext. intros i. lia.
Qed.

Lemma elem_of_py_range a b f : f ∈ py_range a b <-> a <= f < b.
Proof.
  unfold py_range. rewrite list_elem_of_In, in_map_iff. split.
  - intros (i & <- & Hi). apply in_seq in Hi. lia.
  - intros H. exists (Z.to_nat (f - a)). split; [lia|]. apply in_seq. lia.
Qed.

Lemma py_range_lookup a b (i : nat) f :
  py_range a b !! i = Some f -> f = a + Z.of_nat i.
Proof.
  unfold py_range. intros H. apply list_lookup_fmap_Some in H as (j & -> & Hj).
  apply lookup_seq in Hj as [-> _]. lia.
Qed.

(** The frames of a range come in increasing order. *)
Lemma py_range_increasing a b (i j : nat) f f' :
  py_range a b !! i = Some f -> py_range a b !! j = Some f' -> (i < j)%nat -> f < f'.
Proof.
  intros Hi Hj Hlt. apply py_range_lookup in Hi, Hj. lia.
Qed.

(** ** The frames a loop records *)

Section RecordedFacts.
Variable collect_all : bool.
Variable S : Z -> list pyval.

(** The loop keeps in [last_state] the state of the last recorded frame. *)
Lemma record_fold_last frames acc :
  acc.2 = snd <$> last acc.1 ->
  (fold_left (record_step collect_all S) frames acc).2
  = snd <$> last (fold_left (record_step collect_all S) frames acc).1.
Proof.
  revert acc. induction frames as [|f frames IH]; intros acc Hacc; [done|].
  simpl. apply IH. unfold record_step.
  destruct (collect_all || state_ne (S f) acc.2); [|done].
  simpl. by rewrite last_snoc.
Qed.

Lemma record_fold_app frames acc :
  (fold_left (record_step collect_all S) frames acc).1
  = acc.1 ++ (fold_left (record_step collect_all S) frames ([], acc.2)).1.
Proof.
  revert acc. induction frames as [|f frames IH]; intros acc.
  - simpl. by rewrite app_nil_r.
  - simpl. rewrite IH. rewrite (IH (record_step collect_all S ([], acc.2) f)).
    unfold record_step. simpl.
    destruct (collect_all || state_ne (S f) acc.2); simpl; [|done].
    by rewrite <- app_assoc.
Qed.

Lemma recorded_snoc frames f :
  recorded collect_all S (frames ++ [f])
  = recorded collect_all S frames
    ++ (if collect_all
           || state_ne (S f) (snd <$> last (recorded collect_all S frames))
        then [(f, S f)] else []).
Proof.
  unfold recorded. rewrite fold_left_app. simpl.
  unfold record_step at 1.
  rewrite (record_fold_last frames ([], None) eq_refl).
  destruct (collect_all || state_ne _ _); [done|]. by rewrite app_nil_r.
Qed.

Lemma recorded_cons f frames :
  exists rest, recorded collect_all S (f :: frames) = (f, S f) :: rest.
Proof.
  unfold recorded. simpl fold_left.
  assert (record_step collect_all S ([], None) f = ([(f, S f)], Some (S f))) as ->.
  { unfold record_step. simpl. by rewrite orb_true_r. }
  rewrite record_fold_app. simpl. eauto.
Qed.

(** Every recorded entry is a frame of the loop with its own state. *)
Lemma recorded_elem frames fs :
  fs ∈ recorded collect_all S frames -> fs.1 ∈ frames /\ fs.2 = S fs.1.
Proof.
  induction frames as [|f frames IH] using rev_ind.
  - intros H. by apply elem_of_nil in H.
  - rewrite recorded_snoc. intros H. apply elem_of_app in H as [H|H].
    + destruct (IH H) as [H1 H2]. split; [|done]. apply elem_of_app. by left.
    + destruct (collect_all || state_ne _ _); [|by apply elem_of_nil in H].
      apply list_elem_of_singleton in H as ->. simpl. split; [|done].
      apply elem_of_app. right. apply list_elem_of_here.
Qed.

Lemma recorded_frames_sublist frames :
  map fst (recorded collect_all S frames) `sublist_of` frames.
Proof.
  induction frames as [|f frames IH] using rev_ind; [done|].
  rewrite recorded_snoc, map_app.
  destruct (collect_all || state_ne _ _); simpl.
  - by apply sublist_app.
  - rewrite app_nil_r. by apply sublist_inserts_r.
Qed.
End RecordedFacts.

(** In all-frames mode every frame is recorded. *)
Lemma recorded_all S frames :
  recorded true S frames = map (fun f => (f, S f)) frames.
Proof.
  induction frames as [|f frames IH] using rev_ind; [done|].
  by rewrite recorded_snoc, IH, map_app.
Qed.

(** In changes-only mode two consecutive recorded states differ. *)
Lemma recorded_adjacent S frames (i : nat) a b :
  recorded false S frames !! i = Some a ->
  recorded false S frames !! (i + 1)%nat = Some b ->
  py_list_eqb b.2 a.2 = false.
Proof.
  revert i a b. induction frames as [|f frames IH] using rev_ind; [done|].
  intros i a b. rewrite recorded_snoc. simpl.
  destruct (state_ne _ _) eqn:E.
  - intros Ha Hb.
    destruct (decide (i + 1 < length (recorded false S frames))%nat) as [Hlt|Hge].
    + rewrite lookup_app_l in Ha by lia. rewrite lookup_app_l in Hb by lia. eauto.
    + assert (length (recorded false S frames) = (i + 1)%nat) as Hlen.
      { apply lookup_lt_Some in Hb. rewrite length_app in Hb. simpl in Hb. lia. }
      rewrite lookup_app_l in Ha by lia.
      rewrite lookup_app_r in Hb by lia.
      rewrite Hlen, Nat.sub_diag in Hb. injection Hb as <-. simpl.
      assert (last (recorded false S frames) = Some a) as Hlast.
      { rewrite last_lookup. rewrite Hlen.
        by replace (Nat.pred (i + 1)) with i by lia. }
      rewrite Hlast in E. simpl in E. by apply negb_true_iff in E.
  - rewrite app_nil_r. apply IH.
Qed.

Lemma recorded_ext collect_all S S' frames :
  (forall f, f ∈ frames -> S f = S' f) ->
  recorded collect_all S frames = recorded collect_all S' frames.
Proof.
  induction frames as [|f frames IH] using rev_ind; [done|].
  intros H. rewrite !recorded_snoc.
  rewrite IH by (intros; apply H, elem_of_app; by left).
  rewrite (H f) by (apply elem_of_app; right; apply list_elem_of_here). done.
Qed.

(** ** Loops over frames *)

Lemma foldM_frames {St} (body : St -> Z -> M St) (h : St -> Z -> St) :
  (forall s f t, body s f t = mkOut f [CurrentTime f] (Ok (h s f))) ->
  forall frs s t,
    foldM body frs s t
    = mkOut (default t (last frs)) (map CurrentTime frs) (Ok (fold_left h frs s)).
Proof.
  intros Hb. induction frs as [|f frs IH]; intros s t; [done|].
  simpl foldM. rewrite (bind_out _ _ _ _ _ _ (Hb s f t)), IH. simpl.
  f_equal. rewrite last_cons. by destruct (last frs).
Qed.

(** The loop state as a function of what has been recorded. *)
Lemma fold_recorded {St} (collect_all : bool) (S : Z -> list pyval)
    (h : St -> Z -> St) (R : list (Z * list pyval) * option (list pyval) -> St) :
  (forall acc f, h (R acc) f = R (record_step collect_all S acc f)) ->
  forall frs acc,
    fold_left h frs (R acc) = R (fold_left (record_step collect_all S) frs acc).
Proof.
  intros Hh. induction frs as [|f frs IH]; intros acc; [done|].
  simpl. by rewrite Hh, IH.
Qed.

(** ** First variant: sampling and the frame loop *)

Section DirectFacts.
Variable sc : Scene.

Lemma reads_sample_option name options read f sd :
  reads read f ->
  reads (AnimData.sample_option name options read sd)
        (fun t => if bool_decide (name ∈ options)
                  then (sd.1 ++ [f t], sd.2 ++ [f t]) else sd).
Proof.
  intros Hr t. unfold AnimData.sample_option.
  destruct (bool_decide _); [|done].
  by rewrite (bind_out _ _ _ _ _ _ (Hr t)).
Qed.

Lemma reads_direct_sample options file_node place :
  reads (AnimData.sample sc options file_node place)
        (fun t => (direct_state sc options file_node place t,
                   direct_state sc options file_node place t)).
Proof.
  intros t. unfold AnimData.sample.
  rewrite (bind_reads _ _ _ (reads_sample_option _ _ _ _ _ (reads_get_active_image sc _))).
  do 4 rewrite (bind_reads _ _ _ (reads_sample_option _ _ _ _ _ (reads_read_attr sc _))).
  rewrite (reads_sample_option _ _ _ _ _ (reads_read_attr sc _)).
  cbv beta. unfold direct_state, selected, ALL_OPTIONS, OPTION_TABLE.
  simpl map at 3. simpl map at 2. rewrite !filter_cons, filter_nil.
  repeat match goal with
    | |- context [decide (?x ∈ options)] =>
        destruct (decide (x ∈ options)) as [H|H];
        [rewrite !(bool_decide_eq_true_2 _ H) | rewrite !(bool_decide_eq_false_2 _ H)];
        clear H
    end; reflexivity.
Qed.

Lemma direct_frame_body options meta collect_all geo mat file_node place acc f t :
  AnimData.frame_body sc options meta collect_all geo mat file_node place acc f t
  = mkOut f [CurrentTime f]
      (Ok (let s := direct_state sc options file_node place f in
           if collect_all || state_ne s acc.2
           then (acc.1 ++ [row_prefix meta f geo mat file_node ++ s], Some s)
           else acc)).
Proof.
  unfold AnimData.frame_body.
  rewrite (bind_out _ _ t f [CurrentTime f] tt eq_refl).
  rewrite (bind_out _ _ _ _ _ _ (reads_direct_sample options file_node place f)).
  cbn [fst snd]. by destruct (collect_all || state_ne _ _).
Qed.

Lemma direct_frame_loop options meta collect_all geo mat file_node place start end_ t :
  let frs := py_range start (end_ + 1) in
  AnimData.frame_loop sc options meta collect_all geo mat file_node place start end_ t
  = mkOut (default t (last frs)) (map CurrentTime frs)
      (Ok (map (make_row meta geo mat file_node)
             (recorded collect_all (direct_state sc options file_node place) frs))).
Proof.
  intros frs. unfold AnimData.frame_loop. fold frs.
  rewrite (bind_out _ _ _ _ _ _
    (foldM_frames _ _ (direct_frame_body options meta collect_all geo mat file_node place)
       frs ([], None) t)).
  simpl. rewrite app_nil_r. do 2 f_equal.
  pose (R := fun acc : list (Z * list pyval) * option (list pyval) =>
               (map (make_row meta geo mat file_node) acc.1, acc.2)).
  change (@nil (list pyval), @None (list pyval)) with (R ([], None)).
  rewrite (fold_recorded collect_all (direct_state sc options file_node place) _ R).
  - done.
  - intros acc f. unfold R, record_step. simpl.
    destruct (collect_all || state_ne _ _); [|done].
    simpl. by rewrite map_app.
Qed.
End DirectFacts.

(** ** Second variant: sampling and the frame loop *)

Section CorrectedFacts.
Variable sc : Scene.

Lemma reads_corrected_sample options file_node place :
  reads (AnimDataFinal.sample sc options file_node place)
        (current_at sc options file_node place).
Proof.
  intros t. unfold AnimDataFinal.sample, current_at. cbv beta zeta.
  rewrite bind_ret_l.
  destruct (bool_decide ("ActiveImage" ∈ options)),
    (bool_decide ("OffsetU" ∈ options)), (bool_decide ("OffsetV" ∈ options)),
    (bool_decide ("ScaleU" ∈ options)), (bool_decide ("ScaleV" ∈ options)),
    (bool_decide ("RotateUV" ∈ options));
    cbn [orb];
    repeat first
      [ rewrite bind_assoc
      | rewrite bind_ret_l
      | rewrite (bind_reads _ _ _ (reads_get_active_image sc _))
      | rewrite (bind_reads _ _ _ (reads_get_offset_uv sc _ _))
      | rewrite (bind_reads _ _ _ (reads_get_scale_uv sc _ _))
      | rewrite (bind_reads _ _ _ (reads_read_attr sc _)) ];
    reflexivity.
Qed.

(** Every option name of the table that is asked for is in the
    dictionary, with the value of the second variant. *)
Lemma current_at_lookup options file_node place t o :
  o ∈ ALL_OPTIONS -> o ∈ options ->
  current_at sc options file_node place t !! o
  = Some (corrected_value sc t file_node place o).
Proof.
  intros Hall Hin. unfold ALL_OPTIONS, OPTION_TABLE in Hall. simpl in Hall.
  unfold current_at, corrected_value. cbv beta zeta.
  repeat (apply elem_of_cons in Hall as [->|Hall]);
    [ .. | by apply elem_of_nil in Hall ];
    rewrite (bool_decide_eq_true_2 _ Hin);
    repeat case_bool_decide; reflexivity.
Qed.

Lemma lookup_all_ok (current : gmap string pyval) (v : string -> pyval) options t :
  (forall o, o ∈ options -> current !! o = Some (v o)) ->
  AnimDataFinal.lookup_all current options t = mkOut t [] (Ok (map v options)).
Proof.
  induction options as [|o options IH]; intros H; [done|].
  simpl. rewrite (H o (list_elem_of_here _ _)).
  rewrite (bind_out _ _ t t [] (map v options)).
  - done.
  - apply IH. intros o' Ho'. apply H. by apply list_elem_of_further.
Qed.

Lemma corrected_frame_body options meta collect_all geo mat file_node place acc f t :
  options ⊆ ALL_OPTIONS ->
  AnimDataFinal.frame_body sc options meta collect_all geo mat file_node place acc f t
  = mkOut f [CurrentTime f]
      (Ok (let s := corrected_state sc options file_node place f in
           if collect_all || state_ne s (AnimDataFinal.last_state acc)
           then {| AnimDataFinal.rows :=
                     AnimDataFinal.rows acc ++ [row_prefix meta f geo mat file_node ++ s];
                   AnimDataFinal.curve_frames := AnimDataFinal.curve_frames acc ++ [f];
                   AnimDataFinal.curve_values :=
                     AnimDataFinal.append_curves options s (AnimDataFinal.curve_values acc);
                   AnimDataFinal.last_state := Some s |}
           else acc)).
Proof.
  intros Hsub. unfold AnimDataFinal.frame_body.
  rewrite (bind_out _ _ t f [CurrentTime f] tt eq_refl).
  rewrite (bind_reads _ _ _ (reads_corrected_sample options file_node place)).
  rewrite (bind_out _ _ f f [] (corrected_state sc options file_node place f)).
  - cbv zeta. by destruct (collect_all || state_ne _ _).
  - apply lookup_all_ok. intros o Ho. apply current_at_lookup; [by apply Hsub | done].
Qed.

Lemma corrected_frame_loop options meta collect_all geo mat file_node place start end_ t :
  options ⊆ ALL_OPTIONS ->
  let frs := py_range start (end_ + 1) in
  let rec := recorded collect_all (corrected_state sc options file_node place) frs in
  AnimDataFinal.frame_loop sc options meta collect_all geo mat file_node place start end_ t
  = mkOut (default t (last frs)) (map CurrentTime frs)
      (Ok {| AnimDataFinal.rows := map (make_row meta geo mat file_node) rec;
             AnimDataFinal.curve_frames := map fst rec;
             AnimDataFinal.curve_values :=
               fold_left (fun cv fs => AnimDataFinal.append_curves options fs.2 cv) rec
                 (AnimDataFinal.empty_curves options);
             AnimDataFinal.last_state := snd <$> last rec |}).
Proof.
  intros Hsub frs rec. unfold AnimDataFinal.frame_loop. fold frs.
  rewrite (foldM_frames _ _
    (fun acc f t => corrected_frame_body options meta collect_all geo mat file_node place
                      acc f t Hsub)).
  do 2 f_equal.
  pose (R := fun acc : list (Z * list pyval) * option (list pyval) =>
    {| AnimDataFinal.rows := map (make_row meta geo mat file_node) acc.1;
       AnimDataFinal.curve_frames := map fst acc.1;
       AnimDataFinal.curve_values :=
         fold_left (fun cv fs => AnimDataFinal.append_curves options fs.2 cv) acc.1
           (AnimDataFinal.empty_curves options);
       AnimDataFinal.last_state := acc.2 |}).
  change (AnimDataFinal.mkAcc [] [] (AnimDataFinal.empty_curves options) None)
    with (R ([], None)).
  rewrite (fold_recorded collect_all (corrected_state sc options file_node place) _ R).
  - unfold R. f_equal.
    apply (record_fold_last collect_all _ frs ([], None) eq_refl).
  - intros acc f. unfold R, record_step. cbn [AnimDataFinal.last_state].
    destruct (collect_all || state_ne _ _); [|done].
    cbn [fst snd AnimDataFinal.rows AnimDataFinal.curve_frames AnimDataFinal.curve_values].
    by rewrite !map_app, fold_left_app.
Qed.
End CorrectedFacts.

(** ** The image number of a texture *)

(** C10. [get_active_image] answers the [frameExtension] value of the file
    node when the node has a [useFrameExtension] attribute and its value
    is truthy, and [None] in every other case; it has no effect on the
    host.  The answer is the cell both variants sample for the option
    ActiveImage, so the cell is [None], which the CSV writer leaves
    empty, for a texture that is no image sequence. *)
Theorem get_active_image_spec (sc : Scene) (file_node place : string) (t : Z) :
  let v := if sc_obj_exists sc (file_node +:+ ".useFrameExtension")
              && truthy (sc_attr sc t (file_node +:+ ".useFrameExtension"))
           then PNum (sc_attr sc t (file_node +:+ ".frameExtension"))
           else PNone in
  get_active_image sc file_node t = mkOut t [] (Ok v)
  /\ AnimData.sample sc ["ActiveImage"] file_node place t = mkOut t [] (Ok ([v], [v]))
  /\ (do current <- AnimDataFinal.sample sc ["ActiveImage"] file_node place in
      AnimDataFinal.lookup_all current ["ActiveImage"]) t
     = mkOut t [] (Ok [v]).
Proof.
  intros v. split; [apply reads_get_active_image|]. split.
  - by rewrite (reads_direct_sample sc).
  - rewrite (bind_reads _ _ _ (reads_corrected_sample sc _ _ _)).
    rewrite (lookup_all_ok _ (corrected_value sc t file_node place)); [done|].
    intros o Ho. apply list_elem_of_singleton in Ho as ->.
    apply current_at_lookup; [|apply list_elem_of_here].
    apply list_elem_of_here.
Qed.

(** C10, run on the demo scene: the iris texture is an image sequence
    and answers the image number of the frame; a texture without the
    attribute answers [None]. *)
Example get_active_image_demo :
  let sc := Demo.eye false [] 1 1 in
  get_active_image sc "iris_file" 3 = mkOut 3 [] (Ok (PNum (AInt 3)))
  /\ get_active_image sc "lid_file" 3 = mkOut 3 [] (Ok PNone).
Proof. split; reflexivity. Qed.

(** ** Loops over materials and textures *)

Lemma for_each_trace {A} (l : list A) (body : A -> M unit) (ev : A -> list Event) :
  (forall x t, out_trace (body x t) = ev x /\ out_res (body x t) = Ok tt) ->
  forall t, out_trace (for_each l body t) = flat_map ev l
            /\ out_res (for_each l body t) = Ok tt.
Proof.
  intros Hb. induction l as [|x l IH]; intros t; [done|].
  simpl. unfold bind. destruct (Hb x t) as [Htr Hres].
  rewrite Hres. simpl. destruct (IH (out_time (body x t))) as [Htr' Hres'].
  by rewrite Htr, Htr', Hres'.
Qed.

Lemma flat_map_omap {A B C} (h : A -> option B) (ev : B -> list C) (l : list A) :
  flat_map ev (omap h l)
  = flat_map (fun x => match h x with Some y => ev y | None => [] end) l.
Proof.
  induction l as [|x l IH]; [done|].
  change (omap h (x :: l)) with (match h x with Some y => y :: omap h l | None => omap h l end).
  cbn [flat_map]. destruct (h x); cbn [flat_map]; by rewrite IH.
Qed.

Lemma flat_map_flat_map {A B C} (f : A -> list B) (ev : B -> list C) (l : list A) :
  flat_map ev (flat_map f l) = flat_map (fun x => flat_map ev (f x)) l.
Proof.
  induction l as [|x l IH]; [done|]. simpl. by rewrite flat_map_app, IH.
Qed.

Lemma writes_app tr1 tr2 : writes (tr1 ++ tr2) = writes tr1 ++ writes tr2.
Proof. unfold writes. apply omap_app. Qed.

Lemma time_calls_app tr1 tr2 : time_calls (tr1 ++ tr2) = time_calls tr1 ++ time_calls tr2.
Proof. unfold time_calls. apply omap_app. Qed.

Lemma writes_CurrentTime frs : writes (map CurrentTime frs) = [].
Proof. by induction frs. Qed.

Lemma time_calls_CurrentTime frs : time_calls (map CurrentTime frs) = frs.
Proof. induction frs as [|f frs IH]; [done|]. simpl. by rewrite IH. Qed.

Section ExportFacts.
Variable os : OsPath.
Variable list_of_set : gset string -> list string.
Variable sc : Scene.
Variable g : Globals.

Lemma direct_export_texture options meta collect_all geo mat file_node t :
  out_trace (AnimData.export_texture os sc g options meta collect_all geo
               (py_int (sc_playback_min sc)) (py_int (sc_playback_max sc)) mat file_node t)
  = match enabled_place sc g file_node with
    | Some place =>
        direct_events os sc g options meta collect_all geo (mat, file_node, place)
    | None => []
    end
  /\ out_res (AnimData.export_texture os sc g options meta collect_all geo
                (py_int (sc_playback_min sc)) (py_int (sc_playback_max sc)) mat file_node t)
     = Ok tt.
Proof.
  unfold AnimData.export_texture, enabled_place.
  destruct (TEXTURE_CHECKBOXES g !! file_node) as [cb|]; [|done].
  destruct (sc_checkBox sc cb); [|done]. simpl.
  destruct (get_place2d sc file_node) as [place|]; [|done].
  destruct (String.eqb place ""); [done|].
  rewrite (bind_out _ _ _ _ _ _
    (direct_frame_loop sc options meta collect_all geo mat file_node place
       (py_int (sc_playback_min sc)) (py_int (sc_playback_max sc)) t)).
  unfold direct_events, direct_rows, frames. cbn [fst snd].
  by destruct (map _ (recorded _ _ _)).
Qed.

Lemma direct_export_trace options meta collect_all geo t :
  EXPORT_PATH g <> "" -> head (sc_selection sc) = Some geo ->
  out_trace (AnimData.export_textures os list_of_set sc g options meta collect_all t)
  = flat_map (direct_events os sc g options meta collect_all geo)
      (targets list_of_set sc g geo)
    ++ [InViewMessage "<hl>Texture export complete</hl>"]
  /\ out_res (AnimData.export_textures os list_of_set sc g options meta collect_all t)
     = Ok tt.
Proof.
  intros Hpath Hsel. unfold AnimData.export_textures.
  apply String.eqb_neq in Hpath. rewrite Hpath.
  destruct (sc_selection sc) as [|geo' sel]; [done|]. injection Hsel as ->.
  cbv zeta. unfold bind.
  set (loop := for_each _ _).
  assert (forall t, out_trace (loop t)
                    = flat_map (direct_events os sc g options meta collect_all geo)
                        (targets list_of_set sc g geo)
                    /\ out_res (loop t) = Ok tt) as Hloop.
  { intros t'. unfold loop, targets. rewrite flat_map_flat_map.
    apply for_each_trace. intros mat t''. rewrite flat_map_omap.
    apply for_each_trace. intros file_node t'''.
    destruct (direct_export_texture options meta collect_all geo mat file_node t''')
      as [-> ->].
    by destruct (enabled_place sc g file_node). }
  destruct (Hloop t) as [-> ->]. done.
Qed.

Lemma corrected_export_texture options meta export_mode collect_all geo mat file_node t :
  options ⊆ ALL_OPTIONS ->
  out_trace (AnimDataFinal.export_texture os sc g options meta export_mode collect_all geo
               (py_int (sc_playback_min sc)) (py_int (sc_playback_max sc)) mat file_node t)
  = match enabled_place sc g file_node with
    | Some place =>
        corrected_events os sc g options meta export_mode collect_all geo
          (mat, file_node, place)
    | None => []
    end
  /\ out_res (AnimDataFinal.export_texture os sc g options meta export_mode collect_all geo
                (py_int (sc_playback_min sc)) (py_int (sc_playback_max sc)) mat file_node t)
     = Ok tt.
Proof.
  intros Hsub. unfold AnimDataFinal.export_texture, enabled_place.
  destruct (TEXTURE_CHECKBOXES g !! file_node) as [cb|]; [|done].
  destruct (sc_checkBox sc cb); [|done]. simpl.
  destruct (get_place2d sc file_node) as [place|]; [|done].
  destruct (String.eqb place ""); [done|].
  rewrite (bind_out _ _ _ _ _ _
    (corrected_frame_loop sc options meta collect_all geo mat file_node place
       (py_int (sc_playback_min sc)) (py_int (sc_playback_max sc)) t Hsub)).
  unfold corrected_events, corrected_acc, frames. cbn [fst snd].
  by destruct (String.eqb export_mode "datatable").
Qed.

Lemma corrected_export_trace options meta export_mode collect_all geo t :
  options ⊆ ALL_OPTIONS ->
  EXPORT_PATH g <> "" -> head (sc_selection sc) = Some geo ->
  out_trace (AnimDataFinal.export_textures os list_of_set sc g options meta export_mode
               collect_all t)
  = flat_map (corrected_events os sc g options meta export_mode collect_all geo)
      (targets list_of_set sc g geo)
    ++ [InViewMessage "<hl>Texture export complete</hl>"]
  /\ out_res (AnimDataFinal.export_textures os list_of_set sc g options meta export_mode
                collect_all t) = Ok tt.
Proof.
  intros Hsub Hpath Hsel. unfold AnimDataFinal.export_textures.
  apply String.eqb_neq in Hpath. rewrite Hpath.
  destruct (sc_selection sc) as [|geo' sel]; [done|]. injection Hsel as ->.
  cbv zeta. unfold bind.
  set (loop := for_each _ _).
  assert (forall t, out_trace (loop t)
                    = flat_map (corrected_events os sc g options meta export_mode
                                  collect_all geo)
                        (targets list_of_set sc g geo)
                    /\ out_res (loop t) = Ok tt) as Hloop.
  { intros t'. unfold loop, targets. rewrite flat_map_flat_map.
    apply for_each_trace. intros mat t''. rewrite flat_map_omap.
    apply for_each_trace. intros file_node t'''.
    destruct (corrected_export_texture options meta export_mode collect_all geo mat
                file_node t''' Hsub) as [-> ->].
    by destruct (enabled_place sc g file_node). }
  destruct (Hloop t) as [-> ->]. done.
Qed.
End ExportFacts.

(** ** The options [run_export] collects *)

Lemma collect_options_sublist sc : collect_options sc `sublist_of` ALL_OPTIONS.
Proof.
  unfold collect_options, ALL_OPTIONS, OPTION_TABLE. simpl.
  destruct (sc_checkBox sc "cb_img"), (sc_checkBox sc "cb_ou"), (sc_checkBox sc "cb_ov"),
    (sc_checkBox sc "cb_su"), (sc_checkBox sc "cb_sv"), (sc_checkBox sc "cb_r");
    simpl; repeat first [apply sublist_nil | apply sublist_skip | apply sublist_cons].
Qed.

Lemma collect_options_known sc : collect_options sc ⊆ ALL_OPTIONS.
Proof. apply sublist_subseteq, collect_options_sublist. Qed.

Lemma NoDup_ALL_OPTIONS : NoDup ALL_OPTIONS.
Proof. apply (bool_decide_unpack _). by vm_compute. Qed.

Lemma collect_options_NoDup sc : NoDup (collect_options sc).
Proof. eapply sublist_NoDup; [apply NoDup_ALL_OPTIONS | apply collect_options_sublist]. Qed.

Lemma filter_ext_in {A} (P Q : A -> Prop) `{!forall x, Decision (P x), !forall x, Decision (Q x)}
    (l : list A) :
  (forall x, x ∈ l -> P x <-> Q x) -> filter P l = filter Q l.
Proof.
  induction l as [|x l IH]; intros Hext; [done|].
  rewrite !filter_cons.
  rewrite IH by (intros y Hy; apply Hext; by apply list_elem_of_further).
  pose proof (Hext x (list_elem_of_here _ _)) as Hx.
  destruct (decide (P x)) as [HP|HP], (decide (Q x)) as [HQ|HQ]; tauto || done.
Qed.

(** Filtering a duplicate-free list by membership in one of its
    sublists gives the sublist back. *)
Lemma filter_sublist (l k : list string) :
  NoDup k -> l `sublist_of` k -> filter (fun x => x ∈ l) k = l.
Proof.
  intros Hk Hsub. induction Hsub as [|x l k Hsub IH|x l k Hsub IH].
  - done.
  - apply NoDup_cons in Hk as [Hx Hk].
    rewrite filter_cons_True by apply list_elem_of_here. f_equal.
    transitivity (filter (fun y => y ∈ l) k); [|by apply IH].
    apply filter_ext_in. intros y Hy. split.
    + intros [->|H]%elem_of_cons; done.
    + intros H. by apply list_elem_of_further.
  - apply NoDup_cons in Hk as [Hx Hk].
    rewrite filter_cons_False; [by apply IH|].
    intros H. apply Hx. by eapply elem_of_sublist.
Qed.

(** A selection in table order is what [selected] gives back. *)
Lemma selected_collect_options sc : selected (collect_options sc) = collect_options sc.
Proof.
  apply filter_sublist; [apply NoDup_ALL_OPTIONS | apply collect_options_sublist].
Qed.

(** ** Rows and their states *)

Lemma length_row_prefix meta f geo mat file_node :
  length (row_prefix meta f geo mat file_node) = length (row_prefix meta 0 "" "" "").
Proof. unfold row_prefix. by destruct (meta_geo meta), (meta_mat meta), (meta_file meta). Qed.

Lemma row_state_make_row meta geo mat file_node fs :
  row_state meta (make_row meta geo mat file_node fs) = fs.2.
Proof.
  unfold row_state, make_row.
  rewrite <- (length_row_prefix meta fs.1 geo mat file_node). apply drop_app_length.
Qed.

Lemma last_make_row meta geo mat file_node (rec : list (Z * list pyval)) :
  row_state meta <$> last (map (make_row meta geo mat file_node) rec) = snd <$> last rec.
Proof.
  change (map (make_row meta geo mat file_node) rec)
    with (make_row meta geo mat file_node <$> rec).
  rewrite fmap_last. destruct (last rec) as [fs|]; [|done].
  simpl. by rewrite row_state_make_row.
Qed.

(** The rows of a changes-only loop, read off the recorded frames. *)
Lemma changes_only_recorded meta geo mat file_node start end_ S :
  changes_only meta start end_ S (fun f => row_prefix meta f geo mat file_node)
    (fun e => map (make_row meta geo mat file_node)
                (recorded false S (py_range start (e + 1)))).
Proof.
  split; [|split; [|split]].
  - by rewrite py_range_nil by lia.
  - intros f Hf. replace (f - 1 + 1) with f by lia.
    rewrite py_range_snoc by lia. rewrite recorded_snoc, map_app.
    rewrite last_make_row. simpl. by destruct (state_ne _ _).
  - intros i r1 r2 H1 H2.
    apply list_lookup_fmap_Some in H1 as (a & -> & Ha).
    apply list_lookup_fmap_Some in H2 as (b & -> & Hb).
    rewrite !row_state_make_row. by eapply recorded_adjacent.
  - intros H. rewrite py_range_cons by lia.
    destruct (recorded_cons false S start (py_range (start + 1) (end_ + 1))) as [rest ->].
    done.
Qed.

(** ** Claims on the frame loop *)

(** C1. In changes-only mode a row is written for a frame exactly when
    the option values sampled at that frame differ from those of the
    most recently written row, or when no row has been written yet; so
    two consecutive rows never carry equal states, and the first frame of
    a non-empty range is always written.  This holds for the loop of
    either variant; for the second, with the options [run_export]
    collects. *)
Theorem changes_only_rows (sc : Scene) (options : list string) (meta : Meta)
    (geo mat file_node place : string) (start end_ : Z) :
  (exists S R,
      (forall f, out_res (AnimData.sample sc options file_node place f) = Ok (S f, S f))
      /\ (forall e t0,
            out_res (AnimData.frame_loop sc options meta false geo mat file_node place
                       start e t0) = Ok (R e))
      /\ changes_only meta start end_ S (fun f => row_prefix meta f geo mat file_node) R)
  /\ (exists S R,
        (forall f,
            out_res ((do current <- AnimDataFinal.sample sc (collect_options sc)
                                      file_node place in
                      AnimDataFinal.lookup_all current (collect_options sc)) f)
            = Ok (S f))
        /\ (forall e t0,
              out_res (out_rows (AnimDataFinal.frame_loop sc (collect_options sc) meta false
                                   geo mat file_node place start e t0)) = Ok (R e))
        /\ changes_only meta start end_ S (fun f => row_prefix meta f geo mat file_node) R).
Proof.
  split.
  - exists (direct_state sc options file_node place).
    exists (fun e => map (make_row meta geo mat file_node)
                       (recorded false (direct_state sc options file_node place)
                          (py_range start (e + 1)))).
    split; [|split].
    + intros f. by rewrite (reads_direct_sample sc).
    + intros e t0. by rewrite direct_frame_loop.
    + apply changes_only_recorded.
  - pose proof (collect_options_known sc) as Hsub.
    exists (corrected_state sc (collect_options sc) file_node place).
    exists (fun e => map (make_row meta geo mat file_node)
                       (recorded false (corrected_state sc (collect_options sc) file_node place)
                          (py_range start (e + 1)))).
    split; [|split].
    + intros f. rewrite (bind_reads _ _ _ (reads_corrected_sample sc _ _ _)).
      rewrite (lookup_all_ok _ (corrected_value sc f file_node place)); [done|].
      intros o Ho. apply current_at_lookup; [by apply Hsub | done].
    + intros e t0. by rewrite (corrected_frame_loop sc _ _ _ _ _ _ _ _ _ _ Hsub).
    + apply changes_only_recorded.
Qed.

(** C1, run on the demo scene: the offset changes at frame 3 only, so
    of the frames 1 to 5 the loop writes frames 1 and 3. *)
Example changes_only_demo :
  out_res (AnimData.frame_loop (Demo.eye false [] 1 5) ["OffsetU"; "OffsetV"]
             {| meta_geo := false; meta_mat := false; meta_file := false |}
             false "eyeGeo" "eyeMat" "iris_file" "place_iris" 1 5 0)
  = Ok [[PNum (AInt 1); PNum (AFloat 0); PNum (AFloat 0)];
        [PNum (AInt 3); PNum (AFloat (1 # 2)); PNum (AFloat 0)]].
Proof. reflexivity. Qed.

(** C8. With an empty export path or an empty selection
    [export_textures] warns and returns: the trace holds the warning and
    nothing else, so the frame loop is not entered and no file is
    written, and the current time of the host is the one it was. *)
Theorem export_guards (os : OsPath) (list_of_set : gset string -> list string)
    (sc : Scene) (g : Globals) (options : list string) (meta : Meta)
    (export_mode : string) (collect_all : bool) (t : Z) :
  EXPORT_PATH g = "" \/ sc_selection sc = [] ->
  let msg := if String.eqb (EXPORT_PATH g) "" then "Choose an export path."
             else "Select geometry." in
  AnimData.export_textures os list_of_set sc g options meta collect_all t
    = mkOut t [Warning msg] (Ok tt)
  /\ AnimDataFinal.export_textures os list_of_set sc g options meta export_mode collect_all t
    = mkOut t [Warning msg] (Ok tt).
Proof.
  intros H msg. unfold msg, AnimData.export_textures, AnimDataFinal.export_textures.
  destruct (String.eqb (EXPORT_PATH g) "") eqn:E; [done|].
  destruct H as [H|H].
  - rewrite H in E. discriminate.
  - by rewrite H.
Qed.

(** C8, witness: an export with no path chosen, and one with nothing
    selected. *)
Lemma export_guards_witness :
  (AnimData.export_textures Demo.posix Demo.order_a (Demo.eye false Demo.all_checked 1 4)
     {| EXPORT_PATH := ""; TEXTURE_CHECKBOXES := ∅ |} ["OffsetU"]
     {| meta_geo := true; meta_mat := true; meta_file := true |} false 7
   = mkOut 7 [Warning "Choose an export path."] (Ok tt)
   /\ AnimDataFinal.export_textures Demo.posix Demo.order_a
        (Demo.eye false Demo.all_checked 1 4)
        {| EXPORT_PATH := ""; TEXTURE_CHECKBOXES := ∅ |} ["OffsetU"]
        {| meta_geo := true; meta_mat := true; meta_file := true |} "curve" false 7
      = mkOut 7 [Warning "Choose an export path."] (Ok tt)).
Proof.
  apply (export_guards Demo.posix Demo.order_a (Demo.eye false Demo.all_checked 1 4)
           {| EXPORT_PATH := ""; TEXTURE_CHECKBOXES := ∅ |}).
  left. reflexivity.
Defined.

Lemma time_calls_flat_map {A} (ev : A -> list Event) (l : list A) :
  time_calls (flat_map ev l) = flat_map (fun x => time_calls (ev x)) l.
Proof.
  induction l as [|x l IH]; [done|]. simpl. by rewrite time_calls_app, IH.
Qed.

Lemma writes_flat_map {A} (ev : A -> list Event) (l : list A) :
  writes (flat_map ev l) = flat_map (fun x => writes (ev x)) l.
Proof.
  induction l as [|x l IH]; [done|]. simpl. by rewrite writes_app, IH.
Qed.

Lemma time_calls_direct_events os sc g options meta collect_all geo target :
  time_calls (direct_events os sc g options meta collect_all geo target) = frames sc.
Proof.
  unfold direct_events. rewrite time_calls_app, time_calls_CurrentTime.
  destruct (direct_rows _ _ _ _ _ _); simpl; apply app_nil_r.
Qed.

Lemma time_calls_corrected_events os sc g options meta export_mode collect_all geo target :
  time_calls (corrected_events os sc g options meta export_mode collect_all geo target)
  = frames sc.
Proof.
  unfold corrected_events. rewrite time_calls_app, time_calls_CurrentTime.
  simpl. apply app_nil_r.
Qed.

(** What the rows of a loop hold, read off the recorded frames. *)
Lemma scrubs_recorded meta geo mat file_node frs collect_all S t0 :
  scrubs frs collect_all S (fun f => row_prefix meta f geo mat file_node) t0
    (mkOut (default t0 (last frs)) (map CurrentTime frs)
       (Ok (map (make_row meta geo mat file_node) (recorded collect_all S frs)))).
Proof.
  split; [done|]. split; [done|]. eexists. split; [done|]. split.
  - intros row Hrow. apply list_elem_of_fmap in Hrow as (fs & -> & Hfs).
    apply recorded_elem in Hfs as [Hf HS]. exists fs.1. split; [done|].
    unfold make_row. by rewrite HS.
  - intros ->. rewrite recorded_all, map_map. done.
Qed.

(** C4. The frame loop sets the host's current time to every integer
    frame from [start] to [end_] inclusive, in increasing order, and to
    nothing else; the values of a row are those sampled while the
    current time is the frame of the row; in all-frames mode there is
    exactly one row per frame.  An export with an export path and a
    selection runs this loop once for every enabled texture that has a
    place2d node, from [int] of the playback minimum to [int] of the
    playback maximum. *)
Theorem frames_visited (os : OsPath) (list_of_set : gset string -> list string)
    (sc : Scene) (g : Globals) (options : list string) (meta : Meta)
    (export_mode : string) (collect_all : bool)
    (geo mat file_node place : string) (start end_ t0 : Z) :
  let frs := py_range start (end_ + 1) in
  let P f := row_prefix meta f geo mat file_node in
  (forall f, f ∈ frs <-> start <= f <= end_)
  /\ (forall (i j : nat) f f',
        frs !! i = Some f -> frs !! j = Some f' -> (i < j)%nat -> f < f')
  /\ (exists S,
        (forall f, out_res (AnimData.sample sc options file_node place f) = Ok (S f, S f))
        /\ scrubs frs collect_all S P t0
             (AnimData.frame_loop sc options meta collect_all geo mat file_node place
                start end_ t0))
  /\ (exists S,
        (forall f,
            out_res ((do current <- AnimDataFinal.sample sc (collect_options sc)
                                      file_node place in
                      AnimDataFinal.lookup_all current (collect_options sc)) f)
            = Ok (S f))
        /\ scrubs frs collect_all S P t0
             (out_rows (AnimDataFinal.frame_loop sc (collect_options sc) meta collect_all
                          geo mat file_node place start end_ t0)))
  /\ (EXPORT_PATH g <> "" -> head (sc_selection sc) = Some geo ->
      let playback :=
        py_range (py_int (sc_playback_min sc)) (py_int (sc_playback_max sc) + 1) in
      time_calls (out_trace (AnimData.export_textures os list_of_set sc g options meta
                               collect_all t0))
      = flat_map (fun _ => playback) (targets list_of_set sc g geo)
      /\ time_calls (out_trace (AnimDataFinal.export_textures os list_of_set sc g
                                  (collect_options sc) meta export_mode collect_all t0))
         = flat_map (fun _ => playback) (targets list_of_set sc g geo)).
Proof.
  intros frs P. pose proof (collect_options_known sc) as Hsub.
  split; [|split; [|split; [|split]]].
  - intros f. unfold frs. rewrite elem_of_py_range. lia.
  - apply py_range_increasing.
  - exists (direct_state sc options file_node place). split.
    + intros f. by rewrite (reads_direct_sample sc).
    + rewrite direct_frame_loop. apply scrubs_recorded.
  - exists (corrected_state sc (collect_options sc) file_node place). split.
    + intros f. rewrite (bind_reads _ _ _ (reads_corrected_sample sc _ _ _)).
      rewrite (lookup_all_ok _ (corrected_value sc f file_node place)); [done|].
      intros o Ho. apply current_at_lookup; [by apply Hsub | done].
    + rewrite (corrected_frame_loop sc _ _ _ _ _ _ _ _ _ _ Hsub).
      unfold out_rows. cbn [out_time out_trace out_res AnimDataFinal.rows].
      apply scrubs_recorded.
  - intros Hpath Hsel playback. split.
    + destruct (direct_export_trace os list_of_set sc g options meta collect_all geo t0
                  Hpath Hsel) as [-> _].
      rewrite time_calls_app, time_calls_flat_map. simpl. rewrite app_nil_r.
      apply flat_map_ext. intros target. apply time_calls_direct_events.
    + destruct (corrected_export_trace os list_of_set sc g _ meta export_mode collect_all
                  geo t0 Hsub Hpath Hsel) as [-> _].
      rewrite time_calls_app, time_calls_flat_map. simpl. rewrite app_nil_r.
      apply flat_map_ext. intros target. apply time_calls_corrected_events.
Qed.

(** C4, witness: the demo export over the frames 1 to 4, started while
    the host stands at frame 9. *)
Lemma frames_visited_witness :
  time_calls (out_trace (AnimData.export_textures Demo.posix Demo.order_a
                           (Demo.eye false Demo.all_checked 1 4) Demo.eye_globals
                           ["OffsetU"] (collect_meta (Demo.eye false Demo.all_checked 1 4))
                           true 9))
  = [1; 2; 3; 4].
Proof.
  pose proof (frames_visited Demo.posix Demo.order_a (Demo.eye false Demo.all_checked 1 4)
                Demo.eye_globals ["OffsetU"]
                (collect_meta (Demo.eye false Demo.all_checked 1 4)) "datatable" true
                "eyeGeo" "eyeMat" "iris_file" "place_iris" 1 4 9) as H.
  cbv zeta in H. destruct H as (_ & _ & _ & _ & H).
  destruct H as [H _]; [done | reflexivity |].
  rewrite H. reflexivity.
Defined.

(** ** A scene without correction nodes *)

Lemma first_match_nil keys : first_match keys [] = None.
Proof. by induction keys. Qed.

Lemma keyword_hits_nil keys : keyword_hits keys [] = [].
Proof. unfold keyword_hits. by induction keys. Qed.

Section NoCorrection.
Variable sc : Scene.
Hypothesis no_translation : sc_ls sc "Translation_Corr_*" "multiplyDivide" = [].
Hypothesis no_scale_u : sc_ls sc "ScaleU_corr_*" "multiplyDivide" = [].
Hypothesis no_scale_v : sc_ls sc "ScaleV_corr_*" "multiplyDivide" = [].

Lemma offset_uv_at_direct t file_node place :
  offset_uv_at sc t file_node place
  = (sc_attr sc t (place +:+ ".offsetU"), sc_attr sc t (place +:+ ".offsetV")).
Proof. unfold offset_uv_at. by rewrite no_translation, first_match_nil. Qed.

Lemma scale_uv_at_direct t file_node place :
  scale_uv_at sc t file_node place
  = (sc_attr sc t (place +:+ ".repeatU"), sc_attr sc t (place +:+ ".repeatV")).
Proof.
  unfold scale_uv_at, scale_at. by rewrite no_scale_u, no_scale_v, keyword_hits_nil.
Qed.

Lemma corrected_value_direct t file_node place o :
  corrected_value sc t file_node place o = direct_value sc t file_node place o.
Proof.
  unfold corrected_value, direct_value.
  by rewrite offset_uv_at_direct, scale_uv_at_direct.
Qed.

Lemma corrected_state_direct file_node place t :
  corrected_state sc (collect_options sc) file_node place t
  = direct_state sc (collect_options sc) file_node place t.
Proof.
  unfold corrected_state, direct_state. rewrite selected_collect_options.
  apply map_ext. intros o. apply corrected_value_direct.
Qed.

Lemma corrected_rows_direct meta collect_all geo target :
  AnimDataFinal.rows (corrected_acc sc (collect_options sc) meta collect_all geo target)
  = direct_rows sc (collect_options sc) meta collect_all geo target.
Proof.
  unfold corrected_acc, direct_rows. cbn [AnimDataFinal.rows]. f_equal.
  apply recorded_ext. intros f _. apply corrected_state_direct.
Qed.
End NoCorrection.

(** C5. In a scene without correction nodes [get_offset_uv] and
    [get_scale_uv] answer the direct reads of the place2dTexture node, so
    the frame loop of the second variant sets the same times and builds
    the same rows as that of the first, for the options [run_export]
    collects; over a non-empty playback range the two exports, the
    second in data-table form, make the same calls and write the same
    files. *)
Theorem variants_agree (os : OsPath) (list_of_set : gset string -> list string)
    (sc : Scene) (g : Globals) (meta : Meta) (collect_all : bool) :
  sc_ls sc "Translation_Corr_*" "multiplyDivide" = [] ->
  sc_ls sc "ScaleU_corr_*" "multiplyDivide" = [] ->
  sc_ls sc "ScaleV_corr_*" "multiplyDivide" = [] ->
  (forall file_node place t,
      get_offset_uv sc file_node place t
      = mkOut t [] (Ok (sc_attr sc t (place +:+ ".offsetU"),
                        sc_attr sc t (place +:+ ".offsetV"))))
  /\ (forall file_node place t,
        get_scale_uv sc file_node place t
        = mkOut t [] (Ok (sc_attr sc t (place +:+ ".repeatU"),
                          sc_attr sc t (place +:+ ".repeatV"))))
  /\ (forall geo mat file_node place start end_ t0,
        out_rows (AnimDataFinal.frame_loop sc (collect_options sc) meta collect_all
                    geo mat file_node place start end_ t0)
        = AnimData.frame_loop sc (collect_options sc) meta collect_all
            geo mat file_node place start end_ t0)
  /\ (forall t0,
        py_int (sc_playback_min sc) <= py_int (sc_playback_max sc) ->
        out_trace (AnimDataFinal.export_textures os list_of_set sc g (collect_options sc)
                     meta "datatable" collect_all t0)
        = out_trace (AnimData.export_textures os list_of_set sc g (collect_options sc)
                       meta collect_all t0)
        /\ out_res (AnimDataFinal.export_textures os list_of_set sc g (collect_options sc)
                      meta "datatable" collect_all t0)
           = out_res (AnimData.export_textures os list_of_set sc g (collect_options sc)
                        meta collect_all t0)).
Proof.
  intros Ht Hu Hv. pose proof (collect_options_known sc) as Hsub.
  split; [|split; [|split]].
  - intros file_node place t. rewrite (reads_get_offset_uv sc).
    by rewrite offset_uv_at_direct.
  - intros file_node place t. rewrite (reads_get_scale_uv sc).
    by rewrite scale_uv_at_direct.
  - intros geo mat file_node place start end_ t0.
    rewrite (corrected_frame_loop sc _ _ _ _ _ _ _ _ _ _ Hsub), direct_frame_loop.
    unfold out_rows. cbn [out_time out_trace out_res AnimDataFinal.rows].
    do 3 f_equal. apply recorded_ext. intros f _.
    by apply corrected_state_direct.
  - intros t0 Hrange.
    destruct (String.eqb (EXPORT_PATH g) "") eqn:E.
    { unfold AnimDataFinal.export_textures, AnimData.export_textures. by rewrite E. }
    destruct (sc_selection sc) as [|geo sel] eqn:Hsel.
    { unfold AnimDataFinal.export_textures, AnimData.export_textures.
      by rewrite E, Hsel. }
    apply String.eqb_neq in E.
    assert (head (sc_selection sc) = Some geo) as Hhead by by rewrite Hsel.
    destruct (corrected_export_trace os list_of_set sc g _ meta "datatable" collect_all
                geo t0 Hsub E Hhead) as [-> ->].
    destruct (direct_export_trace os list_of_set sc g (collect_options sc) meta collect_all
                geo t0 E Hhead) as [-> ->].
    split; [|done]. f_equal. apply flat_map_ext. intros target.
    unfold corrected_events, direct_events. f_equal.
    rewrite (corrected_rows_direct sc Ht Hu Hv). simpl.
    destruct (direct_rows sc _ _ _ _ _) as [|row rows] eqn:Hrows; [|done].
    exfalso. unfold direct_rows, frames in Hrows.
    rewrite py_range_cons in Hrows by lia.
    destruct (recorded_cons collect_all
                (direct_state sc (collect_options sc) target.1.2 target.2)
                (py_int (sc_playback_min sc))
                (py_range (py_int (sc_playback_min sc) + 1)
                   (py_int (sc_playback_max sc) + 1))) as [rest Hrec].
    rewrite Hrec in Hrows. done.
Qed.

(** C5, witness: the demo scene without correction nodes, all boxes
    checked, frames 1 to 4. *)
Lemma variants_agree_witness :
  let sc := Demo.eye false Demo.all_checked 1 4 in
  out_trace (AnimDataFinal.export_textures Demo.posix Demo.order_a sc Demo.eye_globals
               (collect_options sc) (collect_meta sc) "datatable" false 0)
  = out_trace (AnimData.export_textures Demo.posix Demo.order_a sc Demo.eye_globals
                 (collect_options sc) (collect_meta sc) false 0).
Proof.
  intros sc.
  destruct (variants_agree Demo.posix Demo.order_a sc Demo.eye_globals (collect_meta sc)
              false eq_refl eq_refl eq_refl) as (_ & _ & _ & H).
  apply (H 0). done.
Defined.

(** ** The curve dictionary of the second variant *)

Lemma empty_curves_lookup options opt :
  opt ∈ options -> AnimDataFinal.empty_curves options !! opt = Some [].
Proof.
  unfold AnimDataFinal.empty_curves.
  assert (forall (m : gmap string (list pyval)),
             fold_left (fun cv o => <[o := []]> cv) options m !! opt
             = if decide (opt ∈ options) then Some [] else m !! opt) as H.
  { induction options as [|o options IH]; intros m.
    - cbn [fold_left]. by rewrite decide_False by apply not_elem_of_nil.
    - cbn [fold_left]. rewrite IH. destruct (decide (opt ∈ options)) as [Hin|Hin].
      + by rewrite decide_True by (by apply list_elem_of_further).
      + destruct (decide (opt = o)) as [->|Hne].
        * rewrite decide_True by apply list_elem_of_here. apply lookup_insert_eq.
        * rewrite decide_False by (by intros [?|?]%elem_of_cons).
          by apply lookup_insert_ne. }
  intros Hin. by rewrite H, decide_True.
Qed.

Lemma append_curves_lookup options (v : string -> pyval) cv opt :
  NoDup options ->
  AnimDataFinal.append_curves options (map v options) cv !! opt
  = if decide (opt ∈ options) then (fun l => l ++ [v opt]) <$> cv !! opt else cv !! opt.
Proof.
  unfold AnimDataFinal.append_curves. revert cv.
  induction options as [|o options IH]; intros cv Hnd.
  - cbn [fold_left map zip_with]. by rewrite decide_False by apply not_elem_of_nil.
  - apply NoDup_cons in Hnd as [Ho Hnd]. cbn [fold_left map zip_with fst snd].
    rewrite (IH _ Hnd).
    destruct (decide (opt = o)) as [->|Hne].
    + rewrite decide_False by done. rewrite decide_True by apply list_elem_of_here.
      apply lookup_alter_eq.
    + rewrite lookup_alter_ne by done.
      destruct (decide (opt ∈ options)) as [Hin|Hin].
      * by rewrite decide_True by (by apply list_elem_of_further).
      * by rewrite decide_False by (by intros [?|?]%elem_of_cons).
Qed.

Lemma curve_fold_lookup options (val : Z -> string -> pyval)
    (rec : list (Z * list pyval)) cv opt :
  NoDup options -> opt ∈ options ->
  (forall fs, fs ∈ rec -> fs.2 = map (val fs.1) options) ->
  fold_left (fun cv fs => AnimDataFinal.append_curves options fs.2 cv) rec cv !! opt
  = (fun l => l ++ map (fun fs => val fs.1 opt) rec) <$> cv !! opt.
Proof.
  intros Hnd Hin. revert cv. induction rec as [|fs rec IH]; intros cv Hrec.
  - simpl. destruct (cv !! opt); simpl; [|done]. by rewrite app_nil_r.
  - simpl. rewrite IH by (intros; apply Hrec; by apply list_elem_of_further).
    rewrite (Hrec fs (list_elem_of_here _ _)).
    rewrite append_curves_lookup by done. rewrite decide_True by done.
    destruct (cv !! opt); simpl; [|done]. by rewrite <- app_assoc.
Qed.

(** C9. The loop of the second variant fills the data-table rows and
    the curve lists together: [curve_frames] is the list of the frame
    cells of the rows, the list of every option is as long as
    [curve_frames] and holds at each position the value sampled at the
    frame of that position, which is also the value in the row of that
    frame; so every row of the curve table has one cell more than there
    are recorded frames.  The export mode is looked at after the loop
    only, when the file is written.  The options are those [run_export]
    collects. *)
Theorem curve_table_frames (os : OsPath) (sc : Scene) (g : Globals) (meta : Meta)
    (collect_all : bool) (geo mat file_node place : string) (start end_ : Z) :
  let options := collect_options sc in
  exists acc,
    (forall t0,
        out_res (AnimDataFinal.frame_loop sc options meta collect_all geo mat file_node
                   place start end_ t0) = Ok acc)
    /\ map (fun f => Some (PNum (AInt f))) (AnimDataFinal.curve_frames acc)
       = map head (AnimDataFinal.rows acc)
    /\ (forall opt, opt ∈ options ->
          exists vals,
            AnimDataFinal.curve_values acc !! opt = Some vals
            /\ length vals = length (AnimDataFinal.curve_frames acc)
            /\ forall (i : nat) f,
                 AnimDataFinal.curve_frames acc !! i = Some f ->
                 vals !! i = Some (corrected_value sc f file_node place opt))
    /\ (forall (i : nat) f,
          AnimDataFinal.curve_frames acc !! i = Some f ->
          AnimDataFinal.rows acc !! i
          = Some (row_prefix meta f geo mat file_node
                  ++ map (corrected_value sc f file_node place) options))
    /\ (forall row, row ∈ AnimDataFinal.curve_table options acc ->
          length row = (1 + length (AnimDataFinal.curve_frames acc))%nat)
    /\ (forall export_mode t,
          enabled_place sc g file_node = Some place ->
          out_trace (AnimDataFinal.export_texture os sc g options meta export_mode
                       collect_all geo start end_ mat file_node t)
          = map CurrentTime (py_range start (end_ + 1))
            ++ [WriteCsv (AnimDataFinal.csv_path os g file_node)
                  (if String.eqb export_mode "datatable"
                   then header options meta :: AnimDataFinal.rows acc
                   else AnimDataFinal.curve_table options acc)]).
Proof.
  intros options. pose proof (collect_options_known sc) as Hsub.
  pose proof (collect_options_NoDup sc) as Hnd. fold options in Hsub, Hnd.
  set (S := corrected_state sc options file_node place).
  set (rec := recorded collect_all S (py_range start (end_ + 1))).
  assert (forall fs, fs ∈ rec ->
            fs.2 = map (corrected_value sc fs.1 file_node place) options) as Hrec.
  { intros fs Hfs. by apply recorded_elem in Hfs as [_ ->]. }
  assert (forall opt, opt ∈ options ->
            fold_left (fun cv fs => AnimDataFinal.append_curves options fs.2 cv) rec
              (AnimDataFinal.empty_curves options) !! opt
            = Some (map (fun fs => corrected_value sc fs.1 file_node place opt) rec))
    as Hcurve.
  { intros opt Hopt.
    rewrite (curve_fold_lookup options (fun f => corrected_value sc f file_node place))
      by done.
    by rewrite empty_curves_lookup. }
  eexists. split; [|split; [|split; [|split; [|split]]]].
  - intros t0. by rewrite (corrected_frame_loop sc _ _ _ _ _ _ _ _ _ _ Hsub).
  - cbn [AnimDataFinal.curve_frames AnimDataFinal.rows]. fold S rec.
    rewrite !map_map. apply map_ext. by intros [f s].
  - intros opt Hopt. cbn [AnimDataFinal.curve_values AnimDataFinal.curve_frames].
    fold S rec. eexists. split; [by apply Hcurve|]. split.
    + by rewrite !length_map.
    + intros i f Hi. apply list_lookup_fmap_Some in Hi as (fs & -> & Hfs).
      change (map ?f rec) with (f <$> rec). by rewrite list_lookup_fmap, Hfs.
  - intros i f Hi. cbn [AnimDataFinal.curve_frames AnimDataFinal.rows] in *.
    fold S rec in Hi |- *.
    apply list_lookup_fmap_Some in Hi as (fs & -> & Hfs).
    change (map ?f rec) with (f <$> rec). rewrite list_lookup_fmap, Hfs. simpl.
    unfold make_row. rewrite (Hrec fs); [done|]. by eapply list_elem_of_lookup_2.
  - intros row. unfold AnimDataFinal.curve_table.
    cbn [AnimDataFinal.curve_values AnimDataFinal.curve_frames]. fold S rec.
    intros [->|Hrow]%elem_of_cons.
    + simpl. by rewrite !length_map.
    + apply list_elem_of_fmap in Hrow as (opt & -> & Hopt).
      rewrite (Hcurve opt Hopt). simpl. by rewrite !length_map.
  - intros export_mode t Hplace. unfold AnimDataFinal.export_texture.
    unfold enabled_place in Hplace.
    destruct (TEXTURE_CHECKBOXES g !! file_node) as [cb|]; [|done].
    destruct (sc_checkBox sc cb); [|done]. simpl.
    destruct (get_place2d sc file_node) as [place'|]; [|done].
    destruct (String.eqb place' ""); [done|]. injection Hplace as ->.
    rewrite (bind_out _ _ _ _ _ _
      (corrected_frame_loop sc options meta collect_all geo mat file_node place
         start end_ t Hsub)).
    fold S rec. by destruct (String.eqb export_mode "datatable").
Qed.

(** C9, witness: the iris texture of the demo scene is enabled and has
    a place2d node; in curve mode its file holds the curve table of the
    loop state. *)
Lemma curve_table_frames_witness :
  let sc := Demo.eye false Demo.offsets_checked 1 5 in
  exists acc,
    out_trace (AnimDataFinal.export_texture Demo.posix sc Demo.eye_globals
                 (collect_options sc) (collect_meta sc) "curve" false "eyeGeo" 1 5
                 "eyeMat" "iris_file" 0)
    = map CurrentTime (py_range 1 (5 + 1))
      ++ [WriteCsv (AnimDataFinal.csv_path Demo.posix Demo.eye_globals "iris_file")
            (AnimDataFinal.curve_table (collect_options sc) acc)].
Proof.
  intros sc.
  destruct (curve_table_frames Demo.posix sc Demo.eye_globals (collect_meta sc) false
              "eyeGeo" "eyeMat" "iris_file" "place_iris" 1 5)
    as (acc & _ & _ & _ & _ & _ & H).
  exists acc. apply (H "curve" 0). vm_compute. reflexivity.
Defined.

(** C9, run on the demo scene in changes-only mode: frames 1 and 3 are
    recorded, in the rows and in the curve lists alike. *)
Example curve_table_demo :
  let sc := Demo.eye false Demo.offsets_checked 1 5 in
  let acc := AnimDataFinal.frame_loop sc (collect_options sc) (collect_meta sc) false
               "eyeGeo" "eyeMat" "iris_file" "place_iris" 1 5 0 in
  out_res (out_rows acc)
  = Ok [[PNum (AInt 1); PStr "eyeMat"; PNum (AFloat 0); PNum (AFloat 0)];
        [PNum (AInt 3); PStr "eyeMat"; PNum (AFloat (1 # 2)); PNum (AFloat 0)]]
  /\ match out_res acc with
     | Ok a => AnimDataFinal.curve_table (collect_options sc) a
     | Raise _ => []
     end
     = [[PStr ""; PNum (AInt 1); PNum (AInt 3)];
        [PStr "OffsetU"; PNum (AFloat 0); PNum (AFloat (1 # 2))];
        [PStr "OffsetV"; PNum (AFloat 0); PNum (AFloat 0)]].
Proof. split; reflexivity. Qed.

(** ** The files of an export *)

Lemma Forall2_map_self {A B} (P : A -> B -> Prop) (f : A -> B) (l : list A) :
  (forall x, x ∈ l -> P x (f x)) -> Forall2 P l (map f l).
Proof.
  induction l as [|x l IH]; intros H; [constructor|].
  simpl. constructor; [apply H, list_elem_of_here|].
  apply IH. intros y Hy. by apply H, list_elem_of_further.
Qed.

Lemma flat_map_singleton {A B} (f : A -> B) (l : list A) :
  flat_map (fun x => [f x]) l = map f l.
Proof. induction l as [|x l IH]; [done|]. simpl. by rewrite IH. Qed.

Lemma length_header options meta :
  length (header options meta)
  = (length (row_prefix meta 0 "" "" "") + length options)%nat.
Proof.
  unfold header, row_prefix.
  destruct (meta_geo meta), (meta_mat meta), (meta_file meta);
    simpl; by rewrite length_map.
Qed.

(** The header and the rows built from recorded frames form a data
    table. *)
Lemma data_table_recorded options meta (value : Z -> string -> pyval)
    geo mat file_node frs collect_all :
  data_table options meta value geo mat file_node frs
    (header options meta
     :: map (make_row meta geo mat file_node)
          (recorded collect_all (fun f => map (value f) options) frs)).
Proof.
  eexists. split; [done|]. intros row Hrow.
  apply list_elem_of_fmap in Hrow as (fs & -> & Hfs).
  apply recorded_elem in Hfs as [Hf HS]. unfold make_row. rewrite HS. split.
  - rewrite length_app, length_map, length_header.
    by rewrite (length_row_prefix meta fs.1 geo mat file_node).
  - by exists fs.1.
Qed.

Lemma header_columns sc meta :
  header (collect_options sc) meta
  = PStr "Frame"
    :: map PStr
         (omap (fun lb : string * bool => if lb.2 then Some lb.1 else None)
            [("Geometry", meta_geo meta); ("Material", meta_mat meta);
             ("FileTexture", meta_file meta)]
          ++ omap (fun kc : string * string =>
                     if sc_checkBox sc kc.2 then Some kc.1 else None) OPTION_TABLE).
Proof.
  assert (omap (fun kc : string * string =>
                  if sc_checkBox sc kc.2 then Some kc.1 else None) OPTION_TABLE
          = collect_options sc) as ->.
  { unfold collect_options, OPTION_TABLE. simpl.
    by destruct (sc_checkBox sc "cb_img"), (sc_checkBox sc "cb_ou"),
      (sc_checkBox sc "cb_ov"), (sc_checkBox sc "cb_su"), (sc_checkBox sc "cb_sv"),
      (sc_checkBox sc "cb_r"). }
  unfold header. rewrite map_app.
  by destruct (meta_geo meta), (meta_mat meta), (meta_file meta).
Qed.

(** C6, as the code has it.  An export with an export path and a
    selection writes one table for every visit of an enabled texture
    that has a place2d node, in the order of the visits, at the path
    made of the directory of the export path and of its base name
    without extension, an underscore, the file node and ".csv".  The
    first row of a data table is the header: "Frame", the enabled
    metadata labels in the order Geometry, Material, FileTexture, the
    enabled option names in the order of the option table; every other
    row is as wide as the header and holds the frame, the metadata and
    the option values in the order of the header.  The first variant
    writes no file for a texture without rows, which is the case exactly
    when the playback range holds no frame; the second variant writes
    the table always. *)
Theorem one_table_per_texture (os : OsPath) (list_of_set : gset string -> list string)
    (sc : Scene) (g : Globals) (meta : Meta) (collect_all : bool) (geo : string) (t : Z) :
  EXPORT_PATH g <> "" -> head (sc_selection sc) = Some geo ->
  let options := collect_options sc in
  let playback :=
    py_range (py_int (sc_playback_min sc)) (py_int (sc_playback_max sc) + 1) in
  let path file_node :=
    join os (dirname os (EXPORT_PATH g))
      ((splitext os (basename os (EXPORT_PATH g))).1 +:+ "_" +:+ file_node +:+ ".csv") in
  header options meta
  = PStr "Frame"
    :: map PStr
         (omap (fun lb : string * bool => if lb.2 then Some lb.1 else None)
            [("Geometry", meta_geo meta); ("Material", meta_mat meta);
             ("FileTexture", meta_file meta)]
          ++ omap (fun kc : string * string =>
                     if sc_checkBox sc kc.2 then Some kc.1 else None) OPTION_TABLE)
  /\ Forall2
       (fun (target : string * string * string) (w : string * list (list pyval)) =>
          w.1 = path target.1.2
          /\ data_table options meta
               (fun f => corrected_value sc f target.1.2 target.2)
               geo target.1.1 target.1.2 playback w.2)
       (targets list_of_set sc g geo)
       (writes (out_trace (AnimDataFinal.export_textures os list_of_set sc g options meta
                             "datatable" collect_all t)))
  /\ (playback <> [] ->
      Forall2
        (fun (target : string * string * string) (w : string * list (list pyval)) =>
           w.1 = path target.1.2
           /\ data_table options meta
                (fun f => direct_value sc f target.1.2 target.2)
                geo target.1.1 target.1.2 playback w.2)
        (targets list_of_set sc g geo)
        (writes (out_trace (AnimData.export_textures os list_of_set sc g options meta
                              collect_all t))))
  /\ (playback = [] ->
      writes (out_trace (AnimData.export_textures os list_of_set sc g options meta
                           collect_all t)) = []).
Proof.
  intros Hpath Hsel options playback path.
  pose proof (collect_options_known sc) as Hsub. fold options in Hsub.
  split; [apply header_columns|]. split; [|split].
  - destruct (corrected_export_trace os list_of_set sc g options meta "datatable"
                collect_all geo t Hsub Hpath Hsel) as [-> _].
    rewrite writes_app, writes_flat_map. simpl. rewrite app_nil_r.
    unfold corrected_events. simpl.
    erewrite flat_map_ext; [|intros target; rewrite writes_app, writes_CurrentTime; done].
    simpl. rewrite flat_map_singleton. apply Forall2_map_self.
    intros target _. split; [done|]. simpl.
    apply data_table_recorded.
  - intros Hne.
    destruct (direct_export_trace os list_of_set sc g options meta collect_all geo t
                Hpath Hsel) as [-> _].
    rewrite writes_app, writes_flat_map. simpl. rewrite app_nil_r.
    assert (forall target,
              writes (direct_events os sc g options meta collect_all geo target)
              = [(path target.1.2,
                  header options meta
                  :: map (make_row meta geo target.1.1 target.1.2)
                       (recorded collect_all
                          (fun f => map (direct_value sc f target.1.2 target.2) options)
                          playback))]) as Hw.
    { intros target. unfold direct_events, direct_rows, direct_state, frames.
      fold playback. unfold options at 1 2. rewrite selected_collect_options.
      fold options. rewrite writes_app, writes_CurrentTime.
      destruct playback as [|f frs]; [done|].
      destruct (recorded_cons collect_all
                  (fun f => map (direct_value sc f target.1.2 target.2) options) f frs)
        as [rest ->].
      done. }
    erewrite flat_map_ext; [|intros target; apply Hw].
    rewrite flat_map_singleton. apply Forall2_map_self.
    intros target _. split; [done|]. simpl. apply data_table_recorded.
  - intros Hnil.
    destruct (direct_export_trace os list_of_set sc g options meta collect_all geo t
                Hpath Hsel) as [-> _].
    rewrite writes_app, writes_flat_map. simpl. rewrite app_nil_r.
    rewrite (flat_map_ext _ (fun _ => [])).
    + by induction (targets list_of_set sc g geo).
    + intros target. unfold direct_events, direct_rows, frames. fold playback.
      rewrite Hnil. done.
Qed.

(** C6, witness: the demo export over the frames 1 to 4 writes one file,
    "/tmp/out_iris_file.csv". *)
Lemma one_table_per_texture_witness :
  let sc := Demo.eye false Demo.all_checked 1 4 in
  map fst (writes (out_trace (AnimData.export_textures Demo.posix Demo.order_a sc
                                Demo.eye_globals (collect_options sc) (collect_meta sc)
                                false 0)))
  = ["/tmp/out_iris_file.csv"].
Proof.
  intros sc.
  pose proof (one_table_per_texture Demo.posix Demo.order_a sc Demo.eye_globals
                (collect_meta sc) false "eyeGeo" 0) as H.
  cbv zeta in H.
  destruct H as (_ & _ & H & _);
    [vm_compute; discriminate | vm_compute; reflexivity |].
  assert (py_range (py_int (sc_playback_min sc)) (py_int (sc_playback_max sc) + 1) <> [])
    as Hne by (vm_compute; discriminate).
  specialize (H Hne). clear Hne.
  assert (targets Demo.order_a sc Demo.eye_globals "eyeGeo"
          = [("eyeMat", "iris_file", "place_iris")]) as Ht by (vm_compute; reflexivity).
  rewrite Ht in H. clear Ht.
  remember (writes (out_trace (AnimData.export_textures Demo.posix Demo.order_a sc
                                 Demo.eye_globals (collect_options sc) (collect_meta sc)
                                 false 0))) as ws eqn:Hws.
  clear Hws.
  destruct ws as [|w ws]; [inversion H|].
  apply Forall2_cons_1 in H as [[Hw _] Hrest].
  apply Forall2_nil_inv_l in Hrest as ->.
  cbn [map]. rewrite Hw. vm_compute. reflexivity.
Defined.

(** C6, counterexample to the claim as worded: a host whose playback
    range holds no frame (minimum 5, maximum 1).  The iris texture is
    enabled and has a place2d node, and the first variant writes no file
    for it. *)
Lemma one_table_per_texture_counterexample :
  let sc := Demo.eye false Demo.all_checked 5 1 in
  EXPORT_PATH Demo.eye_globals <> ""
  /\ targets Demo.order_a sc Demo.eye_globals "eyeGeo"
     = [("eyeMat", "iris_file", "place_iris")]
  /\ AnimData.export_textures Demo.posix Demo.order_a sc Demo.eye_globals
       (collect_options sc) (collect_meta sc) true 0
     = mkOut 0 [InViewMessage "<hl>Texture export complete</hl>"] (Ok tt).
Proof. split; [vm_compute; discriminate|]. split; vm_compute; reflexivity. Qed.

(** ** Runs that agree *)

Lemma agree_refl_pure {A} (m : M A) tr r :
  (forall t, m t = mkOut t tr r) -> agree m m.
Proof. intros H t t'. rewrite !H. simpl. auto. Qed.

Lemma agree_ret {A} (a : A) : agree (ret a) (ret a).
Proof. by apply (agree_refl_pure _ [] (Ok a)). Qed.

Lemma agree_emit e : agree (emit e) (emit e).
Proof. by apply (agree_refl_pure _ [e] (Ok tt)). Qed.

Lemma agree_bind {A B} (m m' : M A) (k k' : A -> M B) :
  agree m m' -> (forall a, agree (k a) (k' a)) -> agree (bind m k) (bind m' k').
Proof.
  intros Hm Hk t t'. unfold bind.
  destruct (Hm t t') as (Htr & Hres & Htime).
  destruct (m t) as [t1 tr1 r1], (m' t') as [t1' tr1' r1']. simpl in *. subst.
  destruct r1' as [a|e]; simpl; [|auto].
  destruct Htime as [->|[-> ->]].
  - destruct (Hk a t1' t1') as (Htr & Hres & Htime). rewrite Htr, Hres.
    split; [done|]. split; [done|]. left. by destruct Htime as [?|[-> ->]].
  - destruct (Hk a t t') as (Htr & Hres & Htime). by rewrite Htr, Hres.
Qed.

(** After the time is set, what follows runs from the same time. *)
Lemma agree_currentTime_bind {A} (f : Z) (k k' : unit -> M A) :
  k tt f = k' tt f -> agree (bind (currentTime f) k) (bind (currentTime f) k').
Proof. intros H t t'. unfold bind, currentTime. simpl. rewrite H. auto. Qed.

Lemma agree_foldM {A St} (body body' : St -> A -> M St) (l : list A) :
  (forall s x, x ∈ l -> agree (body s x) (body' s x)) ->
  forall s, agree (foldM body l s) (foldM body' l s).
Proof.
  induction l as [|x l IH]; intros H s; [apply agree_ret|].
  simpl. apply agree_bind; [apply H, list_elem_of_here|].
  intros s'. apply IH. intros s'' y Hy. by apply H, list_elem_of_further.
Qed.

Lemma agree_for_each {A} (l : list A) (body body' : A -> M unit) :
  (forall x, agree (body x) (body' x)) -> agree (for_each l body) (for_each l body').
Proof.
  intros H. induction l as [|x l IH]; [apply agree_ret|].
  simpl. apply agree_bind; [apply H | by intros _].
Qed.

Section SameAnswers.
Variable os : OsPath.
Variable list_of_set : gset string -> list string.
Variable sc sc' : Scene.
Variable g : Globals.
Hypothesis static : same_static sc sc'.

Hypothesis sampled :
  forall f plug,
    py_int (sc_playback_min sc) <= f <= py_int (sc_playback_max sc) ->
    sc_attr sc f plug = sc_attr sc' f plug.

Lemma same_attr f plug : f ∈ frames sc -> sc_attr sc f plug = sc_attr sc' f plug.
Proof. intros Hf. apply elem_of_py_range in Hf. apply sampled. lia. Qed.

Lemma same_materials geo :
  get_materials_from_geo sc list_of_set geo = get_materials_from_geo sc' list_of_set geo.
Proof.
  destruct static as (_ & H1 & H2 & H3 & _).
  unfold get_materials_from_geo. by rewrite H1, H2, H3.
Qed.

Lemma same_textures mat :
  get_file_textures_from_material sc mat = get_file_textures_from_material sc' mat.
Proof.
  destruct static as (_ & _ & _ & _ & H4 & H5 & _).
  unfold get_file_textures_from_material. by rewrite H4, H5.
Qed.

Lemma same_place2d file_node : get_place2d sc file_node = get_place2d sc' file_node.
Proof.
  destruct static as (_ & _ & _ & H3 & _). unfold get_place2d. by rewrite H3.
Qed.

Lemma same_active_image f file_node :
  f ∈ frames sc ->
  active_image_at sc f file_node = active_image_at sc' f file_node.
Proof.
  intros Hf. destruct static as (_ & _ & _ & _ & _ & _ & H6 & _).
  unfold active_image_at. by rewrite H6, !(same_attr f _ Hf).
Qed.

Lemma same_offset_uv f file_node place :
  f ∈ frames sc ->
  offset_uv_at sc f file_node place = offset_uv_at sc' f file_node place.
Proof.
  intros Hf. destruct static as (_ & _ & _ & _ & _ & _ & _ & H7 & _).
  unfold offset_uv_at. rewrite H7. cbv zeta.
  destruct (first_match _ _); [by rewrite !(same_attr f _ Hf)|].
  destruct (sc_ls sc' _ _); by rewrite !(same_attr f _ Hf).
Qed.

Lemma same_scale_uv f file_node place :
  f ∈ frames sc ->
  scale_uv_at sc f file_node place = scale_uv_at sc' f file_node place.
Proof.
  intros Hf. destruct static as (_ & _ & _ & _ & _ & _ & _ & H7 & _).
  unfold scale_uv_at, scale_at. rewrite H7.
  by destruct (last (keyword_hits _ (sc_ls sc' "ScaleU_corr_*" _))),
    (last (keyword_hits _ (sc_ls sc' "ScaleV_corr_*" _)));
    rewrite !(same_attr f _ Hf).
Qed.

Lemma same_direct_state options file_node place f :
  f ∈ frames sc ->
  direct_state sc options file_node place f = direct_state sc' options file_node place f.
Proof.
  intros Hf. unfold direct_state. apply map_ext. intros o. unfold direct_value.
  by rewrite (same_active_image f file_node Hf), !(same_attr f _ Hf).
Qed.

Lemma same_current options file_node place f :
  f ∈ frames sc ->
  current_at sc options file_node place f = current_at sc' options file_node place f.
Proof.
  intros Hf. unfold current_at.
  by rewrite (same_active_image f file_node Hf), (same_offset_uv f file_node place Hf),
    (same_scale_uv f file_node place Hf), (same_attr f _ Hf).
Qed.

Lemma agree_direct_export options meta collect_all :
  agree (AnimData.export_textures os list_of_set sc g options meta collect_all)
        (AnimData.export_textures os list_of_set sc' g options meta collect_all).
Proof.
  unfold AnimData.export_textures.
  destruct (String.eqb (EXPORT_PATH g) ""); [apply agree_emit|].
  pose proof static as (Hsel & _ & _ & _ & _ & _ & _ & _ & Hmin & Hmax & Hcb & _).
  rewrite <- Hsel, <- Hmin, <- Hmax.
  destruct (sc_selection sc) as [|geo sel]; [apply agree_emit|].
  cbv zeta. rewrite <- same_materials.
  apply agree_bind; [|intros _; apply agree_emit].
  apply agree_for_each. intros mat. rewrite <- same_textures.
  apply agree_for_each. intros file_node.
  unfold AnimData.export_texture. rewrite <- Hcb, <- same_place2d.
  destruct (TEXTURE_CHECKBOXES g !! file_node) as [cb|]; [|apply agree_ret].
  destruct (negb (sc_checkBox sc cb)); [apply agree_ret|].
  destruct (get_place2d sc file_node) as [place|]; [|apply agree_ret].
  destruct (String.eqb place ""); [apply agree_ret|].
  apply agree_bind.
  - unfold AnimData.frame_loop. apply agree_bind; [|intros acc; apply agree_ret].
    apply agree_foldM. intros acc f Hf. unfold AnimData.frame_body.
    apply agree_currentTime_bind.
    rewrite !(bind_reads _ _ _ (reads_direct_sample _ options file_node place)).
    by rewrite (same_direct_state options file_node place f Hf).
  - intros rows. destruct rows; [apply agree_ret | apply agree_emit].
Qed.

Lemma agree_corrected_export options meta export_mode collect_all :
  agree (AnimDataFinal.export_textures os list_of_set sc g options meta export_mode
           collect_all)
        (AnimDataFinal.export_textures os list_of_set sc' g options meta export_mode
           collect_all).
Proof.
  unfold AnimDataFinal.export_textures.
  destruct (String.eqb (EXPORT_PATH g) ""); [apply agree_emit|].
  pose proof static as (Hsel & _ & _ & _ & _ & _ & _ & _ & Hmin & Hmax & Hcb & _).
  rewrite <- Hsel, <- Hmin, <- Hmax.
  destruct (sc_selection sc) as [|geo sel]; [apply agree_emit|].
  cbv zeta. rewrite <- same_materials.
  apply agree_bind; [|intros _; apply agree_emit].
  apply agree_for_each. intros mat. rewrite <- same_textures.
  apply agree_for_each. intros file_node.
  unfold AnimDataFinal.export_texture. rewrite <- Hcb, <- same_place2d.
  destruct (TEXTURE_CHECKBOXES g !! file_node) as [cb|]; [|apply agree_ret].
  destruct (negb (sc_checkBox sc cb)); [apply agree_ret|].
  destruct (get_place2d sc file_node) as [place|]; [|apply agree_ret].
  destruct (String.eqb place ""); [apply agree_ret|].
  apply agree_bind.
  - unfold AnimDataFinal.frame_loop.
    apply agree_foldM. intros acc f Hf. unfold AnimDataFinal.frame_body.
    apply agree_currentTime_bind.
    rewrite !(bind_reads _ _ _ (reads_corrected_sample _ options file_node place)).
    by rewrite (same_current options file_node place f Hf).
  - intros acc. destruct (String.eqb export_mode "datatable"); apply agree_emit.
Qed.
End SameAnswers.

(** Apart from the order in which the set of materials is iterated, an
    export is determined by the answers of the host.  For one iteration
    order, two runs of [export_textures] on hosts that answer alike
    (the same selection, scene graph, listings, playback range and
    checkbox states, and the same attribute values at every frame of the
    playback range) make the same calls in the same order, with the same
    paths and the same tables, and end alike; the current time at the
    start and the attribute values outside the playback range have no
    influence. *)
Theorem export_deterministic (os : OsPath) (list_of_set : gset string -> list string)
    (sc sc' : Scene) (g : Globals) (options : list string) (meta : Meta)
    (export_mode : string) (collect_all : bool) (t t' : Z) :
  same_static sc sc' ->
  (forall f plug,
      py_int (sc_playback_min sc) <= f <= py_int (sc_playback_max sc) ->
      sc_attr sc f plug = sc_attr sc' f plug) ->
  (out_trace (AnimData.export_textures os list_of_set sc g options meta collect_all t)
   = out_trace (AnimData.export_textures os list_of_set sc' g options meta collect_all t')
   /\ out_res (AnimData.export_textures os list_of_set sc g options meta collect_all t)
      = out_res (AnimData.export_textures os list_of_set sc' g options meta collect_all t'))
  /\ (out_trace (AnimDataFinal.export_textures os list_of_set sc g options meta export_mode
                   collect_all t)
      = out_trace (AnimDataFinal.export_textures os list_of_set sc' g options meta
                     export_mode collect_all t')
      /\ out_res (AnimDataFinal.export_textures os list_of_set sc g options meta export_mode
                    collect_all t)
         = out_res (AnimDataFinal.export_textures os list_of_set sc' g options meta
                      export_mode collect_all t')).
Proof.
  intros Hstatic Hattr. split.
  - destruct (agree_direct_export os list_of_set sc sc' g Hstatic Hattr options meta
                collect_all t t') as (Htr & Hres & _).
    done.
  - destruct (agree_corrected_export os list_of_set sc sc' g Hstatic Hattr options meta
                export_mode collect_all t t') as (Htr & Hres & _).
    done.
Qed.

(** The same at the demo host, and the same host with other attribute
    values after the playback range, started at other times. *)
Lemma export_deterministic_witness :
  let sc := Demo.eye true Demo.all_checked 1 4 in
  let sc' := Demo.with_attr sc Demo.eye_attr_late in
  out_trace (AnimDataFinal.export_textures Demo.posix Demo.order_a sc Demo.eye_globals
               ["OffsetU"; "ScaleU"] (collect_meta sc) "curve" false 0)
  = out_trace (AnimDataFinal.export_textures Demo.posix Demo.order_a sc' Demo.eye_globals
                 ["OffsetU"; "ScaleU"] (collect_meta sc) "curve" false 7).
Proof.
  intros sc sc'.
  apply (export_deterministic Demo.posix Demo.order_a sc sc' Demo.eye_globals
           ["OffsetU"; "ScaleU"] (collect_meta sc) "curve" false 0 7).
  - repeat split.
  - intros f plug Hf. change (1 <= f <= 4) in Hf.
    change (Demo.eye_attr f plug = if Z.leb f 4 then Demo.eye_attr f plug else AInt 99).
    destruct (Z.leb_spec f 4); [done | lia].
Defined.

(** C7. The claim fails on the code.  [get_materials_from_geo] answers
    [list(materials)] of a set, in the iteration order of the
    interpreter, where [get_file_textures_from_material] and
    [refresh_texture_list] sort their sets.  On a mesh with two
    materials that share one file texture the file of the texture is
    written once for each material and the last write stays: with the
    same answers of the host, the run that iterates the set as skin,
    lip and the run that iterates it as lip, skin leave files with
    different contents.  Both orders are iteration orders of the
    set. *)
Theorem export_order_dependent :
  (forall s, Demo.order_a s ≡ₚ elements s)
  /\ (forall s, Demo.order_b s ≡ₚ elements s)
  /\ file_contents
       (out_trace (AnimData.run_export Demo.posix Demo.order_a Demo.shared
                     Demo.shared_globals 0)) "/tmp/out_tex.csv"
     = Some [[PStr "Frame"; PStr "Material"; PStr "OffsetU"];
             [PNum (AInt 1); PStr "skin"; PNum (AFloat 0)]]
  /\ file_contents
       (out_trace (AnimData.run_export Demo.posix Demo.order_b Demo.shared
                     Demo.shared_globals 0)) "/tmp/out_tex.csv"
     = Some [[PStr "Frame"; PStr "Material"; PStr "OffsetU"];
             [PNum (AInt 1); PStr "lip"; PNum (AFloat 0)]]
  /\ file_contents
       (out_trace (AnimDataFinal.run_export Demo.posix Demo.order_a Demo.shared
                     Demo.shared_globals 0)) "/tmp/out_tex.csv"
     <> file_contents
          (out_trace (AnimDataFinal.run_export Demo.posix Demo.order_b Demo.shared
                        Demo.shared_globals 0)) "/tmp/out_tex.csv".
Proof.
  split; [|split; [|split; [|split]]].
  - intros s. apply merge_sort_Permutation.
  - intros s. unfold Demo.order_b. rewrite reverse_Permutation || rewrite <- Permutation_rev.
    apply merge_sort_Permutation.
  - vm_compute. reflexivity.
  - vm_compute. reflexivity.
  - vm_compute. discriminate.
Qed.

(** ** Scene queries *)

Lemma string_compare_refl s : String.compare s s = Eq.
Proof.
  induction s as [|c s IH]; [done|]. simpl.
  unfold Ascii.compare. by rewrite N.compare_refl.
Qed.

Lemma string_compare_lt_trans s1 s2 s3 :
  String.compare s1 s2 = Lt -> String.compare s2 s3 = Lt -> String.compare s1 s3 = Lt.
Proof.
  revert s2 s3. induction s1 as [|c1 s1 IH]; intros [|c2 s2] [|c3 s3]; simpl; try done.
  unfold Ascii.compare.
  destruct (N.compare_spec (N_of_ascii c1) (N_of_ascii c2)) as [E12|L12|G12]; [| |done];
    destruct (N.compare_spec (N_of_ascii c2) (N_of_ascii c3)) as [E23|L23|G23];
    try done; intros H1 H2.
  - rewrite E12, E23, N.compare_refl. by eapply IH.
  - rewrite E12. by rewrite (proj2 (N.compare_lt_iff _ _) L23).
  - rewrite <- E23. by rewrite (proj2 (N.compare_lt_iff _ _) L12).
  - assert (N_of_ascii c1 < N_of_ascii c3)%N as L13 by lia.
    by rewrite (proj2 (N.compare_lt_iff _ _) L13).
Qed.

#[global] Instance str_le_trans : Transitive str_le.
Proof.
  intros s1 s2 s3. unfold str_le, String.leb. intros H1 H2.
  destruct (String.compare s1 s2) eqn:E12; [| |done].
  - apply String.compare_eq_iff in E12. by subst.
  - destruct (String.compare s2 s3) eqn:E23; [| |done].
    + apply String.compare_eq_iff in E23. subst. by rewrite E12.
    + by rewrite (string_compare_lt_trans s1 s2 s3).
Qed.

#[global] Instance str_le_total : Total str_le.
Proof. intros s1 s2. apply String.leb_total. Qed.

#[global] Instance str_le_antisym : AntiSymm (=) str_le.
Proof. intros s1 s2. apply String.leb_antisym. Qed.

Lemma elem_of_sorted (s : gset string) x : x ∈ sorted s <-> x ∈ s.
Proof. unfold sorted. by rewrite merge_sort_Permutation, elem_of_elements. Qed.

Lemma NoDup_sorted (s : gset string) : NoDup (sorted s).
Proof. unfold sorted. rewrite merge_sort_Permutation. apply NoDup_elements. Qed.

Lemma StronglySorted_sorted (s : gset string) : StronglySorted str_le (sorted s).
Proof. apply StronglySorted_merge_sort; apply _. Qed.

Section QueryFacts.
Variable sc : Scene.

Lemma file_set_elem (history : list string) (files : gset string) x :
  x ∈ fold_left (fun (files : gset string) h =>
                   if String.eqb (sc_node_type sc h) "file" then files ∪ {[h]} else files)
        history files
  <-> x ∈ files \/ (x ∈ history /\ sc_node_type sc x = "file").
Proof.
  revert files. induction history as [|h history IH]; intros files.
  - simpl. split; [auto|]. intros [H|[H _]]; [done|]. by apply elem_of_nil in H.
  - simpl. rewrite IH. destruct (String.eqb_spec (sc_node_type sc h) "file") as [E|E].
    + rewrite elem_of_union, elem_of_singleton, elem_of_cons.
      intuition (subst; auto).
    + rewrite elem_of_cons. intuition (subst; auto; done).
Qed.

Lemma material_set_elem (sgs : list string) (materials : gset string) x :
  x ∈ fold_left (fun (materials : gset string) sg =>
                   materials ∪ list_to_set (sc_sources sc (sg +:+ ".surfaceShader")))
        sgs materials
  <-> x ∈ materials
      \/ exists sg, sg ∈ sgs /\ x ∈ sc_sources sc (sg +:+ ".surfaceShader").
Proof.
  revert materials. induction sgs as [|sg sgs IH]; intros materials.
  - simpl. split; [auto|]. intros [H|(sg & H & _)]; [done|]. by apply elem_of_nil in H.
  - simpl. rewrite IH, elem_of_union, elem_of_list_to_set. split.
    + intros [[H|H]|(sg' & H1 & H2)]; [by left | right | right].
      * exists sg. split; [apply list_elem_of_here | done].
      * exists sg'. split; [by apply list_elem_of_further | done].
    + intros [H|(sg' & H1 & H2)]; [by left; left|].
      apply elem_of_cons in H1 as [->|H1]; [by left; right|].
      right. by exists sg'.
Qed.

Lemma shape_set_elem (shapes : list string) (materials : gset string) x :
  x ∈ fold_left (fun (materials : gset string) s =>
                   fold_left (fun (materials : gset string) sg =>
                                materials
                                ∪ list_to_set (sc_sources sc (sg +:+ ".surfaceShader")))
                     (sc_shading_engines sc (s +:+ ".instObjGroups[0]")) materials)
        shapes materials
  <-> x ∈ materials
      \/ exists s sg,
           s ∈ shapes /\ sg ∈ sc_shading_engines sc (s +:+ ".instObjGroups[0]")
           /\ x ∈ sc_sources sc (sg +:+ ".surfaceShader").
Proof.
  revert materials. induction shapes as [|s shapes IH]; intros materials.
  - simpl. split; [auto|]. intros [H|(s & sg & H & _)]; [done|]. by apply elem_of_nil in H.
  - simpl. rewrite IH, material_set_elem. split.
    + intros [[H|(sg & H1 & H2)]|(s' & sg & H1 & H2 & H3)]; [by left | right | right].
      * exists s, sg. split; [apply list_elem_of_here | done].
      * exists s', sg. split; [by apply list_elem_of_further | done].
    + intros [H|(s' & sg & H1 & H2 & H3)]; [by left; left|].
      apply elem_of_cons in H1 as [->|H1]; [left; right; by exists sg|].
      right. by exists s', sg.
Qed.
End QueryFacts.

(** X1. [get_file_textures_from_material] answers exactly the nodes of
    the material's history whose type is "file", each once, in
    ascending order of their names. *)
Theorem file_textures_sorted_set (sc : Scene) (material : string) :
  (forall x, x ∈ get_file_textures_from_material sc material
             <-> x ∈ sc_history sc material /\ sc_node_type sc x = "file")
  /\ NoDup (get_file_textures_from_material sc material)
  /\ StronglySorted str_le (get_file_textures_from_material sc material).
Proof.
  unfold get_file_textures_from_material. split; [|split].
  - intros x. rewrite elem_of_sorted, file_set_elem. split; [|auto].
    intros [H|H]; [|done]. by apply elem_of_empty in H.
  - apply NoDup_sorted.
  - apply StronglySorted_sorted.
Qed.

(** X2. Whatever order the interpreter iterates a set in,
    [get_materials_from_geo] answers each material once, and a
    material is answered exactly when it is the surface shader of a
    shading engine of a shape of the geometry. *)
Theorem materials_of_geo (sc : Scene) (list_of_set : gset string -> list string)
    (geo : string) :
  (forall s, list_of_set s ≡ₚ elements s) ->
  NoDup (get_materials_from_geo sc list_of_set geo)
  /\ forall mat,
       mat ∈ get_materials_from_geo sc list_of_set geo
       <-> exists s sg,
             s ∈ sc_shapes sc geo
             /\ sg ∈ sc_shading_engines sc (s +:+ ".instObjGroups[0]")
             /\ mat ∈ sc_sources sc (sg +:+ ".surfaceShader").
Proof.
  intros Hperm. unfold get_materials_from_geo. split.
  - rewrite Hperm. apply NoDup_elements.
  - intros mat. rewrite Hperm, elem_of_elements, shape_set_elem. split; [|auto].
    intros [H|H]; [|done]. by apply elem_of_empty in H.
Qed.

(** X2, witness: the mesh of the demo scene with two materials. *)
Lemma materials_of_geo_witness :
  NoDup (get_materials_from_geo Demo.shared Demo.order_b "face").
Proof.
  apply (materials_of_geo Demo.shared Demo.order_b "face").
  intros s. unfold Demo.order_b. rewrite <- Permutation_rev.
  apply merge_sort_Permutation.
Defined.

(** ** Keywords and options *)

Lemma prefix_spec k s : String.prefix k s = true <-> exists post, s = k +:+ post.
Proof.
  revert s. induction k as [|c k IH]; intros s.
  - simpl. split; [|by destruct s]. intros _. by exists s.
  - destruct s as [|c' s]; simpl.
    + split; [done|]. by intros [post H].
    + destruct (ascii_dec c c') as [->|Hne].
      * rewrite IH. split; intros [post H]; exists post; [by rewrite H|].
        by injection H.
      * split; [done|]. intros [post H]. injection H as H _. done.
Qed.

(** [contains] is the substring test. *)
Lemma contains_spec k s :
  contains k s = true <-> exists pre post, s = pre +:+ k +:+ post.
Proof.
  induction s as [|c s IH].
  - change (contains k "") with (String.prefix k "" || false).
    rewrite orb_false_r, prefix_spec. split.
    + intros [post H]. by exists "", post.
    + intros ([|c pre] & post & H); [by exists post|]. done.
  - change (contains k (String c s)) with (String.prefix k (String c s) || contains k s).
    rewrite orb_true_iff, prefix_spec, IH. split.
    + intros [[post H]|(pre & post & H)].
      * by exists "", post.
      * exists (String c pre), post. simpl. by rewrite H.
    + intros ([|c' pre] & post & H).
      * left. by exists post.
      * right. injection H as _ H. by exists pre, post.
Qed.

Lemma lower_eq_empty s : String.eqb (lower s) "" = String.eqb s "".
Proof. by destruct s. Qed.

(** X3. The keys [_keyword_from_names] answers are the keywords found
    in the file-node name followed by those found in the place2d-node
    name, each group in the order iris, pupil, eye; a keyword is among
    them exactly when it occurs in the lowercase form of one of the two
    names, so there are at most six keys and an empty name gives none. *)
Theorem keyword_from_names_spec (file_node place_node : string) :
  exists from_file from_place,
    _keyword_from_names file_node place_node = from_file ++ from_place
    /\ from_file `sublist_of` KEYWORDS
    /\ from_place `sublist_of` KEYWORDS
    /\ (forall k, k ∈ from_file
                  <-> k ∈ KEYWORDS
                      /\ exists pre post, lower file_node = pre +:+ k +:+ post)
    /\ (forall k, k ∈ from_place
                  <-> k ∈ KEYWORDS
                      /\ exists pre post, lower place_node = pre +:+ k +:+ post).
Proof.
  assert (forall s,
            let ks := if String.eqb s "" then []
                      else filter (fun k => Is_true (contains k (lower s))) KEYWORDS in
            ks `sublist_of` KEYWORDS
            /\ forall k, k ∈ ks <-> k ∈ KEYWORDS
                                    /\ exists pre post, lower s = pre +:+ k +:+ post) as H.
  { intros s. cbv zeta. split.
    - destruct (String.eqb s ""); [apply sublist_nil_l | apply sublist_filter].
    - intros k. destruct (String.eqb_spec s "") as [->|Hne].
      + split; [by intros ?%elem_of_nil|]. intros [Hk (pre & post & E)].
        exfalso. simpl in E.
        destruct pre; [|done]. simpl in E.
        unfold KEYWORDS in Hk.
        repeat (apply elem_of_cons in Hk as [->|Hk]; [done|]).
        by apply elem_of_nil in Hk.
      + rewrite list_elem_of_filter, <- contains_spec.
        destruct (contains k (lower s)); simpl; intuition done. }
  exists (if String.eqb file_node "" then []
          else filter (fun k => Is_true (contains k (lower file_node))) KEYWORDS).
  exists (if String.eqb place_node "" then []
          else filter (fun k => Is_true (contains k (lower place_node))) KEYWORDS).
  split; [|split; [apply H | split; [apply H | split; apply H]]].
  unfold _keyword_from_names. simpl. by rewrite app_nil_r.
Qed.

(** X4. The keys do not depend on the case of the names: two pairs of
    names with the same lowercase forms give the same keys. *)
Theorem keyword_from_names_case (file_node place_node file_node' place_node' : string) :
  lower file_node = lower file_node' -> lower place_node = lower place_node' ->
  _keyword_from_names file_node place_node = _keyword_from_names file_node' place_node'.
Proof.
  intros Hf Hp. unfold _keyword_from_names. simpl.
  rewrite <- (lower_eq_empty file_node), <- (lower_eq_empty place_node).
  rewrite <- (lower_eq_empty file_node'), <- (lower_eq_empty place_node').
  by rewrite Hf, Hp.
Qed.

(** X4, witness: an upper-case spelling of the demo names. *)
Lemma keyword_from_names_case_witness :
  _keyword_from_names "IRIS_File" "Place_Iris" = _keyword_from_names "iris_file" "place_iris".
Proof. by apply keyword_from_names_case. Defined.

(** X5. [run_export] collects the options in the order of its table,
    each at most once, and an option is collected exactly when its
    checkbox is checked. *)
Theorem collect_options_spec (sc : Scene) :
  collect_options sc `sublist_of` map fst OPTION_TABLE
  /\ NoDup (collect_options sc)
  /\ forall name,
       name ∈ collect_options sc
       <-> exists cb, (name, cb) ∈ OPTION_TABLE /\ sc_checkBox sc cb = true.
Proof.
  split; [apply collect_options_sublist|]. split; [apply collect_options_NoDup|].
  intros name. unfold collect_options. rewrite list_elem_of_In, in_flat_map. split.
  - intros ([name' cb] & Hin & H). exists cb. simpl in H.
    destruct (sc_checkBox sc cb) eqn:E; [|done].
    destruct H as [->|[]]. split; [by apply list_elem_of_In | done].
  - intros (cb & Hin & E). exists (name, cb). split; [by apply list_elem_of_In|].
    simpl. rewrite E. by left.
Qed.

(** ** Equality of states *)

Lemma py_eqb_refl x : py_eqb x x = true.
Proof.
  destruct x as [|a|s]; simpl; [done| |apply String.eqb_refl].
  apply Qeq_bool_iff. reflexivity.
Qed.

Lemma py_eqb_sym x y : py_eqb x y = py_eqb y x.
Proof.
  destruct x as [|a|s], y as [|b|s']; simpl; try done; [|apply String.eqb_sym].
  destruct (Qeq_bool (attr_Q a) (attr_Q b)) eqn:E1, (Qeq_bool (attr_Q b) (attr_Q a)) eqn:E2;
    try done.
  - apply Qeq_bool_iff in E1. symmetry in E1. apply Qeq_bool_iff in E1. congruence.
  - apply Qeq_bool_iff in E2. symmetry in E2. apply Qeq_bool_iff in E2. congruence.
Qed.

Lemma py_eqb_trans x y z : py_eqb x y = true -> py_eqb y z = true -> py_eqb x z = true.
Proof.
  destruct x as [|a|s], y as [|b|s'], z as [|c|s'']; simpl; try done.
  - rewrite !Qeq_bool_iff. intros H1 H2. by rewrite H1.
  - rewrite !String.eqb_eq. congruence.
Qed.

Lemma py_list_eqb_refl l : py_list_eqb l l = true.
Proof. induction l as [|x l IH]; [done|]. simpl. by rewrite py_eqb_refl, IH. Qed.

Lemma py_list_eqb_sym l1 l2 : py_list_eqb l1 l2 = py_list_eqb l2 l1.
Proof.
  revert l2. induction l1 as [|x l1 IH]; intros [|y l2]; simpl; try done.
  by rewrite py_eqb_sym, IH.
Qed.

Lemma py_list_eqb_trans l1 l2 l3 :
  py_list_eqb l1 l2 = true -> py_list_eqb l2 l3 = true -> py_list_eqb l1 l3 = true.
Proof.
  revert l2 l3. induction l1 as [|x l1 IH]; intros [|y l2] [|z l3]; simpl; try done.
  rewrite !andb_true_iff. intros [H1 H2] [H3 H4]. split.
  - by eapply py_eqb_trans.
  - by eapply IH.
Qed.

(** Comparing with a state equal to [b] is comparing with [b]. *)
Lemma py_list_eqb_congr a b c :
  py_list_eqb b c = true -> py_list_eqb a c = py_list_eqb a b.
Proof.
  intros H. destruct (py_list_eqb a b) eqn:E.
  - by eapply py_list_eqb_trans.
  - destruct (py_list_eqb a c) eqn:E'; [|done].
    rewrite py_list_eqb_sym in H.
    by rewrite (py_list_eqb_trans a c b E' H) in E.
Qed.

(** ** More on the frames a loop records *)

(** In changes-only mode the state kept is equal to the state of the
    frame visited last. *)
Lemma recorded_last_state S frs f :
  exists fs, last (recorded false S (frs ++ [f])) = Some fs
             /\ py_list_eqb (S f) fs.2 = true.
Proof.
  rewrite recorded_snoc. simpl.
  destruct (last (recorded false S frs)) as [fs|] eqn:E; simpl.
  - destruct (py_list_eqb (S f) fs.2) eqn:E'; simpl.
    + exists fs. by rewrite app_nil_r.
    + exists (f, S f). rewrite last_snoc. split; [done|]. apply py_list_eqb_refl.
  - exists (f, S f). rewrite last_snoc. split; [done|]. apply py_list_eqb_refl.
Qed.

(** A frame after the first is recorded exactly when its state differs
    from the state of the frame before it. *)
Lemma recorded_snoc_prev S frs f' f :
  recorded false S ((frs ++ [f']) ++ [f])
  = recorded false S (frs ++ [f'])
    ++ (if negb (py_list_eqb (S f) (S f')) then [(f, S f)] else []).
Proof.
  rewrite (recorded_snoc false S (frs ++ [f'])). simpl.
  destruct (recorded_last_state S frs f') as (fs & -> & E). simpl.
  by rewrite (py_list_eqb_congr (S f) (S f') fs.2 E).
Qed.

Lemma recorded_constant S frs f :
  (forall f', f' ∈ frs -> py_list_eqb (S f') (S f) = true) ->
  recorded false S (f :: frs) = [(f, S f)].
Proof.
  induction frs as [|f' frs IH] using rev_ind; intros H; [done|].
  change (f :: frs ++ [f']) with ((f :: frs) ++ [f']).
  rewrite recorded_snoc. rewrite IH by (intros; apply H, elem_of_app; by left).
  simpl. rewrite H; [done|]. apply elem_of_app. right. apply list_elem_of_here.
Qed.

Lemma head_make_row meta geo mat file_node fs :
  head (make_row meta geo mat file_node fs) = Some (PNum (AInt fs.1)).
Proof. done. Qed.

(** The frame cells of the rows, read off the recorded frames. *)
Lemma rows_frames meta geo mat file_node collect_all S frs :
  let rows := map (make_row meta geo mat file_node) (recorded collect_all S frs) in
  exists fs,
    fs `sublist_of` frs
    /\ map head rows = map (fun f => Some (PNum (AInt f))) fs
    /\ (rows = [] <-> frs = []).
Proof.
  intros rows. exists (map fst (recorded collect_all S frs)). split; [|split].
  - apply recorded_frames_sublist.
  - unfold rows. rewrite !map_map. by apply map_ext.
  - unfold rows. split.
    + destruct frs as [|f frs]; [done|].
      by destruct (recorded_cons collect_all S f frs) as [rest ->].
    + by intros ->.
Qed.

(** ** More on the frame loops *)

(** X6. The rows of a texture are in increasing order of their frames
    and no frame has two rows: the frame cells of the rows are a
    sublist of the frames of the range; and there is no row at all only
    when the range holds no frame.  This holds in both modes and for
    both variants; for the second, with the options [run_export]
    collects. *)
Theorem rows_follow_frames (sc : Scene) (options : list string) (meta : Meta)
    (collect_all : bool) (geo mat file_node place : string) (start end_ t0 : Z) :
  (exists rows fs,
      out_res (AnimData.frame_loop sc options meta collect_all geo mat file_node place
                 start end_ t0) = Ok rows
      /\ fs `sublist_of` py_range start (end_ + 1)
      /\ map head rows = map (fun f => Some (PNum (AInt f))) fs
      /\ (rows = [] <-> end_ < start))
  /\ (exists acc fs,
        out_res (AnimDataFinal.frame_loop sc (collect_options sc) meta collect_all geo mat
                   file_node place start end_ t0) = Ok acc
        /\ fs `sublist_of` py_range start (end_ + 1)
        /\ map head (AnimDataFinal.rows acc) = map (fun f => Some (PNum (AInt f))) fs
        /\ (AnimDataFinal.rows acc = [] <-> end_ < start)).
Proof.
  assert (py_range start (end_ + 1) = [] <-> end_ < start) as Hnil.
  { split.
    - intros H. destruct (Z_lt_le_dec end_ start) as [|Hle]; [done|].
      rewrite py_range_cons in H by lia. done.
    - intros H. apply py_range_nil. lia. }
  split.
  - rewrite direct_frame_loop. cbn [out_res].
    destruct (rows_frames meta geo mat file_node collect_all
                (direct_state sc options file_node place) (py_range start (end_ + 1)))
      as (fs & H1 & H2 & H3).
    eexists. exists fs. split; [done|]. split; [done|]. split; [done|].
    by rewrite <- Hnil.
  - rewrite (corrected_frame_loop sc _ _ _ _ _ _ _ _ _ _ (collect_options_known sc)).
    cbn [out_res].
    destruct (rows_frames meta geo mat file_node collect_all
                (corrected_state sc (collect_options sc) file_node place)
                (py_range start (end_ + 1)))
      as (fs & H1 & H2 & H3).
    eexists. exists fs. split; [done|]. cbn [AnimDataFinal.rows].
    split; [done|]. split; [done|]. by rewrite <- Hnil.
Qed.

(** X7. In changes-only mode a frame after the first gets a row exactly
    when its state differs from the state of the frame just before it,
    written or not: comparing with the last written state and comparing
    with the previous frame come to the same, because equality of states
    is an equivalence. *)
Theorem changes_against_previous_frame (sc : Scene) (options : list string) (meta : Meta)
    (geo mat file_node place : string) (start end_ : Z) :
  (exists S R,
      (forall f, out_res (AnimData.sample sc options file_node place f) = Ok (S f, S f))
      /\ (forall e t0,
            out_res (AnimData.frame_loop sc options meta false geo mat file_node place
                       start e t0) = Ok (R e))
      /\ forall f, start < f <= end_ ->
           R f = R (f - 1)
                 ++ (if negb (py_list_eqb (S f) (S (f - 1)))
                     then [row_prefix meta f geo mat file_node ++ S f] else []))
  /\ (exists S R,
        (forall f,
            out_res ((do current <- AnimDataFinal.sample sc (collect_options sc)
                                      file_node place in
                      AnimDataFinal.lookup_all current (collect_options sc)) f)
            = Ok (S f))
        /\ (forall e t0,
              out_res (out_rows (AnimDataFinal.frame_loop sc (collect_options sc) meta false
                                   geo mat file_node place start e t0)) = Ok (R e))
        /\ forall f, start < f <= end_ ->
             R f = R (f - 1)
                   ++ (if negb (py_list_eqb (S f) (S (f - 1)))
                       then [row_prefix meta f geo mat file_node ++ S f] else [])).
Proof.
  assert (forall S f, start < f ->
            map (make_row meta geo mat file_node) (recorded false S (py_range start (f + 1)))
            = map (make_row meta geo mat file_node)
                (recorded false S (py_range start (f - 1 + 1)))
              ++ (if negb (py_list_eqb (S f) (S (f - 1)))
                  then [row_prefix meta f geo mat file_node ++ S f] else [])) as Hstep.
  { intros S f Hf. replace (f - 1 + 1) with f by lia.
    rewrite (py_range_snoc start f) by lia.
    replace (py_range start f) with (py_range start (f - 1) ++ [f - 1]).
    - rewrite recorded_snoc_prev, map_app. by destruct (negb _).
    - rewrite <- py_range_snoc by lia. f_equal. lia. }
  split.
  - exists (direct_state sc options file_node place).
    exists (fun e => map (make_row meta geo mat file_node)
                       (recorded false (direct_state sc options file_node place)
                          (py_range start (e + 1)))).
    split; [|split].
    + intros f. by rewrite (reads_direct_sample sc).
    + intros e t0. by rewrite direct_frame_loop.
    + intros f Hf. apply Hstep. lia.
  - pose proof (collect_options_known sc) as Hsub.
    exists (corrected_state sc (collect_options sc) file_node place).
    exists (fun e => map (make_row meta geo mat file_node)
                       (recorded false (corrected_state sc (collect_options sc) file_node place)
                          (py_range start (e + 1)))).
    split; [|split].
    + intros f. rewrite (bind_reads _ _ _ (reads_corrected_sample sc _ _ _)).
      rewrite (lookup_all_ok _ (corrected_value sc f file_node place)); [done|].
      intros o Ho. apply current_at_lookup; [by apply Hsub | done].
    + intros e t0. by rewrite (corrected_frame_loop sc _ _ _ _ _ _ _ _ _ _ Hsub).
    + intros f Hf. apply Hstep. lia.
Qed.

(** X7, witness: in the demo scene the offset changes between the
    frames 2 and 3. *)
Lemma changes_against_previous_frame_witness :
  exists R : Z -> list (list pyval),
    (forall e t0,
        out_res (AnimData.frame_loop (Demo.eye false [] 1 5) ["OffsetU"]
                   {| meta_geo := false; meta_mat := false; meta_file := false |}
                   false "eyeGeo" "eyeMat" "iris_file" "place_iris" 1 e t0) = Ok (R e))
    /\ R 3 = R (3 - 1) ++ [[PNum (AInt 3); PNum (AFloat (1 # 2))]].
Proof.
  destruct (changes_against_previous_frame (Demo.eye false [] 1 5) ["OffsetU"]
              {| meta_geo := false; meta_mat := false; meta_file := false |}
              "eyeGeo" "eyeMat" "iris_file" "place_iris" 1 5)
    as [(S & R & HS & HR & H) _].
  exists R. split; [done|].
  rewrite (H 3) by lia.
  assert (S 3 = [PNum (AFloat (1 # 2))]) as ->.
  { specialize (HS 3). vm_compute in HS. by injection HS. }
  assert (S (3 - 1) = [PNum (AFloat 0)]) as ->.
  { specialize (HS (3 - 1)). vm_compute in HS. by injection HS. }
  reflexivity.
Defined.

(** X8. The rows of the first variant depend on which option names of
    the table occur in [options], not on their order, their number of
    occurrences or on other names in the list: two option lists with
    the same table names give the same run of the frame loop. *)
Theorem direct_rows_by_membership (sc : Scene) (options options' : list string)
    (meta : Meta) (collect_all : bool) (geo mat file_node place : string)
    (start end_ t0 : Z) :
  (forall name, name ∈ map fst OPTION_TABLE -> name ∈ options <-> name ∈ options') ->
  AnimData.frame_loop sc options meta collect_all geo mat file_node place start end_ t0
  = AnimData.frame_loop sc options' meta collect_all geo mat file_node place start end_ t0.
Proof.
  intros H. rewrite !direct_frame_loop. do 3 f_equal.
  apply recorded_ext. intros f _. unfold direct_state, selected. f_equal.
  by apply filter_ext_in.
Qed.

(** X8, witness: a list out of order, with a repetition and an unknown
    name, against the list in table order. *)
Lemma direct_rows_by_membership_witness :
  AnimData.frame_loop (Demo.eye false [] 1 3) ["OffsetV"; "Foo"; "OffsetU"; "OffsetU"]
    {| meta_geo := true; meta_mat := false; meta_file := false |} false
    "eyeGeo" "eyeMat" "iris_file" "place_iris" 1 3 0
  = AnimData.frame_loop (Demo.eye false [] 1 3) ["OffsetU"; "OffsetV"]
      {| meta_geo := true; meta_mat := false; meta_file := false |} false
      "eyeGeo" "eyeMat" "iris_file" "place_iris" 1 3 0.
Proof.
  apply direct_rows_by_membership.
  intros name Hname. unfold OPTION_TABLE in Hname. simpl in Hname.
  repeat (apply elem_of_cons in Hname as [->|Hname];
          [apply (bool_decide_unpack _); by vm_compute|]).
  by apply elem_of_nil in Hname.
Defined.

(** ** Where an export leaves the current time *)

Lemma time_tracks_reads {A} (m : M A) f : reads m f -> time_tracks m.
Proof. intros H t. by rewrite H. Qed.

Lemma time_tracks_ret {A} (a : A) : time_tracks (ret a).
Proof. done. Qed.

Lemma time_tracks_raise {A} e : time_tracks (@raise A e).
Proof. done. Qed.

Lemma time_tracks_currentTime f : time_tracks (currentTime f).
Proof. done. Qed.

Lemma time_tracks_emit e : time_calls [e] = [] -> time_tracks (emit e).
Proof. intros H t. unfold emit. simpl out_trace. by rewrite H. Qed.

Lemma time_tracks_bind {A B} (m : M A) (k : A -> M B) :
  time_tracks m -> (forall a, time_tracks (k a)) -> time_tracks (bind m k).
Proof.
  intros Hm Hk t. unfold bind. specialize (Hm t).
  destruct (m t) as [t1 tr1 [a|e]]; simpl in *; [|done].
  rewrite (Hk a t1), time_calls_app, last_app.
  by destruct (last (time_calls (out_trace (k a t1)))).
Qed.

Lemma time_tracks_foldM {A St} (body : St -> A -> M St) (l : list A) :
  (forall s x, time_tracks (body s x)) -> forall s, time_tracks (foldM body l s).
Proof.
  intros H. induction l as [|x l IH]; intros s; [apply time_tracks_ret|].
  simpl. by apply time_tracks_bind.
Qed.

Lemma time_tracks_for_each {A} (l : list A) (body : A -> M unit) :
  (forall x, time_tracks (body x)) -> time_tracks (for_each l body).
Proof.
  intros H. induction l as [|x l IH]; [apply time_tracks_ret|].
  simpl. by apply time_tracks_bind.
Qed.

Lemma time_tracks_lookup_all current options :
  time_tracks (AnimDataFinal.lookup_all current options).
Proof.
  induction options as [|o options IH]; [apply time_tracks_ret|].
  simpl. destruct (current !! o); [|apply time_tracks_raise].
  apply time_tracks_bind; [done|]. intros vs. apply time_tracks_ret.
Qed.

Lemma time_tracks_direct_export os list_of_set sc g options meta collect_all :
  time_tracks (AnimData.export_textures os list_of_set sc g options meta collect_all).
Proof.
  unfold AnimData.export_textures.
  destruct (String.eqb (EXPORT_PATH g) ""); [by apply time_tracks_emit|].
  destruct (sc_selection sc) as [|geo sel]; [by apply time_tracks_emit|].
  cbv zeta. apply time_tracks_bind; [|intros _; by apply time_tracks_emit].
  apply time_tracks_for_each. intros mat. apply time_tracks_for_each. intros file_node.
  unfold AnimData.export_texture.
  destruct (TEXTURE_CHECKBOXES g !! file_node) as [cb|]; [|apply time_tracks_ret].
  destruct (negb (sc_checkBox sc cb)); [apply time_tracks_ret|].
  destruct (get_place2d sc file_node) as [place|]; [|apply time_tracks_ret].
  destruct (String.eqb place ""); [apply time_tracks_ret|].
  apply time_tracks_bind.
  - unfold AnimData.frame_loop.
    apply time_tracks_bind; [|intros acc; apply time_tracks_ret].
    apply time_tracks_foldM. intros acc f. unfold AnimData.frame_body.
    apply time_tracks_bind; [apply time_tracks_currentTime|]. intros _.
    apply time_tracks_bind; [apply (time_tracks_reads _ _ (reads_direct_sample sc _ _ _))|].
    intros sd. destruct (collect_all || state_ne _ _); apply time_tracks_ret.
  - intros rows. destruct rows; [apply time_tracks_ret | by apply time_tracks_emit].
Qed.

Lemma time_tracks_corrected_export os list_of_set sc g options meta export_mode collect_all :
  time_tracks (AnimDataFinal.export_textures os list_of_set sc g options meta export_mode
                 collect_all).
Proof.
  unfold AnimDataFinal.export_textures.
  destruct (String.eqb (EXPORT_PATH g) ""); [by apply time_tracks_emit|].
  destruct (sc_selection sc) as [|geo sel]; [by apply time_tracks_emit|].
  cbv zeta. apply time_tracks_bind; [|intros _; by apply time_tracks_emit].
  apply time_tracks_for_each. intros mat. apply time_tracks_for_each. intros file_node.
  unfold AnimDataFinal.export_texture.
  destruct (TEXTURE_CHECKBOXES g !! file_node) as [cb|]; [|apply time_tracks_ret].
  destruct (negb (sc_checkBox sc cb)); [apply time_tracks_ret|].
  destruct (get_place2d sc file_node) as [place|]; [|apply time_tracks_ret].
  destruct (String.eqb place ""); [apply time_tracks_ret|].
  apply time_tracks_bind.
  - unfold AnimDataFinal.frame_loop.
    apply time_tracks_foldM. intros acc f. unfold AnimDataFinal.frame_body.
    apply time_tracks_bind; [apply time_tracks_currentTime|]. intros _.
    apply time_tracks_bind;
      [apply (time_tracks_reads _ _ (reads_corrected_sample sc _ _ _))|].
    intros current. apply time_tracks_bind; [apply time_tracks_lookup_all|].
    intros state. destruct (collect_all || state_ne _ _); apply time_tracks_ret.
  - intros acc. destruct (String.eqb export_mode "datatable"); by apply time_tracks_emit.
Qed.

Lemma last_py_range start end_ : start <= end_ -> last (py_range start (end_ + 1)) = Some end_.
Proof. intros H. rewrite py_range_snoc by done. apply last_snoc. Qed.

Lemma last_flat_map_const {A B} (l : list A) (k : list B) :
  last (flat_map (fun _ => k) l) = match l with [] => None | _ => last k end.
Proof.
  induction l as [|x l IH]; [done|]. simpl. rewrite last_app, IH.
  destruct l; [done|]. by destruct (last k).
Qed.

(** X9. An export does not put the current time back.  It leaves the
    host at the time of its last [currentTime] call; so after an export
    that visited at least one texture over a non-empty playback range
    the current time is [int] of the playback maximum, and otherwise it
    is the time the host had. *)
Theorem export_leaves_time (os : OsPath) (list_of_set : gset string -> list string)
    (sc : Scene) (g : Globals) (options : list string) (meta : Meta)
    (export_mode : string) (collect_all : bool) (geo : string) (t : Z) :
  EXPORT_PATH g <> "" -> head (sc_selection sc) = Some geo ->
  let start := py_int (sc_playback_min sc) in
  let end_ := py_int (sc_playback_max sc) in
  let visited := targets list_of_set sc g geo <> [] /\ start <= end_ in
  let after1 :=
    out_time (AnimData.export_textures os list_of_set sc g options meta collect_all t) in
  let after2 :=
    out_time (AnimDataFinal.export_textures os list_of_set sc g (collect_options sc) meta
                export_mode collect_all t) in
  (visited -> after1 = end_ /\ after2 = end_)
  /\ (~ visited -> after1 = t /\ after2 = t).
Proof.
  intros Hpath Hsel start end_ visited after1 after2.
  assert (after1 = default t (last (flat_map (fun _ => frames sc)
                                      (targets list_of_set sc g geo)))) as H1.
  { unfold after1. rewrite time_tracks_direct_export.
    destruct (direct_export_trace os list_of_set sc g options meta collect_all geo t
                Hpath Hsel) as [-> _].
    rewrite time_calls_app, time_calls_flat_map. simpl. rewrite app_nil_r.
    do 2 f_equal. apply flat_map_ext. intros target. apply time_calls_direct_events. }
  assert (after2 = default t (last (flat_map (fun _ => frames sc)
                                      (targets list_of_set sc g geo)))) as H2.
  { unfold after2. rewrite time_tracks_corrected_export.
    destruct (corrected_export_trace os list_of_set sc g _ meta export_mode collect_all
                geo t (collect_options_known sc) Hpath Hsel) as [-> _].
    rewrite time_calls_app, time_calls_flat_map. simpl. rewrite app_nil_r.
    do 2 f_equal. apply flat_map_ext. intros target. apply time_calls_corrected_events. }
  rewrite H1, H2, last_flat_map_const. unfold visited, frames. fold start end_. split.
  - intros [Ht Hr]. destruct (targets list_of_set sc g geo); [done|].
    by rewrite last_py_range.
  - intros Hn. destruct (targets list_of_set sc g geo) as [|target l]; [done|].
    destruct (Z_lt_le_dec end_ start) as [Hlt|Hle].
    + by rewrite py_range_nil by lia.
    + exfalso. apply Hn. done.
Qed.

(** X9, witness: the demo export over the frames 1 to 4, started at
    frame 9, leaves the host at frame 4. *)
Lemma export_leaves_time_witness :
  let sc := Demo.eye false Demo.all_checked 1 4 in
  out_time (AnimData.export_textures Demo.posix Demo.order_a sc Demo.eye_globals
              ["OffsetU"] (collect_meta sc) false 9) = 4.
Proof.
  intros sc.
  pose proof (export_leaves_time Demo.posix Demo.order_a sc Demo.eye_globals ["OffsetU"]
                (collect_meta sc) "datatable" false "eyeGeo" 9) as H.
  cbv zeta in H. destruct H as [H _]; [vm_compute; discriminate | vm_compute; reflexivity |].
  destruct H as [H _]; [|exact H].
  split; [vm_compute; discriminate | vm_compute; discriminate].
Defined.

(** ** An option name outside the table *)

Lemma current_at_lookup_None sc options file_node place t o :
  o ∉ ALL_OPTIONS -> current_at sc options file_node place t !! o = None.
Proof.
  intros Ho. unfold ALL_OPTIONS, OPTION_TABLE in Ho. simpl in Ho.
  assert ("ActiveImage" <> o /\ "OffsetU" <> o /\ "OffsetV" <> o /\ "ScaleU" <> o
          /\ "ScaleV" <> o /\ "RotateUV" <> o) as (H1 & H2 & H3 & H4 & H5 & H6).
  { repeat split; intros <-; apply Ho;
      repeat first [apply list_elem_of_here | apply list_elem_of_further]. }
  unfold current_at. cbv zeta.
  repeat case_bool_decide; cbn [orb];
    rewrite ?lookup_insert_ne by done; apply lookup_empty.
Qed.

Lemma lookup_all_raise (current : gmap string pyval) pre o rest t :
  (forall o', o' ∈ pre -> is_Some (current !! o')) -> current !! o = None ->
  AnimDataFinal.lookup_all current (pre ++ o :: rest) t = mkOut t [] (Raise (KeyError o)).
Proof.
  intros Hpre Ho. induction pre as [|o' pre IH]; simpl.
  - by rewrite Ho.
  - destruct (Hpre o' (list_elem_of_here _ _)) as [v ->].
    rewrite (bind_raise _ _ t t [] (KeyError o)); [done|].
    apply IH. intros o'' Ho''. by apply Hpre, list_elem_of_further.
Qed.

Lemma for_each_first_raise {A} (l : list A) (body : A -> M unit) (hit : A -> bool)
    (t' : Z) (tr : list Event) (e : exn) :
  (forall x t, hit x = false -> body x t = mkOut t [] (Ok tt)) ->
  (forall x t, hit x = true -> body x t = mkOut t' tr (Raise e)) ->
  forall t, for_each l body t
            = if existsb hit l then mkOut t' tr (Raise e) else mkOut t [] (Ok tt).
Proof.
  intros Hskip Hhit. induction l as [|x l IH]; intros t; [done|].
  simpl. destruct (hit x) eqn:E; simpl.
  - by rewrite (bind_raise _ _ _ _ _ _ (Hhit x t E)).
  - rewrite (bind_out _ _ _ _ _ _ (Hskip x t E)). rewrite IH.
    by destruct (existsb hit l).
Qed.

Lemma existsb_targets list_of_set sc g geo :
  targets list_of_set sc g geo <> [] ->
  existsb (fun mat =>
             existsb (fun file_node =>
                        match enabled_place sc g file_node with
                        | Some _ => true
                        | None => false
                        end)
               (get_file_textures_from_material sc mat))
    (get_materials_from_geo sc list_of_set geo) = true.
Proof.
  unfold targets. induction (get_materials_from_geo sc list_of_set geo) as [|mat mats IH].
  - done.
  - simpl. intros H. apply orb_true_iff.
    destruct (omap _ (get_file_textures_from_material sc mat)) as [|target l] eqn:E.
    + right. by apply IH.
    + left. clear IH H. revert E.
      induction (get_file_textures_from_material sc mat) as [|file_node files IHf]; [done|].
      change (omap ?h (file_node :: files))
        with (match h file_node with Some y => y :: omap h files | None => omap h files end).
      simpl. destruct (enabled_place sc g file_node); [done|]. apply IHf.
Qed.

(** X10. An option name that is not one of the six of the table is a
    missing key for the second variant: at the first frame of the first
    exported texture the export raises [KeyError] with the first such
    name, after it has set the current time to that frame; no file is
    written and the completion message is not shown.  The first variant
    does not raise on the same options. *)
Theorem unknown_option_raises (os : OsPath) (list_of_set : gset string -> list string)
    (sc : Scene) (g : Globals) (known : list string) (o : string) (rest : list string)
    (meta : Meta) (export_mode : string) (collect_all : bool) (geo : string) (t : Z) :
  known ⊆ map fst OPTION_TABLE -> o ∉ map fst OPTION_TABLE ->
  EXPORT_PATH g <> "" -> head (sc_selection sc) = Some geo ->
  targets list_of_set sc g geo <> [] ->
  py_int (sc_playback_min sc) <= py_int (sc_playback_max sc) ->
  AnimDataFinal.export_textures os list_of_set sc g (known ++ o :: rest) meta export_mode
    collect_all t
  = mkOut (py_int (sc_playback_min sc)) [CurrentTime (py_int (sc_playback_min sc))]
      (Raise (KeyError o))
  /\ out_res (AnimData.export_textures os list_of_set sc g (known ++ o :: rest) meta
                collect_all t) = Ok tt.
Proof.
  intros Hknown Ho Hpath Hsel Htargets Hrange.
  split; [|by destruct (direct_export_trace os list_of_set sc g (known ++ o :: rest) meta
                         collect_all geo t Hpath Hsel)].
  set (options := known ++ o :: rest).
  set (start := py_int (sc_playback_min sc)). set (end_ := py_int (sc_playback_max sc)).
  assert (forall mat file_node place acc f t,
            AnimDataFinal.frame_body sc options meta collect_all geo mat file_node place acc
              f t = mkOut f [CurrentTime f] (Raise (KeyError o))) as Hbody.
  { intros mat file_node place acc f t1. unfold AnimDataFinal.frame_body.
    rewrite (bind_out _ _ t1 f [CurrentTime f] tt eq_refl).
    rewrite (bind_reads _ _ _ (reads_corrected_sample sc options file_node place)).
    rewrite (bind_raise _ _ f f [] (KeyError o)); [done|].
    apply lookup_all_raise.
    - intros o' Ho'. exists (corrected_value sc f file_node place o').
      apply current_at_lookup; [by apply Hknown|]. apply elem_of_app. by left.
    - by apply current_at_lookup_None. }
  assert (forall mat file_node t,
            AnimDataFinal.export_texture os sc g options meta export_mode collect_all geo
              start end_ mat file_node t
            = if match enabled_place sc g file_node with Some _ => true | None => false end
              then mkOut start [CurrentTime start] (Raise (KeyError o))
              else mkOut t [] (Ok tt)) as Htex.
  { intros mat file_node t1. unfold AnimDataFinal.export_texture, enabled_place.
    destruct (TEXTURE_CHECKBOXES g !! file_node) as [cb|]; [|done].
    destruct (sc_checkBox sc cb); [|done]. simpl.
    destruct (get_place2d sc file_node) as [place|]; [|done].
    destruct (String.eqb place ""); [done|].
    apply bind_raise. unfold AnimDataFinal.frame_loop.
    rewrite (py_range_cons start (end_ + 1)) by lia. simpl foldM.
    by rewrite (bind_raise _ _ _ _ _ _ (Hbody mat file_node place _ start t1)). }
  unfold AnimDataFinal.export_textures.
  apply String.eqb_neq in Hpath. rewrite Hpath.
  destruct (sc_selection sc) as [|geo' sel]; [done|]. injection Hsel as ->.
  cbv zeta. fold start end_ options.
  apply bind_raise.
  rewrite (for_each_first_raise _ _
             (fun mat => existsb (fun file_node =>
                                    match enabled_place sc g file_node with
                                    | Some _ => true
                                    | None => false
                                    end)
                           (get_file_textures_from_material sc mat))
             start [CurrentTime start] (KeyError o)).
  - by rewrite (existsb_targets list_of_set sc g geo Htargets).
  - intros mat t1 E.
    rewrite (for_each_first_raise _ _
               (fun file_node => match enabled_place sc g file_node with
                                 | Some _ => true
                                 | None => false
                                 end)
               start [CurrentTime start] (KeyError o)).
    + by rewrite E.
    + intros file_node t2 E'. by rewrite Htex, E'.
    + intros file_node t2 E'. by rewrite Htex, E'.
  - intros mat t1 E.
    rewrite (for_each_first_raise _ _
               (fun file_node => match enabled_place sc g file_node with
                                 | Some _ => true
                                 | None => false
                                 end)
               start [CurrentTime start] (KeyError o)).
    + by rewrite E.
    + intros file_node t2 E'. by rewrite Htex, E'.
    + intros file_node t2 E'. by rewrite Htex, E'.
Qed.

(** X10, witness: the demo export asked for "OffsetU" and then for
    "Foo". *)
Lemma unknown_option_raises_witness :
  let sc := Demo.eye false Demo.all_checked 1 4 in
  AnimDataFinal.export_textures Demo.posix Demo.order_a sc Demo.eye_globals
    (["OffsetU"] ++ "Foo" :: ["ScaleU"]) (collect_meta sc) "datatable" true 9
  = mkOut 1 [CurrentTime 1] (Raise (KeyError "Foo")).
Proof.
  intros sc.
  refine (proj1 (unknown_option_raises Demo.posix Demo.order_a sc Demo.eye_globals
                   ["OffsetU"] "Foo" ["ScaleU"] (collect_meta sc) "datatable" true
                   "eyeGeo" 9 _ _ _ _ _ _)).
  - intros x Hx. apply list_elem_of_singleton in Hx as ->.
    apply (bool_decide_unpack _). by vm_compute.
  - apply (bool_decide_unpack _). by vm_compute.
  - vm_compute. discriminate.
  - vm_compute. reflexivity.
  - vm_compute. discriminate.
  - vm_compute. discriminate.
Defined.

(** X11. Started through [run_export], the second variant never misses
    a key of its dictionary [current]: every option that [run_export]
    collects is one the sampling stores, so the state of a frame is
    built without [KeyError] and holds one value for each collected
    option, in their order, and no run of [run_export] ends in
    [KeyError] (compare X10, where [export_textures] is given another
    name).  Errors of the host's commands and of the file system are
    not modelled and not meant here. *)
Theorem run_export_no_KeyError (os : OsPath) (list_of_set : gset string -> list string)
    (sc : Scene) (g : Globals) (t : Z) :
  (forall file_node place f,
      (do current <- AnimDataFinal.sample sc (collect_options sc) file_node place in
       AnimDataFinal.lookup_all current (collect_options sc)) f
      = mkOut f []
          (Ok (map (corrected_value sc f file_node place) (collect_options sc))))
  /\ (forall o,
        out_res (AnimDataFinal.run_export os list_of_set sc g t) <> Raise (KeyError o)).
Proof.
  split.
  - intros file_node place f.
    rewrite (bind_reads _ _ _ (reads_corrected_sample sc (collect_options sc) file_node
                                 place)).
    apply lookup_all_ok. intros o Ho.
    apply current_at_lookup; [by apply (collect_options_known sc) | done].
  - intros o. unfold AnimDataFinal.run_export. cbv zeta.
    destruct (String.eqb (EXPORT_PATH g) "") eqn:E.
    { unfold AnimDataFinal.export_textures. by rewrite E. }
    destruct (sc_selection sc) as [|geo sel] eqn:Hsel.
    { unfold AnimDataFinal.export_textures. by rewrite E, Hsel. }
    apply String.eqb_neq in E.
    assert (head (sc_selection sc) = Some geo) as Hhead by by rewrite Hsel.
    destruct (corrected_export_trace os list_of_set sc g (collect_options sc)
                (collect_meta sc)
                (if Z.eqb (sc_radioButtonGrp sc "rb_export") 1 then "datatable" else "curve")
                (Z.eqb (sc_radioButtonGrp sc "rb_frames") 1) geo t
                (collect_options_known sc) E Hhead) as [_ ->].
    done.
Qed.

(** ** No option checked *)

Lemma collect_options_nil sc :
  (forall name cb, (name, cb) ∈ OPTION_TABLE -> sc_checkBox sc cb = false) ->
  collect_options sc = [].
Proof.
  unfold collect_options. generalize OPTION_TABLE. intros tbl H.
  induction tbl as [|[name cb] tbl IH]; [done|].
  simpl. rewrite (H name cb) by apply list_elem_of_here. simpl.
  apply IH. intros name' cb' Hin. apply (H name' cb'). by apply list_elem_of_further.
Qed.

(** X12. With no option checkbox checked the first variant warns and
    exports nothing, while the second variant exports tables without
    option columns: in changes-only mode over a non-empty range, the
    table of every visited texture is the header and the row of the
    first frame, since all the empty states are equal. *)
Theorem no_option_checked (os : OsPath) (list_of_set : gset string -> list string)
    (sc : Scene) (g : Globals) (meta : Meta) (geo : string) (t : Z) :
  (forall name cb, (name, cb) ∈ OPTION_TABLE -> sc_checkBox sc cb = false) ->
  AnimData.run_export os list_of_set sc g t
  = mkOut t [Warning "Select values to export."] (Ok tt)
  /\ (EXPORT_PATH g <> "" -> head (sc_selection sc) = Some geo ->
      py_int (sc_playback_min sc) <= py_int (sc_playback_max sc) ->
      writes (out_trace (AnimDataFinal.export_textures os list_of_set sc g
                           (collect_options sc) meta "datatable" false t))
      = map (fun target : string * string * string =>
               (AnimDataFinal.csv_path os g target.1.2,
                [header [] meta;
                 row_prefix meta (py_int (sc_playback_min sc)) geo target.1.1 target.1.2]))
          (targets list_of_set sc g geo)).
Proof.
  intros Hnone. pose proof (collect_options_nil sc Hnone) as Hnil. split.
  - unfold AnimData.run_export. cbv zeta. by rewrite Hnil.
  - intros Hpath Hsel Hrange. rewrite Hnil.
    destruct (corrected_export_trace os list_of_set sc g [] meta "datatable" false geo t)
      as [-> _]; [by intros x ?%elem_of_nil | done | done |].
    rewrite writes_app, writes_flat_map. simpl. rewrite app_nil_r.
    rewrite <- flat_map_singleton. apply flat_map_ext. intros target.
    unfold corrected_events. rewrite writes_app, writes_CurrentTime. simpl.
    unfold frames. rewrite py_range_cons by lia.
    rewrite (recorded_constant (corrected_state sc [] target.1.2 target.2)) by done.
    simpl. unfold make_row. simpl. by rewrite app_nil_r.
Qed.

(** X12, witness: the demo scene with the metadata boxes checked and no
    option box. *)
Lemma no_option_checked_witness :
  let sc := Demo.eye false [("cb_mat", true); ("checkBox1", true)] 1 4 in
  AnimData.run_export Demo.posix Demo.order_a sc Demo.eye_globals 9
  = mkOut 9 [Warning "Select values to export."] (Ok tt).
Proof.
  intros sc.
  refine (proj1 (no_option_checked Demo.posix Demo.order_a sc Demo.eye_globals
                   (collect_meta sc) "eyeGeo" 9 _)).
  intros name cb H. unfold OPTION_TABLE in H.
  repeat (apply elem_of_cons in H as [H|H]; [by injection H as -> ->|]).
  by apply elem_of_nil in H.
Defined.

(** ** The texture panel *)

Lemma panel_textures_elem list_of_set sc geo tex :
  tex ∈ panel_textures list_of_set sc geo
  <-> exists mat, mat ∈ get_materials_from_geo sc list_of_set geo
                  /\ tex ∈ get_file_textures_from_material sc mat.
Proof.
  unfold panel_textures.
  assert (forall (mats : list string) (acc : gset string),
            tex ∈ fold_left (fun (textures : gset string) mat =>
                               textures
                               ∪ list_to_set (get_file_textures_from_material sc mat))
                    mats acc
            <-> tex ∈ acc
                \/ exists mat, mat ∈ mats /\ tex ∈ get_file_textures_from_material sc mat)
    as H.
  { induction mats as [|mat mats IH]; intros acc.
    - simpl. split; [auto|]. intros [H|(mat & H & _)]; [done|]. by apply elem_of_nil in H.
    - simpl. rewrite IH, elem_of_union, elem_of_list_to_set. split.
      + intros [[H|H]|(mat' & H1 & H2)]; [by left | right | right].
        * exists mat. split; [apply list_elem_of_here | done].
        * exists mat'. split; [by apply list_elem_of_further | done].
      + intros [H|(mat' & H1 & H2)]; [by left; left|].
        apply elem_of_cons in H1 as [->|H1]; [by left; right|].
        right. by exists mat'. }
  rewrite H. split; [|auto]. intros [Hin|Hex]; [|done]. by apply elem_of_empty in Hin.
Qed.

(** The loop that creates the checkboxes: the dictionary holds for
    every label the control the host answered. *)
Lemma checkbox_loop ui (l : list string) (st : Globals * list UiEvent) :
  NoDup (map fst (checkboxes st.2) ++ l) ->
  (forall tex cb, TEXTURE_CHECKBOXES st.1 !! tex = Some cb <-> (tex, cb) ∈ checkboxes st.2) ->
  let st' :=
    fold_left (fun (st : Globals * list UiEvent) tex =>
                 let cb := ui_checkBox ui st.2 tex in
                 ({| EXPORT_PATH := EXPORT_PATH st.1;
                     TEXTURE_CHECKBOXES := <[tex := cb]> (TEXTURE_CHECKBOXES st.1) |},
                  st.2 ++ [CheckBox tex cb])) l st in
  EXPORT_PATH st'.1 = EXPORT_PATH st.1
  /\ map fst (checkboxes st'.2) = map fst (checkboxes st.2) ++ l
  /\ forall tex cb,
       TEXTURE_CHECKBOXES st'.1 !! tex = Some cb <-> (tex, cb) ∈ checkboxes st'.2.
Proof.
  revert st. induction l as [|tex l IH]; intros st Hnd Hinv.
  - simpl. by rewrite app_nil_r.
  - simpl.
    set (cb := ui_checkBox ui st.2 tex).
    set (st1 := ({| EXPORT_PATH := EXPORT_PATH st.1;
                    TEXTURE_CHECKBOXES := <[tex := cb]> (TEXTURE_CHECKBOXES st.1) |},
                 st.2 ++ [CheckBox tex cb])).
    assert (checkboxes st1.2 = checkboxes st.2 ++ [(tex, cb)]) as Hcb.
    { unfold st1, checkboxes. simpl. by rewrite omap_app. }
    destruct (IH st1) as (H1 & H2 & H3).
    + rewrite Hcb, map_app. simpl. by rewrite <- app_assoc.
    + intros tex' cb'. rewrite Hcb, elem_of_app, list_elem_of_singleton. simpl.
      destruct (decide (tex = tex')) as [<-|Hne].
      * rewrite lookup_insert_eq. split.
        -- intros [= <-]. by right.
        -- intros [Hin|[= <-]]; [|done]. exfalso.
           apply NoDup_app in Hnd as (_ & Hnd & _). apply (Hnd tex).
           ++ apply list_elem_of_fmap. by exists (tex, cb').
           ++ apply list_elem_of_here.
      * rewrite lookup_insert_ne by done. rewrite Hinv. split; [auto|].
        intros [Hin|[= E _]]; [done|]. by subst.
    + split; [exact H1|]. split; [|exact H3].
      etransitivity; [exact H2|].
      rewrite Hcb, map_app. simpl. by rewrite <- app_assoc.
Qed.

(** What one call of [refresh_texture_list] leaves behind: the path,
    a dictionary that holds what the checkbox events say, and the
    labels of the checkboxes. *)
Lemma refresh_texture_list_loop ui list_of_set sc g :
  let panel := refresh_texture_list ui list_of_set sc g in
  EXPORT_PATH panel.1 = EXPORT_PATH g
  /\ (forall tex cb,
        TEXTURE_CHECKBOXES panel.1 !! tex = Some cb <-> (tex, cb) ∈ checkboxes panel.2)
  /\ match sc_selection sc with
     | [] => TEXTURE_CHECKBOXES panel.1 = ∅
     | geo :: _ => map fst (checkboxes panel.2) = sorted (panel_textures list_of_set sc geo)
     end.
Proof.
  intros panel. unfold panel, refresh_texture_list. clear panel. cbv zeta.
  set (ev0 := (if ui_columnLayout_exists ui "textureColumn"
               then [DeleteUI "textureColumn"] else [])
              ++ [SetParent "textureScroll"; ColumnLayout "textureColumn"]).
  set (g0 := {| EXPORT_PATH := EXPORT_PATH g; TEXTURE_CHECKBOXES := ∅ |}).
  assert (checkboxes ev0 = []) as Hev0.
  { unfold ev0. by destruct (ui_columnLayout_exists ui "textureColumn"). }
  assert (forall label, checkboxes (ev0 ++ [Text label]) = []) as Hev1.
  { intros label. unfold checkboxes. rewrite omap_app. fold (checkboxes ev0).
    by rewrite Hev0. }
  destruct (sc_selection sc) as [|geo sel] eqn:Hsel.
  { simpl. rewrite Hev1. split; [done|]. split; [|done].
    intros tex cb. rewrite lookup_empty. split; [done|]. by intros ?%elem_of_nil. }
  destruct (decide (panel_textures list_of_set sc geo = ∅)) as [Hempty|Hne].
  { simpl. rewrite Hev1. split; [done|]. split.
    - intros tex cb. rewrite lookup_empty. split; [done|]. by intros ?%elem_of_nil.
    - rewrite Hempty. unfold sorted. by rewrite elements_empty. }
  destruct (checkbox_loop ui (sorted (panel_textures list_of_set sc geo)) (g0, ev0))
    as (H1 & H2 & H3).
  { simpl. rewrite Hev0. apply NoDup_sorted. }
  { intros tex cb. simpl. rewrite Hev0, lookup_empty. split; [done|].
    by intros ?%elem_of_nil. }
  cbv zeta in H1, H2, H3. simpl in H1, H2. rewrite Hev0 in H2. simpl in H2.
  done.
Qed.

(** X13. [refresh_texture_list] starts from an empty dictionary, so no
    entry of an earlier selection survives, and keeps the export path.
    With nothing selected the dictionary stays empty.  Otherwise it
    creates one checkbox for every file texture of the materials of the
    first selected object, in ascending order of the names and each
    once, and the dictionary maps every such texture, and nothing else,
    to the control the host answered for its checkbox. *)
Theorem refresh_texture_list_spec (ui : Ui) (list_of_set : gset string -> list string)
    (sc : Scene) (g : Globals) :
  let g' := (refresh_texture_list ui list_of_set sc g).1 in
  let ev := (refresh_texture_list ui list_of_set sc g).2 in
  EXPORT_PATH g' = EXPORT_PATH g
  /\ (forall tex cb, TEXTURE_CHECKBOXES g' !! tex = Some cb <-> (tex, cb) ∈ checkboxes ev)
  /\ (sc_selection sc = [] -> TEXTURE_CHECKBOXES g' = ∅)
  /\ (forall geo, head (sc_selection sc) = Some geo ->
        NoDup (map fst (checkboxes ev))
        /\ StronglySorted str_le (map fst (checkboxes ev))
        /\ forall tex,
             is_Some (TEXTURE_CHECKBOXES g' !! tex)
             <-> exists mat, mat ∈ get_materials_from_geo sc list_of_set geo
                             /\ tex ∈ get_file_textures_from_material sc mat).
Proof.
  intros g' ev.
  destruct (refresh_texture_list_loop ui list_of_set sc g) as (Hpath & Hdict & Hshape).
  fold g' in Hpath, Hdict, Hshape. fold ev in Hdict, Hshape.
  split; [done|]. split; [done|]. split.
  - intros Hsel. by rewrite Hsel in Hshape.
  - intros geo Hsel. destruct (sc_selection sc) as [|geo' sel]; [done|].
    injection Hsel as ->. rewrite Hshape.
    split; [apply NoDup_sorted|]. split; [apply StronglySorted_sorted|].
    intros tex. rewrite <- panel_textures_elem, <- elem_of_sorted, <- Hshape. split.
    + intros [cb Hcb]. apply list_elem_of_fmap. exists (tex, cb). split; [done|].
      by apply Hdict.
    + intros Hin. apply list_elem_of_fmap in Hin as ([tex' cb] & -> & Hin).
      exists cb. by apply Hdict.
Qed.

(** X13, witness: the panel of the demo scene holds the iris texture. *)
Lemma refresh_texture_list_spec_witness :
  let sc := Demo.eye false [] 1 4 in
  let g' := (refresh_texture_list Demo.demo_ui Demo.order_a sc
               {| EXPORT_PATH := "/tmp/out.csv";
                  TEXTURE_CHECKBOXES := {["old_file" := "checkBox7"]} |}).1 in
  is_Some (TEXTURE_CHECKBOXES g' !! "iris_file")
  /\ ~ is_Some (TEXTURE_CHECKBOXES g' !! "old_file").
Proof.
  intros sc g'.
  pose proof (refresh_texture_list_spec Demo.demo_ui Demo.order_a sc
                {| EXPORT_PATH := "/tmp/out.csv";
                   TEXTURE_CHECKBOXES := {["old_file" := "checkBox7"]} |}) as H.
  cbv zeta in H. destruct H as (_ & _ & _ & H).
  destruct (H "eyeGeo" eq_refl) as (_ & _ & Hdom).
  split.
  - apply Hdom. exists "eyeMat". split; apply (bool_decide_unpack _); by vm_compute.
  - intros Hold. apply Hdom in Hold as (mat & Hmat & Htex). revert Hmat Htex.
    change (get_materials_from_geo sc Demo.order_a "eyeGeo") with ["eyeMat"].
    intros ->%list_elem_of_singleton.
    apply (bool_decide_eq_false_1 _). by vm_compute.
Defined.

(** ** The panel and the export together *)

Lemma elem_of_targets list_of_set sc g geo mat tex place :
  (mat, tex, place) ∈ targets list_of_set sc g geo
  <-> mat ∈ get_materials_from_geo sc list_of_set geo
      /\ tex ∈ get_file_textures_from_material sc mat
      /\ enabled_place sc g tex = Some place.
Proof.
  unfold targets. rewrite list_elem_of_In, in_flat_map. split.
  - intros (mat' & Hmat & Hin). apply list_elem_of_In in Hmat, Hin.
    apply list_elem_of_omap in Hin as (tex' & Htex & E).
    destruct (enabled_place sc g tex') as [place'|] eqn:Hplace; [|done].
    by injection E as -> -> ->.
  - intros (Hmat & Htex & Hplace). exists mat. split; [by apply list_elem_of_In|].
    apply list_elem_of_In, list_elem_of_omap. exists tex. by rewrite Hplace.
Qed.

Lemma omap_ext_in {A B} (f h : A -> option B) (l : list A) :
  (forall x, x ∈ l -> f x = h x) -> omap f l = omap h l.
Proof.
  induction l as [|x l IH]; intros H; [done|].
  change (omap ?k (x :: l))
    with (match k x with Some y => y :: omap k l | None => omap k l end).
  rewrite (H x) by apply list_elem_of_here.
  rewrite IH; [done|]. intros y Hy. apply H. by apply list_elem_of_further.
Qed.

Lemma flat_map_ext_elem {A B} (f h : A -> list B) (l : list A) :
  (forall x, x ∈ l -> f x = h x) -> flat_map f l = flat_map h l.
Proof.
  induction l as [|x l IH]; intros H; [done|]. simpl.
  rewrite (H x) by apply list_elem_of_here.
  rewrite IH; [done|]. intros y Hy. apply H. by apply list_elem_of_further.
Qed.

(** X14. Refreshing the panel, choosing a path and exporting fit
    together.  After [refresh_texture_list] on the scene that is then
    exported, with or without a [browse_path] in between, no file
    texture of the selected object is skipped for want of a checkbox:
    each has one, and it is exported exactly when that checkbox is
    checked and the texture has a place2d node with a non-empty name.
    When every checkbox of the panel is still checked, as it is created,
    the export visits every file texture that has such a place2d node. *)
Theorem panel_then_export (ui : Ui) (list_of_set : gset string -> list string)
    (sc : Scene) (g : Globals) (geo : string) :
  head (sc_selection sc) = Some geo ->
  let panel := refresh_texture_list ui list_of_set sc g in
  let g' := (browse_path ui panel.1).1 in
  (forall mat tex,
     mat ∈ get_materials_from_geo sc list_of_set geo ->
     tex ∈ get_file_textures_from_material sc mat ->
     exists cb,
       (tex, cb) ∈ checkboxes panel.2
       /\ forall place,
            (mat, tex, place) ∈ targets list_of_set sc g' geo
            <-> sc_checkBox sc cb = true
                /\ get_place2d sc tex = Some place /\ place <> "")
  /\ ((forall tex cb, (tex, cb) ∈ checkboxes panel.2 -> sc_checkBox sc cb = true) ->
      targets list_of_set sc g' geo
      = flat_map (fun mat =>
                    omap (fun tex =>
                            match get_place2d sc tex with
                            | Some place =>
                                if String.eqb place "" then None
                                else Some (mat, tex, place)
                            | None => None
                            end)
                      (get_file_textures_from_material sc mat))
          (get_materials_from_geo sc list_of_set geo)).
Proof.
  intros Hsel panel g'.
  assert (TEXTURE_CHECKBOXES g' = TEXTURE_CHECKBOXES panel.1) as Hg'.
  { unfold g', browse_path. by destruct (ui_fileDialog2 ui). }
  destruct (refresh_texture_list_loop ui list_of_set sc g) as (_ & Hdict & Hshape).
  fold panel in Hdict, Hshape.
  destruct (sc_selection sc) as [|geo' sel]; [done|]. injection Hsel as ->.
  assert (forall mat tex,
            mat ∈ get_materials_from_geo sc list_of_set geo ->
            tex ∈ get_file_textures_from_material sc mat ->
            exists cb, TEXTURE_CHECKBOXES g' !! tex = Some cb
                       /\ (tex, cb) ∈ checkboxes panel.2) as Hhas.
  { intros mat tex Hmat Htex.
    assert (tex ∈ map fst (checkboxes panel.2)) as Hin.
    { rewrite Hshape. apply elem_of_sorted, panel_textures_elem. by exists mat. }
    apply list_elem_of_fmap in Hin as ([tex' cb] & -> & Hin).
    exists cb. rewrite Hg'. split; [by apply Hdict | done]. }
  split.
  - intros mat tex Hmat Htex. destruct (Hhas mat tex Hmat Htex) as (cb & Hcb & Hin).
    exists cb. split; [done|]. intros place. rewrite elem_of_targets.
    unfold enabled_place. rewrite Hcb.
    destruct (sc_checkBox sc cb); [|by intuition].
    destruct (get_place2d sc tex) as [place'|]; [|by intuition].
    destruct (String.eqb_spec place' "") as [->|Hne].
    + split; [by intros (_ & _ & ?) | by intros (_ & [= <-] & ?)].
    + split.
      * intros (_ & _ & [= ->]). done.
      * intros (_ & [= ->] & _). done.
  - intros Hall. unfold targets. apply flat_map_ext_elem. intros mat Hmat.
    apply omap_ext_in. intros tex Htex.
    destruct (Hhas mat tex Hmat Htex) as (cb & Hcb & Hin).
    unfold enabled_place. rewrite Hcb, (Hall tex cb Hin).
    destruct (get_place2d sc tex) as [place|]; [|done].
    by destruct (String.eqb place "").
Qed.

(** X14, witness: in the demo scene the panel is refreshed, a path is
    chosen, and the iris texture is a target of the export. *)
Lemma panel_then_export_witness :
  let sc := Demo.eye false [("cb_iris_file", true)] 1 4 in
  let panel := refresh_texture_list Demo.demo_ui Demo.order_a sc
                 {| EXPORT_PATH := ""; TEXTURE_CHECKBOXES := ∅ |} in
  let g' := (browse_path Demo.demo_ui panel.1).1 in
  EXPORT_PATH g' = "/tmp/out.csv"
  /\ targets Demo.order_a sc g' "eyeGeo" = [("eyeMat", "iris_file", "place_iris")].
Proof.
  intros sc panel g'. split; [by vm_compute|].
  destruct (panel_then_export Demo.demo_ui Demo.order_a sc
              {| EXPORT_PATH := ""; TEXTURE_CHECKBOXES := ∅ |} "eyeGeo" eq_refl)
    as [_ H].
  fold panel in H. fold g' in H. rewrite H; [by vm_compute|].
  intros tex cb Hin.
  assert (checkboxes panel.2 = [("iris_file", "cb_iris_file")]) as E by (by vm_compute).
  rewrite E in Hin. apply list_elem_of_singleton in Hin as [= -> ->]. by vm_compute.
Defined.
